(** * Hopper (grasshopper LSP): document synchronisation and context extraction

    A shallow embedding of the Go sources
      - internal/parser/treesitter.go  (packages parser and position),
      - internal/analyzer/analyzer.go  (package analyzer),
      - internal/ai/client.go          (package ai),
      - internal/server/{server,handlers}.go (package server),
    together with the properties the specification states about them.

    Conventions.  A Go [string] and a Go [[]byte] are both byte sequences and
    are modelled as [list byte]; a Go [int] is a [Z]; a [uint32] is a [Z]
    reduced modulo [2^32] where the source converts; a nil pointer is [None]. *)

From Stdlib Require Import ZArith List Lia Bool.
From Stdlib Require Import Strings.Byte Strings.String Strings.Ascii.
From stdpp Require Import base option list gmap strings.

Local Open Scope Z_scope.

Abbreviation bytes := (list byte).

#[global] Instance byte_eq_dec : EqDecision byte := Byte.byte_eq_dec.

(** Byte-string literal: the bytes of an ASCII Rocq string. *)
Definition B (s : string) : bytes := list_byte_of_string s.

Definition LF : byte := Byte.x0a.
Definition CR : byte := Byte.x0d.
Definition SP : byte := Byte.x20.

(** Numeric value of a byte. *)
Definition bz (b : byte) : Z := Z.of_N (Byte.to_N b).

(** Go's [len] on strings and slices. *)
Definition len {A} (s : list A) : Z := Z.of_nat (length s).

(** Go's slice expression [s[a:b]] for in-range bounds [0 <= a <= b <= len s]. *)
Definition slice {A} (s : list A) (a b : Z) : list A :=
  take (Z.to_nat (b - a)) (drop (Z.to_nat a) s).

(** The same expression with the run-time bounds check of Go: out of range
    bounds make the program panic, which is [None] here. *)
Definition slice_checked {A} (s : list A) (a b : Z) : option (list A) :=
  if (0 <=? a) && (a <=? b) && (b <=? len s) then Some (slice s a b) else None.

(** Go's index expression [s[i]], [None] when it would panic. *)
Definition index_checked {A} (s : list A) (i : Z) : option A :=
  if (0 <=? i) && (i <? len s) then s !! Z.to_nat i else None.

(** ** Package strings (Go standard library), the functions the sources call *)

Module GoStrings.

Fixpoint HasPrefix (s prefix : bytes) : bool :=
  match prefix, s with
  | [], _ => true
  | _ :: _, [] => false
  | c :: p', d :: s' => Byte.eqb c d && HasPrefix s' p'
  end.

Definition HasSuffix (s suffix : bytes) : bool :=
  HasPrefix (rev s) (rev suffix).

Definition TrimPrefix (s prefix : bytes) : bytes :=
  if HasPrefix s prefix then drop (length prefix) s else s.

Definition TrimSuffix (s suffix : bytes) : bytes :=
  if HasSuffix s suffix then take (length s - length suffix) s else s.

(** [strings.Index]: byte index of the first occurrence of [sep], or [-1]. *)
Fixpoint Index (s sep : bytes) : Z :=
  if HasPrefix s sep then 0
  else match s with
       | [] => -1
       | _ :: s' => let i := Index s' sep in if i <? 0 then -1 else i + 1
       end.

(** [bytes.IndexByte]. *)
Fixpoint IndexByte (s : bytes) (c : byte) : Z :=
  match s with
  | [] => -1
  | d :: s' =>
      if Byte.eqb d c then 0
      else let i := IndexByte s' c in if i <? 0 then -1 else i + 1
  end.

(** [strings.Trim] for a cutset of ASCII bytes (the only use in the sources
    is the cutset consisting of the double quote): leading and trailing
    bytes that belong to the cutset are removed. *)
Fixpoint trimLeftSet (s cutset : bytes) : bytes :=
  match s with
  | [] => []
  | c :: s' => if bool_decide (c ∈ cutset) then trimLeftSet s' cutset else s
  end.

Definition Trim (s cutset : bytes) : bytes :=
  rev (trimLeftSet (rev (trimLeftSet s cutset)) cutset).

(** The UTF-8 encodings of the code points for which [unicode.IsSpace]
    holds: TAB, LF, VT, FF, CR, SPACE, U+0085, U+00A0, U+1680,
    U+2000..U+200A, U+2028, U+2029, U+202F, U+205F, U+3000.  Each is a
    well-formed sequence beginning with an ASCII byte or a lead byte, so a
    string begins (ends) with one of them exactly when its first (last)
    decoded rune is a space. *)
Definition spaceSeqs : list bytes :=
  [ [Byte.x09]; [Byte.x0a]; [Byte.x0b]; [Byte.x0c]; [Byte.x0d]; [Byte.x20];
    [Byte.xc2; Byte.x85]; [Byte.xc2; Byte.xa0];
    [Byte.xe1; Byte.x9a; Byte.x80];
    [Byte.xe2; Byte.x80; Byte.x80]; [Byte.xe2; Byte.x80; Byte.x81];
    [Byte.xe2; Byte.x80; Byte.x82]; [Byte.xe2; Byte.x80; Byte.x83];
    [Byte.xe2; Byte.x80; Byte.x84]; [Byte.xe2; Byte.x80; Byte.x85];
    [Byte.xe2; Byte.x80; Byte.x86]; [Byte.xe2; Byte.x80; Byte.x87];
    [Byte.xe2; Byte.x80; Byte.x88]; [Byte.xe2; Byte.x80; Byte.x89];
    [Byte.xe2; Byte.x80; Byte.x8a];
    [Byte.xe2; Byte.x80; Byte.xa8]; [Byte.xe2; Byte.x80; Byte.xa9];
    [Byte.xe2; Byte.x80; Byte.xaf]; [Byte.xe2; Byte.x81; Byte.x9f];
    [Byte.xe3; Byte.x80; Byte.x80] ].

(** Length of the space sequence [s] starts with, [0] when there is none. *)
Definition spaceAt (seqs : list bytes) (s : bytes) : nat :=
  match filter (fun q => Is_true (HasPrefix s q)) seqs with
  | q :: _ => length q
  | [] => 0%nat
  end.

(** Drop leading space sequences; [skip] counts the bytes of the current
    sequence still to be dropped. *)
Fixpoint trimLeftSpaces (seqs : list bytes) (skip : nat) (s : bytes) : bytes :=
  match s with
  | [] => []
  | _ :: s' =>
      match skip with
      | S k => trimLeftSpaces seqs k s'
      | O => match spaceAt seqs s with
             | O => s
             | S k => trimLeftSpaces seqs k s'
             end
      end
  end.

Definition TrimSpace (s : bytes) : bytes :=
  let l := trimLeftSpaces spaceSeqs 0 s in
  rev (trimLeftSpaces (map (@rev byte) spaceSeqs) 0 (rev l)).

(** [strings.Fields]: the maximal runs of non-space code points. *)
Fixpoint fieldsAux (skip : nat) (cur : bytes) (s : bytes) : list bytes :=
  match s with
  | [] => match cur with [] => [] | _ => [cur] end
  | c :: s' =>
      match skip with
      | S k => fieldsAux k cur s'
      | O => match spaceAt spaceSeqs s with
             | O => fieldsAux 0 (cur ++ [c]) s'
             | S k => match cur with
                      | [] => fieldsAux k [] s'
                      | _ => cur :: fieldsAux k [] s'
                      end
             end
      end
  end.

Definition Fields (s : bytes) : list bytes := fieldsAux 0 [] s.

Fixpoint Join (elems : list bytes) (sep : bytes) : bytes :=
  match elems with
  | [] => []
  | [e] => e
  | e :: rest => e ++ sep ++ Join rest sep
  end.

(** [strings.ReplaceAll s old new] for a one-byte [old]. *)
Definition ReplaceAllByte (s : bytes) (old : byte) (new : bytes) : bytes :=
  flat_map (fun c => if Byte.eqb c old then new else [c]) s.

(** [strings.ToLower] restricted to ASCII letters; bytes outside [A-Z] are
    kept.  Go maps every Unicode letter; the development states its results
    for an arbitrary lower-casing function and uses this one in examples. *)
Definition asciiToLower (s : bytes) : bytes :=
  map (fun c =>
         let n := Byte.to_N c in
         if ((65 <=? n) && (n <=? 90))%N
         then match Byte.of_N (n + 32) with Some c' => c' | None => c end
         else c) s.

End GoStrings.

Example TrimSpace_ex :
  GoStrings.TrimSpace (B "  import x " ++ [Byte.xc2; Byte.xa0]) = B "import x".
Proof. reflexivity. Qed.

Example Fields_ex :
  GoStrings.Fields (B " from  x import y ") = [B "from"; B "x"; B "import"; B "y"].
Proof. reflexivity. Qed.

Example Index_ex : GoStrings.Index (B "ab<END>") (B "<END>") = 2.
Proof. reflexivity. Qed.

Example TrimSuffix_ex : GoStrings.TrimSuffix (B "x = 1<END>") (B "<END>") = B "x = 1".
Proof. reflexivity. Qed.

(** ** Package unicode/utf8 (Go standard library) *)

Module Utf8.

Definition RuneError : Z := 0xFFFD.

(** Continuation-byte range of [acceptRanges] for the lead byte [p0]. *)
Definition acceptLo (p0 : Z) : Z :=
  if p0 =? 0xE0 then 0xA0 else if p0 =? 0xF0 then 0x90 else 0x80.
Definition acceptHi (p0 : Z) : Z :=
  if p0 =? 0xED then 0x9F else if p0 =? 0xF4 then 0x8F else 0xBF.

(** Encoded length announced by a lead byte ([first[p0] & 7]); [0] for a
    byte that cannot start a multi-byte sequence. *)
Definition leadSize (p0 : Z) : Z :=
  if (0xC2 <=? p0) && (p0 <=? 0xDF) then 2
  else if (0xE0 <=? p0) && (p0 <=? 0xEF) then 3
  else if (0xF0 <=? p0) && (p0 <=? 0xF4) then 4
  else 0.

Definition isCont (b : Z) : bool := (0x80 <=? b) && (b <=? 0xBF).

(** [utf8.DecodeRune]: the first rune of [p] and its width in bytes; an
    ill-formed or truncated sequence decodes to [(RuneError, 1)]. *)
Definition DecodeRune (p : bytes) : Z * nat :=
  match p with
  | [] => (RuneError, 0%nat)
  | c0 :: p1 =>
      let p0 := bz c0 in
      if p0 <? 0x80 then (p0, 1%nat)
      else if leadSize p0 =? 0 then (RuneError, 1%nat)
      else
        match p1 with
        | [] => (RuneError, 1%nat)
        | c1 :: p2 =>
            let b1 := bz c1 in
            if (b1 <? acceptLo p0) || (acceptHi p0 <? b1) then (RuneError, 1%nat)
            else if leadSize p0 <=? 2
            then (Z.lor (Z.shiftl (Z.land p0 0x1F) 6) (Z.land b1 0x3F), 2%nat)
            else
              match p2 with
              | [] => (RuneError, 1%nat)
              | c2 :: p3 =>
                  let b2 := bz c2 in
                  if negb (isCont b2) then (RuneError, 1%nat)
                  else if leadSize p0 <=? 3
                  then (Z.lor (Z.lor (Z.shiftl (Z.land p0 0x0F) 12)
                                     (Z.shiftl (Z.land b1 0x3F) 6))
                              (Z.land b2 0x3F), 3%nat)
                  else
                    match p3 with
                    | [] => (RuneError, 1%nat)
                    | c3 :: _ =>
                        let b3 := bz c3 in
                        if negb (isCont b3) then (RuneError, 1%nat)
                        else (Z.lor (Z.lor (Z.lor (Z.shiftl (Z.land p0 0x07) 18)
                                                  (Z.shiftl (Z.land b1 0x3F) 12))
                                           (Z.shiftl (Z.land b2 0x3F) 6))
                                    (Z.land b3 0x3F), 4%nat)
                    end
              end
        end
  end.

(** The runes of a string with the width each was decoded from, as the
    conversion [[]rune(s)] and [for range s] produce them.  [fuel] bounds
    the number of runes; [length p] always suffices. *)
Fixpoint decodeAll (fuel : nat) (p : bytes) : list (Z * nat) :=
  match fuel with
  | O => []
  | S fuel' =>
      match p with
      | [] => []
      | _ => let '(r, n) := DecodeRune p in (r, n) :: decodeAll fuel' (drop n p)
      end
  end.

Definition decode (p : bytes) : list (Z * nat) := decodeAll (length p) p.

(** [[]rune(string(p))] *)
Definition runes (p : bytes) : list Z := map fst (decode p).

(** [utf8.RuneLen] *)
Definition RuneLen (r : Z) : Z :=
  if r <? 0 then -1
  else if r <=? 0x7F then 1
  else if r <=? 0x7FF then 2
  else if (0xD800 <=? r) && (r <=? 0xDFFF) then -1
  else if r <=? 0xFFFF then 3
  else if r <=? 0x10FFFF then 4
  else -1.

(** [utf8.Valid]: no position decodes to the error rune with width one. *)
Definition Valid (p : bytes) : bool :=
  forallb (fun rn => negb ((fst rn =? RuneError) && (Nat.eqb (snd rn) 1))) (decode p).

End Utf8.

Example decode_ex :
  Utf8.decode [Byte.x61; Byte.xc3; Byte.xa9; Byte.xf0; Byte.x9f; Byte.x98; Byte.x80]
  = [(0x61, 1%nat); (0xE9, 2%nat); (0x1F600, 4%nat)].
Proof. reflexivity. Qed.

Example decode_invalid_ex :
  Utf8.decode [Byte.xff; Byte.x61] = [(Utf8.RuneError, 1%nat); (0x61, 1%nat)].
Proof. reflexivity. Qed.

(** ** Package position: internal/parser/treesitter.go, [PositionToOffset] *)

Module Position.

(** [lsp.Position] *)
Record Position := mkPosition { Line : Z; Character : Z }.

Inductive error :=
| ErrNegativeLine        (* "invalid position: line %d is negative" *)
| ErrNegativeCharacter   (* "invalid position: character %d is negative" *)
| ErrScan                (* "error scanning content: %w" *)
| ErrLogic.              (* "logic error: failed to find offset for line %d" *)

Inductive result :=
| Ok (offset : Z)
| Err (e : error)
| OutOfFuel.             (* the model's loop bound was reached; never returned *)

(** *** [bufio.Scanner] with the default split function [bufio.ScanLines] *)

(** [bufio.MaxScanTokenSize]: the scanner's buffer never grows beyond it. *)
Definition maxScanTokenSize : Z := 64 * 1024.

(** [dropCR] of package bufio: a trailing carriage return is removed. *)
Definition dropCR (data : bytes) : bytes :=
  match last data with
  | Some c => if Byte.eqb c CR then take (length data - 1) data else data
  | None => data
  end.

Inductive ScanStep :=
| Token (tok rest : bytes)   (* [Scan] returned true; [rest] is still unread *)
| Stop (tooLong : bool).     (* [Scan] returned false; [Err()] is ErrTooLong or nil *)

(** One call of [scanner.Scan()] on the unread input [data], read from a
    [bytes.Reader].  A line is delivered when its terminator lies within the
    first [maxScanTokenSize] buffered bytes, or when the input ends before
    the buffer is full; a full buffer without a terminator is ErrTooLong. *)
Definition Scan (data : bytes) : ScanStep :=
  match data with
  | [] => Stop false
  | _ =>
      let i := GoStrings.IndexByte data LF in
      if 0 <=? i then
        if i <? maxScanTokenSize
        then Token (dropCR (slice data 0 i)) (drop (Z.to_nat (i + 1)) data)
        else Stop true
      else if len data <? maxScanTokenSize then Token (dropCR data) []
      else Stop true
  end.

(** UTF-16 code units of a rune: two for a surrogate pair. *)
Definition utf16Size (r : Z) : Z := if 0xFFFF <? r then 2 else 1.

(** The first loop over [lineRunes]: [utf16CodeUnitCount]. *)
Definition utf16CodeUnitCount (lineRunes : list Z) : Z :=
  fold_left (fun n r => n + utf16Size r) lineRunes 0.

(** The second loop over [lineRunes]; returns [runeOffsetBytes]. *)
Fixpoint runeOffset (lineRunes : list Z) (character utf16CharCount runeOffsetBytes : Z) : Z :=
  match lineRunes with
  | [] => runeOffsetBytes
  | r :: rest =>
      if character <=? utf16CharCount then runeOffsetBytes
      else
        let runeSize := Utf8.RuneLen r in
        let utf16Size := utf16Size r in
        if character <? utf16CharCount + utf16Size then runeOffsetBytes
        else runeOffset rest character (utf16CharCount + utf16Size) (runeOffsetBytes + runeSize)
  end.

(** The body of [if currentLine == pos.Line { ... }]. *)
Definition onTargetLine (lineBytes : bytes) (pos : Position) (byteOffset : Z) : result :=
  if Character pos <? 0 then Err ErrNegativeCharacter
  else
    let lineRunes := Utf8.runes lineBytes in
    if utf16CodeUnitCount lineRunes <? Character pos
    then Ok (byteOffset + len lineBytes)
    else Ok (byteOffset + runeOffset lineRunes (Character pos) 0 0).

(** The [for scanner.Scan()] loop and the code after it. *)
Fixpoint scanLoop (fuel : nat) (data : bytes) (contentLen : Z) (pos : Position)
         (currentLine byteOffset : Z) : result :=
  match fuel with
  | O => OutOfFuel
  | S fuel' =>
      match Scan data with
      | Token lineBytes rest =>
          if currentLine =? Line pos then onTargetLine lineBytes pos byteOffset
          else scanLoop fuel' rest contentLen pos (currentLine + 1)
                        (byteOffset + len lineBytes + 1)
      | Stop true => Err ErrScan
      | Stop false =>
          if currentLine <=? Line pos then Ok contentLen else Err ErrLogic
      end
  end.

Definition PositionToOffset (content : bytes) (pos : Position) : result :=
  if Line pos <? 0 then Err ErrNegativeLine
  else scanLoop (S (length content)) content (len content) pos 0 0.

(** *** The reference scanner of the specification

    Lines are the maximal runs of bytes between line feeds; the offset of
    (line, character) is the start of the line plus the encoded length of
    the longest run of leading code points whose UTF-16 length does not
    exceed [character]. *)

Fixpoint splitLF (s : bytes) : list bytes :=
  match s with
  | [] => [[]]
  | c :: s' =>
      if Byte.eqb c LF then [] :: splitLF s'
      else match splitLF s' with
           | l :: ls => (c :: l) :: ls
           | [] => [[c]]
           end
  end.

Fixpoint lineStart (ls : list bytes) (n : nat) : Z :=
  match n, ls with
  | S n', l :: ls' => len l + 1 + lineStart ls' n'
  | _, _ => 0
  end.

Fixpoint refColumn (cps : list (Z * nat)) (character : Z) : Z :=
  match cps with
  | [] => 0
  | (r, n) :: rest =>
      if utf16Size r <=? character
      then Z.of_nat n + refColumn rest (character - utf16Size r)
      else 0
  end.

Definition refOffset (content : bytes) (line character : Z) : Z :=
  let ls := splitLF content in
  match ls !! Z.to_nat line with
  | None => len content
  | Some l => lineStart ls (Z.to_nat line) + refColumn (Utf8.decode l) character
  end.

(** UTF-16 length of a line. *)
Definition utf16Len (l : bytes) : Z := utf16CodeUnitCount (Utf8.runes l).

(** The documents on which the scanner and the reference agree: every line
    is well-formed UTF-8, shorter than the scanner's buffer, and not
    terminated by a carriage return. *)
Definition lineOk (l : bytes) : bool :=
  Utf8.Valid l && (len l <? maxScanTokenSize) && negb (bool_decide (last l = Some CR)).

Definition wellFormed (content : bytes) : bool := forallb lineOk (splitLF content).

(** Every decoded rune re-encodes to its decoded width. *)
Definition widthsOk (cps : list (Z * nat)) : Prop :=
  Forall (fun rn => Utf8.RuneLen (fst rn) = Z.of_nat (snd rn)) cps.

End Position.

Example PositionToOffset_ex1 :
  Position.PositionToOffset (B "func main() {" ++ [LF] ++ B " fmt.Pri" ++ [LF] ++ B "}")
                            (Position.mkPosition 1 8) = Position.Ok 22.
Proof. reflexivity. Qed.

(** "a", U+1F600 (two UTF-16 units, four bytes), "b": column 3 is the "b". *)
Example PositionToOffset_ex2 :
  let content := [Byte.x61; Byte.xf0; Byte.x9f; Byte.x98; Byte.x80; Byte.x62] in
  Position.PositionToOffset content (Position.mkPosition 0 3) = Position.Ok 5
  /\ Position.PositionToOffset content (Position.mkPosition 0 2) = Position.Ok 1
  /\ Position.PositionToOffset content (Position.mkPosition 0 9) = Position.Ok 6
  /\ Position.PositionToOffset content (Position.mkPosition 4 0) = Position.Ok 6.
Proof. repeat split; reflexivity. Qed.

(** "a", U+1F600, "b", LF, "xy": column 3 of line 0 is the "b" at byte 5. *)
Definition sampleText : bytes :=
  [Byte.x61; Byte.xf0; Byte.x9f; Byte.x98; Byte.x80; Byte.x62; Byte.x0a; Byte.x78; Byte.x79].

(** ** Package sitter (go-tree-sitter), as far as the sources use it *)

Module Sitter.

#[local] Set Warnings "-register-all".

(** A syntax node: its kind, its byte span ([uint32] in Go) and all its
    children, named and anonymous, in source order. *)
Inductive Node : Type :=
| MkNode (kind : string) (startByte endByte : Z) (children : list Node).

Definition Kind (n : Node) : string := match n with MkNode k _ _ _ => k end.
Definition nStart (n : Node) : Z := match n with MkNode _ s _ _ => s end.
Definition nEnd (n : Node) : Z := match n with MkNode _ _ e _ => e end.
Definition Children (n : Node) : list Node := match n with MkNode _ _ _ c => c end.

(** A [*sitter.Node]: a node together with its ancestors, nearest first. *)
Record NodeRef := mkRef { node : Node; ancestors : list Node }.

Definition Type_ (r : NodeRef) : string := Kind (node r).
Definition StartByte (r : NodeRef) : Z := nStart (node r).
Definition EndByte (r : NodeRef) : Z := nEnd (node r).

Definition Parent (r : NodeRef) : option NodeRef :=
  match ancestors r with
  | [] => None
  | p :: rest => Some (mkRef p rest)
  end.

(** A [*sitter.Tree] is given by its root; [RootNode] has no ancestors. *)
Definition Tree := Node.
Definition RootNode (t : Tree) : NodeRef := mkRef t [].

Record Point := mkPoint { Row : Z; Column : Z }.

(** [sitter.TreeCursor]: the current node and, for every level below the
    node the cursor was created at, the parent and the siblings to the right
    of the path. *)
Record Frame := mkFrame { fParent : Node; fRights : list Node }.
Record TreeCursor := mkCursor { cur : Node; stack : list Frame }.

Definition NewTreeCursor (n : NodeRef) : TreeCursor := mkCursor (node n) [].
Definition CurrentNode (c : TreeCursor) : Node := cur c.

Definition GoToFirstChild (c : TreeCursor) : option TreeCursor :=
  match Children (cur c) with
  | [] => None
  | k :: ks => Some (mkCursor k (mkFrame (cur c) ks :: stack c))
  end.

Definition GoToNextSibling (c : TreeCursor) : option TreeCursor :=
  match stack c with
  | [] => None
  | f :: st =>
      match fRights f with
      | [] => None
      | s :: ss => Some (mkCursor s (mkFrame (fParent f) ss :: st))
      end
  end.

Definition GoToParent (c : TreeCursor) : option TreeCursor :=
  match stack c with
  | [] => None
  | f :: st => Some (mkCursor (fParent f) st)
  end.

(** The nodes of a tree in document (pre-)order. *)
Fixpoint preorder (n : Node) : list Node :=
  match n with
  | MkNode _ _ _ ch => n :: flat_map preorder ch
  end.

End Sitter.

(** ** Package analyzer: internal/analyzer/analyzer.go *)

Module Analyzer.
Import Sitter.

#[global] Instance byte_countable : Countable byte :=
  inj_countable Byte.to_N Byte.of_N Byte.of_to_N.

Record NodeInfo := mkNodeInfo {
  niType : string;
  niContent : bytes;
  niStartByte : Z;
  niEndByte : Z
}.

Record ContextInfo := mkContextInfo {
  LanguageID : string;
  Filename : string;
  Prefix : bytes;
  Suffix : bytes;
  CurrentLinePrefix : bytes;
  CurrentLineSuffix : bytes;
  CursorNode : option NodeInfo;
  EnclosingNode : option NodeInfo;
  Imports : list bytes
}.

(** What a call can do: return a value, return a Go [error], panic on an
    index or slice out of range, or exhaust the loop bound of the model. *)
Inductive result (A : Type) :=
| Ok (a : A)
| Err
| Panic
| OutOfFuel.
Arguments Ok {A} a.
Arguments Err {A}.
Arguments Panic {A}.
Arguments OutOfFuel {A}.

Definition bind {A B} (m : result A) (k : A -> result B) : result B :=
  match m with
  | Ok a => k a
  | Err => Err
  | Panic => Panic
  | OutOfFuel => OutOfFuel
  end.

#[global] Instance result_bind : MBind result := fun A B k m => bind m k.
#[global] Instance result_ret : MRet result := @Ok.

(** An index or slice expression that panics out of range. *)
Definition orPanic {A} (o : option A) : result A :=
  match o with Some a => Ok a | None => Panic end.

Definition functionNodeTypes : gmap string (list string) :=
  list_to_map
    [ ("go", ["function_declaration"; "method_declaration"]);
      ("python", ["function_definition"]);
      ("javascript", ["function_declaration"; "function_expression"; "arrow_function"; "method_definition"]);
      ("typescript", ["function_declaration"; "function_expression"; "arrow_function"; "method_definition"]);
      ("rust", ["function_item"; "function_signature_item"; "impl_item"]);
      ("java", ["method_declaration"; "constructor_declaration"]) ]%string.

Definition classNodeTypes : gmap string (list string) :=
  list_to_map
    [ ("go", ["type_spec"; "struct_type"]);
      ("python", ["class_definition"]);
      ("javascript", ["class_declaration"; "class_expression"]);
      ("typescript", ["class_declaration"; "class_expression"; "interface_declaration"]);
      ("rust", ["struct_item"; "enum_item"; "trait_item"; "union_item"; "impl_item"]);
      ("java", ["class_declaration"; "interface_declaration"; "enum_declaration"]) ]%string.

Definition importNodeTypes : gmap string (list string) :=
  list_to_map
    [ ("go", ["import_declaration"; "import_spec"]);
      ("python", ["import_statement"; "import_from_statement"]);
      ("javascript", ["import_statement"]);
      ("typescript", ["import_statement"]);
      ("rust", ["use_declaration"; "extern_crate_declaration"]);
      ("java", ["import_declaration"]) ]%string.

(** A missing key of a Go map of slices reads as the nil slice. *)
Definition tableGet (t : gmap string (list string)) (k : string) : list string :=
  default [] (t !! k).

Definition uint32 (z : Z) : Z := z mod 2 ^ 32.

(** [getNodeText] for a non-nil node. *)
Definition nodeText (n : Node) (content : bytes) : result bytes :=
  let start := nStart n in
  let end_ := nEnd n in
  let contentLen := uint32 (len content) in
  if (start <? 0) || (end_ <? 0) || (end_ <? start) || (contentLen <? end_)
  then Ok (B "[error extracting text bounds]")
  else orPanic (slice_checked content start end_).

Definition getNodeText (n : option NodeRef) (content : bytes) : result bytes :=
  match n with
  | None => Ok []
  | Some r => nodeText (node r) content
  end.

(** The loop of [findAncestorOfType] over a node and its ancestors. *)
Fixpoint firstOfType (typeSet : gset string) (n : Node) (anc : list Node) : option NodeRef :=
  if bool_decide (Kind n ∈ typeSet) then Some (mkRef n anc)
  else match anc with
       | [] => None
       | p :: rest => firstOfType typeSet p rest
       end.

Definition findAncestorOfType (startNode : option NodeRef) (types : list string) : option NodeRef :=
  match startNode with
  | None => None
  | Some r =>
      if bool_decide (length types = 0%nat) then None
      else firstOfType (list_to_set types) (node r) (ancestors r)
  end.

(** The [for i, b := range content] loop of [calculatePointFromOffset];
    [currentOffset] is the offset after the bytes consumed so far. *)
Fixpoint pointLoop (content : bytes) (byteOffset currentOffset : Z) (p : Point) : Point :=
  match content with
  | [] => p
  | b :: rest =>
      if currentOffset =? byteOffset then p
      else
        let p' := if Byte.eqb b LF
                  then mkPoint (uint32 (Row p + 1)) 0
                  else mkPoint (Row p) (uint32 (Column p + 1)) in
        pointLoop rest byteOffset (currentOffset + 1) p'
  end.

Definition calculatePointFromOffset (content : bytes) (byteOffset : Z) : Point :=
  let byteOffset := if byteOffset <? 0 then 0 else byteOffset in
  let byteOffset := if len content <? byteOffset then len content else byteOffset in
  pointLoop content byteOffset 0 (mkPoint 0 0).

(** [cleanImportText] *)
Definition cleanImportText (importText : bytes) (languageID : string) : bytes :=
  let cleaned := GoStrings.TrimSpace importText in
  let finish (cleaned : bytes) : bytes :=
    if bool_decide (length (GoStrings.Fields cleaned) = 0%nat) then [] else cleaned in
  if String.eqb languageID "go" then
    let cleaned := GoStrings.Trim cleaned [Byte.x22] in
    let cleaned := GoStrings.TrimPrefix cleaned (B "import (") in
    let cleaned := GoStrings.TrimPrefix cleaned (B "import") in
    let cleaned := GoStrings.TrimSuffix cleaned (B ")") in
    let cleaned := GoStrings.TrimSpace cleaned in
    if bool_decide (length cleaned = 0%nat) || bool_decide (cleaned = B "(")
       || bool_decide (cleaned = B ")")
    then []
    else finish cleaned
  else if String.eqb languageID "python" then
    let cleaned := GoStrings.ReplaceAllByte cleaned LF [SP] in
    finish (GoStrings.Join (GoStrings.Fields cleaned) [SP])
  else if String.eqb languageID "javascript" || String.eqb languageID "typescript" then
    let cleaned := GoStrings.ReplaceAllByte cleaned LF [SP] in
    finish (GoStrings.Join (GoStrings.Fields cleaned) [SP])
  else if String.eqb languageID "rust" then
    let cleaned := GoStrings.TrimPrefix cleaned (B "use ") in
    let cleaned := GoStrings.TrimPrefix cleaned (B "extern crate ") in
    let cleaned := GoStrings.TrimSuffix cleaned (B ";") in
    finish (GoStrings.TrimSpace cleaned)
  else if String.eqb languageID "java" then
    let cleaned := GoStrings.TrimPrefix cleaned (B "import ") in
    let cleaned := GoStrings.TrimSuffix cleaned (B ";") in
    let cleaned := GoStrings.TrimPrefix cleaned (B "static ") in
    finish (GoStrings.TrimSpace cleaned)
  else finish cleaned.

(** *** The import traversal of [ExtractContext] *)

(** [ctxInfo.Imports] and [visitedImports]. *)
Definition ImportState : Type := list bytes * gmap bytes bool.

(** The body of the traversal loop for the current node. *)
Definition visitImport (content : bytes) (languageID : string)
           (importTypeSet : gset string) (n : Node) (st : ImportState) : result ImportState :=
  if bool_decide (Kind n ∈ importTypeSet) then
    importText ← nodeText n content;
    let cleanedImport := cleanImportText importText languageID in
    if negb (bool_decide (cleanedImport = [])) && negb (default false (st.2 !! cleanedImport))
    then Ok (st.1 ++ [cleanedImport], <[cleanedImport := true]> st.2)
    else Ok st
  else Ok st.

(** [for treeCursor.GoToParent() { if treeCursor.GoToNextSibling() { goto next } }]:
    the cursor at the next node, or [None] when the traversal is over. *)
Fixpoint climb (fuel : nat) (c : TreeCursor) : result (option TreeCursor) :=
  match GoToParent c with
  | None => Ok None
  | Some c' =>
      match GoToNextSibling c' with
      | Some c'' => Ok (Some c'')
      | None => match fuel with
                | O => OutOfFuel
                | S fuel' => climb fuel' c'
                end
      end
  end.

(** [for hasNext { ... }] *)
Fixpoint walkImports (fuel : nat) (content : bytes) (languageID : string)
         (importTypeSet : gset string) (c : TreeCursor) (st : ImportState) : result ImportState :=
  match fuel with
  | O => OutOfFuel
  | S fuel' =>
      st' ← visitImport content languageID importTypeSet (CurrentNode c) st;
      match GoToFirstChild c with
      | Some c' => walkImports fuel' content languageID importTypeSet c' st'
      | None =>
          match GoToNextSibling c with
          | Some c' => walkImports fuel' content languageID importTypeSet c' st'
          | None =>
              next ← climb (length (stack c)) c;
              match next with
              | Some c' => walkImports fuel' content languageID importTypeSet c' st'
              | None => Ok st'
              end
          end
      end
  end.

(** Section 6 of [ExtractContext]: the value of [ctxInfo.Imports]. *)
Definition extractImports (content : bytes) (rootNode : NodeRef) (languageID : string)
  : result (list bytes) :=
  match importNodeTypes !! languageID with
  | Some importTypes =>
      if bool_decide (0 < length importTypes)%nat then
        st ← walkImports (length (preorder (node rootNode))) content languageID
                         (list_to_set importTypes) (NewTreeCursor rootNode) ([], ∅);
        Ok st.1
      else Ok []
  | None => Ok []
  end.

(** *** Line boundaries *)

(** [for lineStartByte > 0 && content[lineStartByte-1] != '\n' { lineStartByte-- }] *)
Fixpoint lineStartLoop (content : bytes) (lineStartByte : nat) : result Z :=
  match lineStartByte with
  | O => Ok 0
  | S j =>
      b ← orPanic (index_checked content (Z.of_nat j));
      if Byte.eqb b LF then Ok (Z.of_nat lineStartByte) else lineStartLoop content j
  end.

(** [for lineEndByte < contentLen && content[lineEndByte] != '\n' { lineEndByte++ }] *)
Fixpoint lineEndLoop (fuel : nat) (content : bytes) (contentLen lineEndByte : Z) : result Z :=
  if lineEndByte <? contentLen then
    b ← orPanic (index_checked content lineEndByte);
    if Byte.eqb b LF then Ok lineEndByte
    else match fuel with
         | O => OutOfFuel
         | S fuel' => lineEndLoop fuel' content contentLen (lineEndByte + 1)
         end
  else Ok lineEndByte.

Definition prefixContextBytes : Z := 2048.
Definition suffixContextBytes : Z := 256.

(** [if hi > lo { field = string(content[lo:hi]) }], the field being empty before. *)
Definition window (content : bytes) (lo hi : Z) : result bytes :=
  if lo <? hi then orPanic (slice_checked content lo hi) else Ok [].

Definition clampTo (lo hi x : Z) : Z :=
  let x := if x <? lo then lo else x in
  if hi <? x then hi else x.

Section ExtractContext.

(** [NamedDescendantForPointRange] of [sitter.Node], a function of the
    parsing library: the smallest named node spanning the range, if any. *)
Variable NamedDescendantForPointRange : NodeRef -> Point -> Point -> option NodeRef.

Definition nodeInfo (content : bytes) (r : NodeRef) : result NodeInfo :=
  text ← nodeText (node r) content;
  Ok (mkNodeInfo (Type_ r) text (StartByte r) (EndByte r)).

Definition optNodeInfo (content : bytes) (r : option NodeRef) : result (option NodeInfo) :=
  match r with
  | None => Ok None
  | Some r => ni ← nodeInfo content r; Ok (Some ni)
  end.

Definition ExtractContext (content : bytes) (rootNode passedCursorNode : option NodeRef)
           (cursorByteOffset : Z) (languageID filename : string) : result ContextInfo :=
  match rootNode with
  | None => Err
  | Some rootNode =>
      let contentLen := len content in
      let cursorByteOffset :=
        if cursorByteOffset <? 0 then 0
        else if contentLen <? cursorByteOffset then contentLen
        else cursorByteOffset in
      (* 1. node at the cursor *)
      let point := calculatePointFromOffset content cursorByteOffset in
      let cursorNode :=
        match passedCursorNode with
        | Some n => Some n
        | None => NamedDescendantForPointRange rootNode point point
        end in
      cursorInfo ← optNodeInfo content cursorNode;
      (* 2. current line boundaries *)
      lineStartByte ← lineStartLoop content (Z.to_nat cursorByteOffset);
      lineEndByte ← lineEndLoop (length content) content contentLen cursorByteOffset;
      (* 3. current line prefix and suffix *)
      let currentLinePrefixEndByte := clampTo lineStartByte lineEndByte cursorByteOffset in
      currentLinePrefix ← window content lineStartByte currentLinePrefixEndByte;
      let currentLineSuffixStartByte := clampTo lineStartByte lineEndByte cursorByteOffset in
      currentLineSuffix ← window content currentLineSuffixStartByte lineEndByte;
      (* 4. broader prefix *)
      let prefixStartByte := lineStartByte - prefixContextBytes in
      let prefixStartByte := if prefixStartByte <? 0 then 0 else prefixStartByte in
      let prefixEndByte := lineStartByte in
      prefix ← window content prefixStartByte prefixEndByte;
      (* 5. broader suffix *)
      let suffixStartByte := lineEndByte in
      skip ← (if suffixStartByte <? contentLen then
                b ← orPanic (index_checked content suffixStartByte);
                Ok (Byte.eqb b LF)
              else Ok false);
      let suffixStartByte := if skip : bool then suffixStartByte + 1 else suffixStartByte in
      let suffixEndByte := suffixStartByte + suffixContextBytes in
      let suffixEndByte := if contentLen <? suffixEndByte then contentLen else suffixEndByte in
      suffix ← window content suffixStartByte suffixEndByte;
      (* 6. imports *)
      imports ← extractImports content rootNode languageID;
      (* 7. enclosing function or class *)
      let searchStartNodeForEnclosing :=
        match cursorNode with
        | Some n => Some n
        | None => NamedDescendantForPointRange rootNode point point
        end in
      let enclosingTypes :=
        tableGet functionNodeTypes languageID ++ tableGet classNodeTypes languageID in
      let enclosingBlockNode := findAncestorOfType searchStartNodeForEnclosing enclosingTypes in
      enclosingInfo ← optNodeInfo content enclosingBlockNode;
      Ok {| LanguageID := languageID;
            Filename := filename;
            Prefix := prefix;
            Suffix := suffix;
            CurrentLinePrefix := currentLinePrefix;
            CurrentLineSuffix := currentLineSuffix;
            CursorNode := cursorInfo;
            EnclosingNode := enclosingInfo;
            Imports := imports |}
  end.

End ExtractContext.

(** *** The import list as the specification words it *)

(** The elements of [l] not in [seen], each kept at its first occurrence. *)
Fixpoint firstOccurrences (seen l : list bytes) : list bytes :=
  match l with
  | [] => []
  | x :: r =>
      if bool_decide (x ∈ seen) then firstOccurrences seen r
      else x :: firstOccurrences (x :: seen) r
  end.

(** The cleaned texts of the import-kind nodes met in one pre-order
    traversal, those that clean to nothing left out. *)
Definition cleanedImports (content : bytes) (root : Node) (languageID : string)
           (importTypes : list string) : list bytes :=
  filter (fun s => s <> [])
         (map (fun n =>
                 match nodeText n content with
                 | Ok t => cleanImportText t languageID
                 | _ => []
                 end)
              (filter (fun n => Kind n ∈ importTypes) (preorder root))).

Definition specImports (content : bytes) (root : Node) (languageID : string) : list bytes :=
  firstOccurrences [] (cleanedImports content root languageID (tableGet importNodeTypes languageID)).

(** *** Notions used to state and prove the properties of this package *)

(** The cursor offset after the clamp at the head of [ExtractContext]. *)
Definition clampOffset (content : bytes) (cursorByteOffset : Z) : Z :=
  if cursorByteOffset <? 0 then 0
  else if len content <? cursorByteOffset then len content
  else cursorByteOffset.

Definition stackTodo (st : list Frame) : list Node :=
  flat_map (fun f => flat_map preorder (fRights f)) st.

(** The nodes the traversal has still to visit, the current one first. *)
Definition todo (c : TreeCursor) : list Node :=
  preorder (cur c) ++ stackTodo (stack c).

(** Visiting a list of nodes in order. *)
Fixpoint visitList (content : bytes) (languageID : string) (importTypeSet : gset string)
         (l : list Node) (st : ImportState) : result ImportState :=
  match l with
  | [] => Ok st
  | n :: r =>
      st' ← visitImport content languageID importTypeSet n st;
      visitList content languageID importTypeSet r st'
  end.

(** The cleaned text of a node, as [visitImport] computes it. *)
Definition cleanedOne (content : bytes) (languageID : string) (n : Node) : bytes :=
  match nodeText n content with
  | Ok t => cleanImportText t languageID
  | _ => []
  end.

Definition cleanedOf (content : bytes) (languageID : string) (types : list string)
           (l : list Node) : list bytes :=
  filter (fun s => s <> []) (map (cleanedOne content languageID)
                                 (filter (fun n => Kind n ∈ types) l)).

(** [visitedImports] marks exactly the strings already in the list. *)
Definition marks (st : ImportState) : Prop :=
  forall x, default false (st.2 !! x) = true <-> x ∈ st.1.

End Analyzer.

(** A small Go file: [package main], an import, and [func main]. *)
Definition goSample : bytes :=
  B "func main() {" ++ [LF; Byte.x09] ++ B "fmt.Pri" ++ [LF] ++ B "}".

Definition goSampleTree : Sitter.Tree :=
  Sitter.MkNode "source_file" 0 24
    [ Sitter.MkNode "function_declaration" 0 24
        [ Sitter.MkNode "identifier" 5 9 [];
          Sitter.MkNode "block" 12 24
            [ Sitter.MkNode "selector_expression" 15 22 [] ] ] ].

(** A stand-in for the library's node lookup: no named node found. *)
Definition noDescendant (_ : Sitter.NodeRef) (_ _ : Sitter.Point) : option Sitter.NodeRef := None.

(** The end-to-end example of the specification: the cursor after
    [fmt.Pri], with the selector expression as the node at the cursor. *)
Example ExtractContext_ex :
  let cursor := Sitter.mkRef (Sitter.MkNode "selector_expression" 15 22 [])
                  [ Sitter.MkNode "block" 12 24 [ Sitter.MkNode "selector_expression" 15 22 [] ];
                    goSampleTree ] in
  exists ctx,
    Analyzer.ExtractContext noDescendant goSample (Some (Sitter.RootNode goSampleTree))
                            (Some cursor) 22 "go" "main.go" = Analyzer.Ok ctx
    /\ Analyzer.CurrentLinePrefix ctx = [Byte.x09] ++ B "fmt.Pri"
    /\ Analyzer.CurrentLineSuffix ctx = []
    /\ Analyzer.Prefix ctx = B "func main() {" ++ [LF]
    /\ Analyzer.Suffix ctx = B "}".
Proof. eexists. repeat split; vm_compute; reflexivity. Qed.

(** ** Package ai: internal/ai/client.go and the clients' use of it *)

Module AI.

Section Clean.

(** [strings.ToLower]; its Unicode tables are not reproduced, the results
    below hold for every function in its place. *)
Variable ToLower : bytes -> bytes.

Definition fence : bytes := [Byte.x60; Byte.x60; Byte.x60].

(** [cleanSuggestions] of client.go *)
Definition cleanSuggestions (rawResponse : bytes) (languageID : string) : bytes :=
  let langIDLower := ToLower (B languageID) in
  let cleaned := GoStrings.TrimPrefix rawResponse (fence ++ langIDLower) in
  let cleaned := GoStrings.TrimPrefix cleaned fence in
  let cleaned := GoStrings.TrimPrefix cleaned [LF] in
  let cleaned := GoStrings.TrimSuffix cleaned fence in
  let cleaned := GoStrings.TrimSuffix cleaned (B "<END>") in
  let cleaned := GoStrings.TrimSpace cleaned in
  let firstNewline := GoStrings.Index cleaned [LF] in
  if negb (firstNewline =? -1) then slice cleaned 0 firstNewline else cleaned.

(** [cleanEndTokenAndFences], the cleaning function of the Azure client; its
    truncation at the first newline is commented out in the source. *)
Definition cleanEndTokenAndFences (rawResponse : bytes) (languageID : string) : bytes :=
  let cleaned := rawResponse in
  let cleaned := GoStrings.TrimSuffix cleaned (B "<END>") in
  let langIDLower := ToLower (B languageID) in
  let cleaned := GoStrings.TrimPrefix cleaned (fence ++ langIDLower) in
  let cleaned := GoStrings.TrimPrefix cleaned fence in
  let cleaned := GoStrings.TrimSuffix cleaned fence in
  GoStrings.TrimSpace cleaned.

(** The completion backends of the repository. *)
Inductive Provider := OpenAI | Azure | Anthropic | Gemini | Ollama.

(** The last step of each client's [GetSuggestion]: the suggestion returned
    for the raw text of the model's reply. *)
Definition suggestionOf (p : Provider) (rawSuggestion : bytes) (languageID : string) : bytes :=
  match p with
  | Azure => cleanEndTokenAndFences rawSuggestion languageID
  | OpenAI | Anthropic | Gemini | Ollama => cleanSuggestions rawSuggestion languageID
  end.

End Clean.

End AI.

Example cleanSuggestions_ex :
  AI.cleanSuggestions GoStrings.asciiToLower
    (AI.fence ++ B "go" ++ [LF] ++ B "fmt.Println(x)" ++ [LF] ++ B "return" ++ [LF] ++ AI.fence) "Go"
  = B "fmt.Println(x)".
Proof. reflexivity. Qed.

(** ** Package server: internal/server/server.go, handlers.go *)

Module Server.
Import Sitter.

Definition DocumentURI := string.

(** A [*time.Timer] is identified by the order in which [time.AfterFunc]
    created it: two timers are the same pointer exactly when the
    identifiers are equal. *)
Definition TimerId := nat.

(** *** Package lsp: what is sent *)

Record ResponseError := mkError { Code : Z; Message : string }.

Definition MethodNotFound : Z := -32601.
Definition InvalidParams : Z := -32602.
Definition InternalError : Z := -32603.

Inductive InsertTextFormat := InsertTextFormatPlainText | InsertTextFormatSnippet.

Record CompletionItem := mkCompletionItem {
  Label : bytes;
  InsertText : bytes;
  ItemInsertTextFormat : InsertTextFormat;
  Detail : string
}.

Record InlineCompletionItem := mkInlineItem { InlineInsertText : bytes }.

Inductive Result :=
| RNull                                             (* a nil result *)
| RInitializeResult                                 (* capabilities and server info *)
| RInlineCompletionList (items : list InlineCompletionItem)
| RCompletionList (isIncomplete : bool) (items : list CompletionItem).

(** What [sendResponse] and [sendNotification] write to the client. *)
Inductive Frame :=
| Response (id : Z) (result : Result) (error : option ResponseError)
| Notification (method : string).

(** *** Package lsp: what is received *)

Record DidOpenTextDocumentParams := mkDidOpen {
  openURI : DocumentURI; openText : bytes; openLanguageID : string; openVersion : Z
}.

Record DidCloseTextDocumentParams := mkDidClose { closeURI : DocumentURI }.

(** [ContentChanges] holds the [Text] of each change event. *)
Record DidChangeTextDocumentParams := mkDidChange {
  changeURI : DocumentURI; changeVersion : Z; ContentChanges : list bytes
}.

(** [CompletionParams] and [InlineCompletionParams]: document and position. *)
Record TextDocumentPositionParams := mkPosParams {
  posURI : DocumentURI; posPosition : Position.Position
}.

(** *** The completion backend *)

Inductive AIResult :=
| AISuggestion (text : bytes)
| AICanceled            (* context.Canceled *)
| AIDeadlineExceeded    (* context.DeadlineExceeded *)
| AIError.              (* any other error *)

(** [ai.AIClient] *)
Record AIClient := mkAIClient {
  Identify : string;
  GetSuggestion : Analyzer.ContextInfo -> AIResult
}.

(** *** The server's state *)

Record DocumentState := mkDocumentState {
  Text : bytes;
  Version : Z;
  LanguageID : string;
  Tree : option Tree
}.

(** The life of a timer created by [time.AfterFunc]: waiting for its
    delay; stopped before the delay elapsed; expired, its callback started
    in a goroutine of its own but not yet run; callback finished.  [Stop]
    prevents the callback only while the timer is pending. *)
Inductive TimerState := Pending | Stopped | Expired | Done.

(** What a timer created by [handleDidChange] holds: the variables its
    callback captured, and its state. *)
Record Timer := mkTimer {
  tURI : DocumentURI;
  tOldTree : option Sitter.Tree;
  tState : TimerState
}.

(** Calls observed for the statement of properties; not part of the
    program's state. *)
Inductive Event :=
| EvParse (uri : DocumentURI) (langID : string) (content : bytes) (oldTree : option Sitter.Tree)
| EvExtractContext (uri : DocumentURI) (content : bytes) (tree : Sitter.Tree) (byteOffset : Z).

(** The collaborators the server is built on. *)
Record Env := mkEnv {
  (* go-tree-sitter: a grammar, and [Parser.ParseCtx], [None] on error *)
  Language : Type;
  ParseCtx : Language -> option Sitter.Tree -> bytes -> option Sitter.Tree;
  NamedDescendantForPointRange : NodeRef -> Point -> Point -> option NodeRef;
  (* encoding/json: the raw parameters and [json.Unmarshal] into each type *)
  Raw : Type;
  unmarshalInitialize : Raw -> bool;
  (* the text ([%v]) of the error [json.Unmarshal] returns for parameters it
     rejects, as initialize and as inline-completion parameters *)
  initializeError : Raw -> string;
  inlineCompletionError : Raw -> string;
  unmarshalDidOpen : Raw -> option DidOpenTextDocumentParams;
  unmarshalDidClose : Raw -> option DidCloseTextDocumentParams;
  unmarshalDidChange : Raw -> option DidChangeTextDocumentParams;
  unmarshalCompletion : Raw -> option TextDocumentPositionParams;
  unmarshalInlineCompletion : Raw -> option TextDocumentPositionParams
}.

Section WithEnv.
Context (E : Env).

(** [lsp.RequestMessage]: [ID] is nil for a notification. *)
Record RequestMessage := mkRequest {
  ID : option Z;
  Method : string;
  Params : Raw E
}.

(** [parser.Manager] *)
Record Manager := mkManager { langMap : gmap string (option (Language E)) }.

(** [Manager.Parse]: the tree and whether an error is returned. *)
Definition Parse (m : Manager) (langID : string) (oldTree : option Sitter.Tree) (content : bytes)
  : option Sitter.Tree * bool :=
  match langMap m !! langID with
  | None => (None, false)
  | Some None => (None, true)
  | Some (Some lang) =>
      match ParseCtx E lang oldTree content with
      | None => (None, true)
      | Some newTree => (Some newTree, false)
      end
  end.

Record Server := mkServer {
  initialized : bool;
  shutdown : bool;
  documents : gmap DocumentURI DocumentState;
  parser : option Manager;
  aiClient : option AIClient;
  debounceTimers : gmap DocumentURI TimerId;
  (* the timers created so far and the identifier of the next one *)
  timers : gmap TimerId Timer;
  nextTimer : TimerId;
  (* what was written to the client, oldest first *)
  output : list Frame;
  trace : list Event
}.

Definition setInitialized (s : Server) (b : bool) : Server :=
  mkServer b (shutdown s) (documents s) (parser s) (aiClient s) (debounceTimers s)
           (timers s) (nextTimer s) (output s) (trace s).
Definition setShutdown (s : Server) (b : bool) : Server :=
  mkServer (initialized s) b (documents s) (parser s) (aiClient s) (debounceTimers s)
           (timers s) (nextTimer s) (output s) (trace s).
Definition setDocuments (s : Server) (d : gmap DocumentURI DocumentState) : Server :=
  mkServer (initialized s) (shutdown s) d (parser s) (aiClient s) (debounceTimers s)
           (timers s) (nextTimer s) (output s) (trace s).
Definition setDebounceTimers (s : Server) (d : gmap DocumentURI TimerId) : Server :=
  mkServer (initialized s) (shutdown s) (documents s) (parser s) (aiClient s) d
           (timers s) (nextTimer s) (output s) (trace s).
Definition setTimers (s : Server) (t : gmap TimerId Timer) (next : TimerId) : Server :=
  mkServer (initialized s) (shutdown s) (documents s) (parser s) (aiClient s)
           (debounceTimers s) t next (output s) (trace s).
Definition write (s : Server) (f : Frame) : Server :=
  mkServer (initialized s) (shutdown s) (documents s) (parser s) (aiClient s)
           (debounceTimers s) (timers s) (nextTimer s) (output s ++ [f]) (trace s).
Definition observe (s : Server) (e : Event) : Server :=
  mkServer (initialized s) (shutdown s) (documents s) (parser s) (aiClient s)
           (debounceTimers s) (timers s) (nextTimer s) (output s) (trace s ++ [e]).

(** [NewServer], the parser manager and the backend being what the
    configuration gave. *)
Definition NewServer (parserManager : option Manager) (activeAIClient : option AIClient) : Server :=
  mkServer false false ∅ parserManager activeAIClient ∅ ∅ 0%nat [] [].

(** [sendResponse]: one response frame for [id]; the writer does not fail. *)
Definition sendResponse (s : Server) (id : Z) (result : Result) (respErr : option ResponseError)
  : Server :=
  write s (Response id (match respErr with Some _ => RNull | None => result end) respErr).

Definition sendNotification (s : Server) (method : string) : Server :=
  write s (Notification method).

(** [logToClient]: a [window/logMessage] notification once initialized. *)
Definition logToClient (s : Server) : Server :=
  if initialized s then sendNotification s "window/logMessage" else s.

Definition isInitialized (s : Server) : bool := initialized s.

(** A handler returns the new state and whether it returned an error. *)
Definition Handled : Type := Server * bool.
Definition ok (s : Server) : Handled := (s, false).
Definition failed (s : Server) : Handled := (s, true).

(** *** Lifecycle handlers *)

Definition handleInitialize (s : Server) (req : RequestMessage) : Handled :=
  match ID req with
  | None => failed s
  | Some id =>
      if initialized s
      then ok (sendResponse s id RNull (Some (mkError (-32002) "Server already initialized")))
      else if unmarshalInitialize E (Params req)
      then ok (sendResponse s id RInitializeResult None)
      else ok (sendResponse s id RNull
                 (Some (mkError InvalidParams
                               ("Failed to unmarshal initialize params: "
                                ++ initializeError E (Params req)))))
  end.

Definition handleInitialized (s : Server) (req : RequestMessage) : Handled :=
  let s := setInitialized s true in
  ok (logToClient s).

Definition handleShutdown (s : Server) (req : RequestMessage) : Handled :=
  if shutdown s then
    match ID req with
    | Some id => ok (sendResponse s id RNull None)
    | None => ok s
    end
  else
    let s := setShutdown s true in
    match ID req with
    | Some id => ok (sendResponse s id RNull None)
    | None => ok s
    end.

Definition handleExit (s : Server) (req : RequestMessage) : Handled := ok s.

(** *** [parseDocument] *)

Definition setTree (st : DocumentState) (t : option Sitter.Tree) : DocumentState :=
  mkDocumentState (Text st) (Version st) (LanguageID st) t.

Definition parseDocument (s : Server) (uri : DocumentURI) (langID : string)
           (content : bytes) (oldTree : option Sitter.Tree) : Server :=
  match parser s with
  | None => s
  | Some m =>
      let s := observe s (EvParse uri langID content oldTree) in
      let '(newTree, parseErr) := Parse m langID oldTree content in
      let s := if parseErr : bool then logToClient s else s in
      let newTree := if parseErr then None else newTree in
      match documents s !! uri with
      | Some currentState => setDocuments s (<[uri := setTree currentState newTree]> (documents s))
      | None => s
      end
  end.

(** *** Document synchronisation handlers *)

Definition handleDidOpen (s : Server) (req : RequestMessage) : Handled :=
  if negb (isInitialized s) then failed s
  else
    match unmarshalDidOpen E (Params req) with
    | None => ok s
    | Some params =>
        let docURI := openURI params in
        let s := setDocuments s
                   (<[docURI := mkDocumentState (openText params) (openVersion params)
                                                (openLanguageID params) None]> (documents s)) in
        ok (parseDocument s docURI (openLanguageID params) (openText params) None)
    end.

Definition handleDidSave (s : Server) (req : RequestMessage) : Handled :=
  if negb (isInitialized s) then failed s else ok s.

Definition setState (t : Timer) (st : TimerState) : Timer :=
  mkTimer (tURI t) (tOldTree t) st.

(** [timer.Stop()]: a pending timer will not fire; an expired one is not
    affected, its callback is already on its way. *)
Definition stopTimer (s : Server) (id : TimerId) : Server :=
  match timers s !! id with
  | Some t =>
      match tState t with
      | Pending => setTimers s (<[id := setState t Stopped]> (timers s)) (nextTimer s)
      | _ => s
      end
  | None => s
  end.

Definition handleDidClose (s : Server) (req : RequestMessage) : Handled :=
  if negb (isInitialized s) then failed s
  else
    match unmarshalDidClose E (Params req) with
    | None => ok s
    | Some params =>
        let docURI := closeURI params in
        let s := match debounceTimers s !! docURI with
                 | Some timer =>
                     let s := stopTimer s timer in
                     setDebounceTimers s (delete docURI (debounceTimers s))
                 | None => s
                 end in
        ok (setDocuments s (delete docURI (documents s)))
    end.

(** [time.AfterFunc(s.debounceDuration, callback)]: a new pending timer
    whose callback has captured [docURI] and [oldTree]. *)
Definition afterFunc (s : Server) (docURI : DocumentURI) (oldTree : option Sitter.Tree)
  : Server * TimerId :=
  let id := nextTimer s in
  (setTimers s (<[id := mkTimer docURI oldTree Pending]> (timers s)) (S id), id).

Definition handleDidChange (s : Server) (req : RequestMessage) : Handled :=
  if negb (isInitialized s) then failed s
  else
    match unmarshalDidChange E (Params req) with
    | None => ok s
    | Some params =>
        let docURI := changeURI params in
        let docVersion := changeVersion params in
        match documents s !! docURI with
        | None => ok s
        | Some currentState =>
            match last (ContentChanges params) with
            | None => ok s
            | Some newText =>
                let oldTree := Tree currentState in
                let s := setDocuments s
                           (<[docURI := mkDocumentState newText docVersion
                                          (LanguageID currentState) (Tree currentState)]>
                              (documents s)) in
                let s := match debounceTimers s !! docURI with
                         | Some oldTimer => stopTimer s oldTimer
                         | None => s
                         end in
                let '(s, newScheduledTimer) := afterFunc s docURI oldTree in
                ok (setDebounceTimers s (<[docURI := newScheduledTimer]> (debounceTimers s)))
            end
        end
    end.

(** The callback of the timer [newScheduledTimer], with the [docURI] and
    [oldTree] it captured. *)
Definition debounceCallback (s : Server) (newScheduledTimer : TimerId)
           (docURI : DocumentURI) (oldTree : option Sitter.Tree) : Server :=
  let cleanup (s : Server) : Server :=
    if bool_decide (debounceTimers s !! docURI = Some newScheduledTimer)
    then setDebounceTimers s (delete docURI (debounceTimers s))
    else s in
  match documents s !! docURI with
  | None => cleanup s
  | Some finalState =>
      let s := parseDocument s docURI (LanguageID finalState) (Text finalState) oldTree in
      cleanup s
  end.

(** The delay of a pending timer elapses: the runtime starts its callback. *)
Definition expire (s : Server) (id : TimerId) : option Server :=
  match timers s !! id with
  | Some t =>
      match tState t with
      | Pending => Some (setTimers s (<[id := setState t Expired]> (timers s)) (nextTimer s))
      | _ => None
      end
  | None => None
  end.

(** The callback of an expired timer runs. *)
Definition runCallback (s : Server) (id : TimerId) : option Server :=
  match timers s !! id with
  | Some t =>
      match tState t with
      | Expired =>
          let s := setTimers s (<[id := setState t Done]> (timers s)) (nextTimer s) in
          Some (debounceCallback s id (tURI t) (tOldTree t))
      | _ => None
      end
  | None => None
  end.

(** *** Completion handlers *)

(** [len(docTextBytes) != int(docTree.RootNode().EndByte())], or no tree. *)
Definition stale (docTextBytes : bytes) (docTree : option Sitter.Tree) : bool :=
  match docTree with
  | None => true
  | Some t => negb (len docTextBytes =? EndByte (RootNode t))
  end.

Definition ContainsAny (s chars : bytes) : bool :=
  existsb (fun c => bool_decide (c ∈ chars)) s.

Definition Contains (s substr : bytes) : bool := 0 <=? GoStrings.Index s substr.

(** The popup item built from a non-empty suggestion. *)
Definition completionItem (aiSuggestionText : bytes) : CompletionItem :=
  let insertTextFormat :=
    if negb (ContainsAny aiSuggestionText (B "${}")) && negb (Contains aiSuggestionText (B "$0"))
    then InsertTextFormatPlainText else InsertTextFormatSnippet in
  mkCompletionItem aiSuggestionText aiSuggestionText insertTextFormat "(Grasshopper AI)".

(** The two response envelopes of the one completion pipeline. *)
Inductive Envelope := Popup | Inline.

Definition emptyList (v : Envelope) : Result :=
  match v with
  | Popup => RCompletionList false []
  | Inline => RInlineCompletionList []
  end.

Definition suggestionList (v : Envelope) (aiSuggestionText : bytes) : Result :=
  match v with
  | Popup => RCompletionList false [completionItem aiSuggestionText]
  | Inline => RInlineCompletionList [mkInlineItem aiSuggestionText]
  end.

(** The handlers from "1. Convert Position" to the end. *)
Definition serveCompletion (v : Envelope) (s : Server) (id : Z) (aiClient : AIClient)
           (docURI : DocumentURI) (pos : Position.Position)
           (docTextBytes : bytes) (docTree : Sitter.Tree) (docLangID : string) : Handled :=
  match Position.PositionToOffset docTextBytes pos with
  | Position.Ok byteOffset =>
      let rootNode := RootNode docTree in
      let point := Analyzer.calculatePointFromOffset docTextBytes byteOffset in
      let cursorNode := NamedDescendantForPointRange E rootNode point point in
      let s := observe s (EvExtractContext docURI docTextBytes docTree byteOffset) in
      match Analyzer.ExtractContext (NamedDescendantForPointRange E) docTextBytes
                                    (Some rootNode) cursorNode byteOffset docLangID docURI with
      | Analyzer.Ok extractedContext =>
          match GetSuggestion aiClient extractedContext with
          | AISuggestion aiSuggestionText =>
              if bool_decide (aiSuggestionText = [])
              then ok (sendResponse s id (emptyList v) None)
              else ok (sendResponse s id (suggestionList v aiSuggestionText) None)
          | AICanceled | AIDeadlineExceeded | AIError =>
              ok (sendResponse s id (emptyList v) None)
          end
      | _ => ok (sendResponse s id (emptyList v) None)
      end
  | _ => ok (sendResponse s id (emptyList v) None)
  end.

(** The staleness check and the synchronous reparse, with the re-fetch of
    the state; [inr] carries the text and tree to go on with.  After the
    reparse only nil is tested.  A handler is one step of the model: the Go
    code holds no lock between the parse and the re-fetch, where a debounce
    callback running in its own goroutine could store a tree; the model has
    no step at that point. *)
Definition freshTree (v : Envelope) (s : Server) (id : Z) (docURI : DocumentURI)
           (docTextBytes : bytes) (docTree : option Sitter.Tree) (docLangID : string)
  : Handled + (Server * bytes * Sitter.Tree) :=
  if stale docTextBytes docTree then
    let s := parseDocument s docURI docLangID docTextBytes None in
    match documents s !! docURI with
    | None => inl (ok (sendResponse s id (emptyList v) None))
    | Some docState =>
        match Tree docState with
        | None => inl (ok (sendResponse s id (emptyList v) None))
        | Some docTree => inr (s, Text docState, docTree)
        end
    end
  else
    match docTree with
    | Some docTree => inr (s, docTextBytes, docTree)
    | None => inl (ok (sendResponse s id (emptyList v) None))
    end.

Definition handleInlineCompletion (s : Server) (req : RequestMessage) : Handled :=
  if negb (isInitialized s) then failed s
  else
    match ID req with
    | None => failed s
    | Some id =>
        match unmarshalInlineCompletion E (Params req) with
        | None => ok (sendResponse s id RNull
                        (Some (mkError InvalidParams
                                 ("Unmarshal params error: "
                                  ++ inlineCompletionError E (Params req)))))
        | Some params =>
            let docURI := posURI params in
            match documents s !! docURI with
            | None => ok (sendResponse s id (emptyList Inline) None)
            | Some docState =>
                match aiClient s with
                | None => ok (sendResponse s id (emptyList Inline) None)
                | Some aiClient =>
                    match freshTree Inline s id docURI (Text docState) (Tree docState)
                                    (LanguageID docState) with
                    | inl done => done
                    | inr (s, docTextBytes, docTree) =>
                        serveCompletion Inline s id aiClient docURI (posPosition params)
                                        docTextBytes docTree (LanguageID docState)
                    end
                end
            end
        end
    end.

Definition handleCompletion (s : Server) (req : RequestMessage) : Handled :=
  if negb (isInitialized s) then failed s
  else
    match ID req with
    | None => failed s
    | Some id =>
        match unmarshalCompletion E (Params req) with
        | None => ok (sendResponse s id (RCompletionList false []) None)
        | Some params =>
            let docURI := posURI params in
            match documents s !! docURI with
            | None => ok (sendResponse s id (emptyList Popup) None)
            | Some docState =>
                match freshTree Popup s id docURI (Text docState) (Tree docState)
                                (LanguageID docState) with
                | inl done => done
                | inr (s', docTextBytes, docTree) =>
                    match aiClient s with
                    | None => ok (sendResponse s' id (emptyList Popup) None)
                    | Some aiClient =>
                        serveCompletion Popup s' id aiClient docURI (posPosition params)
                                        docTextBytes docTree (LanguageID docState)
                    end
                end
            end
        end
    end.

(** *** The dispatcher and the read loop *)

(** [handleMessage] on the decoded envelope ([None]: the JSON could not be
    decoded).  Returns the state and [shutdownRequested]. *)
Definition handleMessage (s : Server) (decoded : option RequestMessage) : Server * bool :=
  match decoded with
  | None => (s, false)
  | Some req =>
      let m := Method req in
      if String.eqb m "initialize" then ((handleInitialize s req).1, false)
      else if String.eqb m "initialized" then ((handleInitialized s req).1, false)
      else if String.eqb m "shutdown" then ((handleShutdown s req).1, false)
      else if String.eqb m "exit" then ((handleExit s req).1, true)
      else if String.eqb m "textDocument/didOpen" then ((handleDidOpen s req).1, false)
      else if String.eqb m "textDocument/didChange" then ((handleDidChange s req).1, false)
      else if String.eqb m "textDocument/didSave" then ((handleDidSave s req).1, false)
      else if String.eqb m "textDocument/didClose" then ((handleDidClose s req).1, false)
      else if String.eqb m "textDocument/inlineCompletion"
      then ((handleInlineCompletion s req).1, false)
      else if String.eqb m "textDocument/completion" then ((handleCompletion s req).1, false)
      else if String.eqb m "$/cancelRequest" then (s, false)
      else if String.eqb m "$/setTrace" then (s, false)
      else
        match ID req with
        | Some id =>
            (sendResponse s id RNull
               (Some (mkError MethodNotFound ("Method not supported: " ++ m))),
             false)
        | None => (s, false)
        end
  end.

(** [Close]: every timer of the registry is stopped and removed. *)
Definition Close (s : Server) : Server :=
  let s := map_fold (fun _ id s => stopTimer s id) s (debounceTimers s) in
  setDebounceTimers s ∅.

(** What one iteration of the read loop finds on the input. *)
Inductive Incoming :=
| Unreadable                                  (* a bad header or body: [continue] *)
| Oversized                                   (* a Content-Length that [strconv.Atoi]
                                                 accepts and [make] refuses *)
| Body (decoded : option RequestMessage).     (* [contentLength] bytes of JSON *)

(** How [Run] ends, with the frames it never read: [return nil], or the
    panic of [make([]byte, contentLength)]. *)
Inductive Ending :=
| Returned (unread : list Incoming)
| Panicked (unread : list Incoming).

(** [Run] on the frames still to come, the end of the list being the end of
    the input (EOF on a header or on a body).  Returns the final state and
    how the loop ended; the deferred [Close] runs in either case. *)
Fixpoint Run (s : Server) (input : list Incoming) : Server * Ending :=
  match input with
  | [] => (Close s, Returned [])
  | Unreadable :: rest => Run s rest
  | Oversized :: rest => (Close s, Panicked rest)
  | Body decoded :: rest =>
      let '(s, shutdownRequested) := handleMessage s decoded in
      if shutdownRequested then (Close s, Returned rest) else Run s rest
  end.

(** The events of the system: the read loop handles a frame, the delay of
    a timer elapses, the callback of an expired timer runs. *)
Inductive Step :=
| Receive (decoded : option RequestMessage)
| Expire (id : TimerId)
| Callback (id : TimerId).

Definition step (s : Server) (e : Step) : option Server :=
  match e with
  | Receive decoded => Some (handleMessage s decoded).1
  | Expire id => expire s id
  | Callback id => runCallback s id
  end.

Fixpoint steps (s : Server) (es : list Step) : option Server :=
  match es with
  | [] => Some s
  | e :: es' => match step s e with Some s' => steps s' es' | None => None end
  end.

(** *** Notions used to state and prove the properties of the server *)

(** The part of the state that only the lifecycle and the timers change. *)
Definition core (s : Server) :=
  (initialized s, shutdown s, parser s, aiClient s,
   debounceTimers s, timers s, nextTimer s).

(** The tree [parseDocument] stores. *)
Definition parsedTree (m : Manager) (langID : string) (oldTree : option Sitter.Tree)
           (content : bytes) : option Sitter.Tree :=
  (Parse m langID oldTree content).1.

Definition isNotification (f : Frame) : Prop :=
  match f with Notification _ => True | Response _ _ _ => False end.

(** No server without a parser ever holds a tree. *)
Definition noParserNoTree (s : Server) : Prop :=
  parser s = None ->
  forall uri d, documents s !! uri = Some d -> Tree d = None.

(** The two completion handlers. *)
Definition completionHandler (v : Envelope) : Server -> RequestMessage -> Handled :=
  match v with
  | Popup => handleCompletion
  | Inline => handleInlineCompletion
  end.

(** [json.Unmarshal] of the parameters, for each of the two. *)
Definition unmarshalPosition (v : Envelope) : Raw E -> option TextDocumentPositionParams :=
  match v with
  | Popup => unmarshalCompletion E
  | Inline => unmarshalInlineCompletion E
  end.

Definition treesNone (docs : gmap DocumentURI DocumentState) : Prop :=
  forall uri d, docs !! uri = Some d -> Tree d = None.

(** The state after the callback's parse, before its clean-up. *)
Definition afterParse (s : Server) (docURI : DocumentURI) (oldTree : option Sitter.Tree)
  : Server :=
  match documents s !! docURI with
  | Some finalState =>
      parseDocument s docURI (LanguageID finalState) (Text finalState) oldTree
  | None => s
  end.

(** The responses for [id] among the frames written. *)
Definition isResponseFor (id : Z) (f : Frame) : bool :=
  match f with
  | Response i _ _ => i =? id
  | Notification _ => false
  end.

Definition responsesFor (id : Z) (frames : list Frame) : list Frame :=
  List.filter (isResponseFor id) frames.

Definition isExit (decoded : option (RequestMessage)) : bool :=
  match decoded with
  | Some req => String.eqb (Method req) "exit"
  | None => false
  end.

(** A frame that carries an [exit] message. *)
Definition exitFrame (f : Incoming) : bool :=
  match f with
  | Body decoded => isExit decoded
  | Unreadable | Oversized => false
  end.

(** Handling the frames of a list one after the other. *)
Definition dispatchAll (s : Server) (ds : list (option (RequestMessage))) : Server :=
  fold_left (fun s d => (handleMessage s d).1) ds s.

(** Every timer is older than the next one to be created, and a pending
    timer is the one the registry holds for its URI. *)
Definition timersOk (s : Server) : Prop :=
  (forall id t, timers s !! id = Some t -> (id < nextTimer s)%nat)
  /\ (forall id t, timers s !! id = Some t -> tState t = Pending ->
                   debounceTimers s !! tURI t = Some id).

(** [Stop] on the timer [id] of a timer table. *)
Definition stopIn (tm : gmap TimerId Timer) (id : TimerId) : gmap TimerId Timer :=
  match tm !! id with
  | Some t => match tState t with
              | Pending => <[id := setState t Stopped]> tm
              | _ => tm
              end
  | None => tm
  end.

(** The timers after the registered timer of [uri], if any, was stopped. *)
Definition stopRegistered (s : Server) (uri : DocumentURI) : gmap TimerId Timer :=
  match debounceTimers s !! uri with
  | Some old => stopIn (timers s) old
  | None => timers s
  end.

(** A change notification for [uri] that carries at least one change. *)
Definition isDidChange (uri : DocumentURI) (req : RequestMessage)
           (p : DidChangeTextDocumentParams) : Prop :=
  Method req = "textDocument/didChange"%string
  /\ unmarshalDidChange E (Params req) = Some p
  /\ changeURI p = uri
  /\ ContentChanges p <> [].

Definition receive (req : RequestMessage) : Step := Receive (Some req).

(** The states the server can be in: those a run of events leads to from
    a new server. *)
Definition Reachable (s : Server) : Prop :=
  exists parserManager activeAIClient es,
    steps (NewServer parserManager activeAIClient) es = Some s.

End WithEnv.

Arguments mkRequest {E}.
Arguments Receive {E}.
Arguments Expire {E}.
Arguments Callback {E}.
Arguments Body {E}.
Arguments Unreadable {E}.
Arguments Oversized {E}.
Arguments Returned {E}.
Arguments Panicked {E}.
Arguments core {E}.
Arguments parsedTree {E}.
Arguments noParserNoTree {E}.
Arguments completionHandler {E}.
Arguments unmarshalPosition {E}.
Arguments afterParse {E}.
Arguments isExit {E}.
Arguments exitFrame {E}.
Arguments dispatchAll {E}.
Arguments timersOk {E}.
Arguments stopRegistered {E}.
Arguments isDidChange {E}.
Arguments receive {E}.

End Server.

(** *** A small instance of the collaborators, for examples

    One grammar; a parse that yields a single node spanning the text; raw
    parameters that are already decoded. *)

Inductive SampleRaw :=
| RawNone
| RawDidOpen (p : Server.DidOpenTextDocumentParams)
| RawDidClose (p : Server.DidCloseTextDocumentParams)
| RawDidChange (p : Server.DidChangeTextDocumentParams)
| RawPosition (p : Server.TextDocumentPositionParams).

Definition sampleParse (_ : unit) (_ : option Sitter.Tree) (content : bytes) : option Sitter.Tree :=
  Some (Sitter.MkNode "source_file" 0 (len content) []).

Definition sampleEnv : Server.Env :=
  {| Server.Language := unit;
     Server.ParseCtx := sampleParse;
     Server.NamedDescendantForPointRange := noDescendant;
     Server.Raw := SampleRaw;
     Server.unmarshalInitialize := fun _ => true;
     Server.initializeError := fun _ => "unexpected end of JSON input"%string;
     Server.inlineCompletionError := fun _ => "unexpected end of JSON input"%string;
     Server.unmarshalDidOpen := fun r => match r with RawDidOpen p => Some p | _ => None end;
     Server.unmarshalDidClose := fun r => match r with RawDidClose p => Some p | _ => None end;
     Server.unmarshalDidChange := fun r => match r with RawDidChange p => Some p | _ => None end;
     Server.unmarshalCompletion := fun r => match r with RawPosition p => Some p | _ => None end;
     Server.unmarshalInlineCompletion :=
       fun r => match r with RawPosition p => Some p | _ => None end |}.

Definition sampleManager : Server.Manager sampleEnv :=
  Server.mkManager sampleEnv {[ "go"%string := Some tt ]}.

(** A backend that answers every request with the same line. *)
Definition sampleClient : Server.AIClient :=
  Server.mkAIClient "sample" (fun _ => Server.AISuggestion (B "fmt.Println()")).

Definition sampleServer : Server.Server sampleEnv :=
  Server.NewServer sampleEnv (Some sampleManager) (Some sampleClient).

Definition note (method : string) (params : SampleRaw) : Server.Step sampleEnv :=
  Server.Receive (Some (@Server.mkRequest sampleEnv None method params)).

Definition request (id : Z) (method : string) (params : SampleRaw) : Server.Step sampleEnv :=
  Server.Receive (Some (@Server.mkRequest sampleEnv (Some id) method params)).

(** Open a document, change it twice in a burst, let the last timer expire
    and its callback run, then ask for a completion. *)
Definition sampleSession : list (Server.Step sampleEnv) :=
  [ request 1 "initialize" RawNone;
    note "initialized" RawNone;
    note "textDocument/didOpen" (RawDidOpen (Server.mkDidOpen "file:///a.go" (B "x") "go" 1));
    note "textDocument/didChange" (RawDidChange (Server.mkDidChange "file:///a.go" 2 [B "xy"]));
    note "textDocument/didChange" (RawDidChange (Server.mkDidChange "file:///a.go" 3 [B "xyz"]));
    Server.Expire 1%nat;
    Server.Callback 1%nat;
    request 2 "textDocument/completion"
            (RawPosition (Server.mkPosParams "file:///a.go" (Position.mkPosition 0 3))) ].

Example sampleSession_output :
  option_map (Server.output sampleEnv) (Server.steps sampleEnv sampleServer sampleSession)
  = Some [ Server.Response 1 Server.RInitializeResult None;
           Server.Notification "window/logMessage";
           Server.Response 2 (Server.RCompletionList false
                                [Server.completionItem (B "fmt.Println()")]) None ].
Proof. vm_compute. reflexivity. Qed.

Example sampleSession_trace :
  option_map (Server.trace sampleEnv) (Server.steps sampleEnv sampleServer sampleSession)
  = Some [ Server.EvParse "file:///a.go" "go" (B "x") None;
           Server.EvParse "file:///a.go" "go" (B "xyz")
                          (Some (Sitter.MkNode "source_file" 0 1 []));
           Server.EvExtractContext "file:///a.go" (B "xyz")
                                   (Sitter.MkNode "source_file" 0 3 []) 3 ].
Proof. vm_compute. reflexivity. Qed.

(** The first timer of the burst was stopped and cannot expire. *)
Example sampleSession_stopped :
  Server.steps sampleEnv sampleServer (take 5 sampleSession ++ [Server.Expire 0%nat]) = None.
Proof. vm_compute. reflexivity. Qed.

(** A server whose backend is the Azure client, the model replying with
    two lines. *)
Definition azureClient : Server.AIClient :=
  Server.mkAIClient "azure"
    (fun ctx => Server.AISuggestion
                  (AI.suggestionOf GoStrings.asciiToLower AI.Azure
                     (B "a := 1" ++ [LF] ++ B "b := 2") (Analyzer.LanguageID ctx))).

Definition azureSession : list (Server.Step sampleEnv) :=
  [ request 1 "initialize" RawNone;
    note "initialized" RawNone;
    note "textDocument/didOpen" (RawDidOpen (Server.mkDidOpen "file:///a.go" (B "x") "go" 1));
    request 2 "textDocument/completion"
            (RawPosition (Server.mkPosParams "file:///a.go" (Position.mkPosition 0 1))) ].

(** The sample server after the burst, before any timer has expired: the
    stored tree still spans the one byte of the text the document was
    opened with, the stored text has three. *)
Definition staleServer : Server.Server sampleEnv :=
  default sampleServer (Server.steps sampleEnv sampleServer (take 5 sampleSession)).

Definition completionRequest : Server.RequestMessage sampleEnv :=
  @Server.mkRequest sampleEnv (Some 2) "textDocument/completion"
    (RawPosition (Server.mkPosParams "file:///a.go" (Position.mkPosition 0 3))).

(** The sample server once the document is open, and a burst of two
    changes for it. *)
Definition openedServer : Server.Server sampleEnv :=
  default sampleServer (Server.steps sampleEnv sampleServer (take 3 sampleSession)).

Definition burstParams : list Server.DidChangeTextDocumentParams :=
  [ Server.mkDidChange "file:///a.go" 2 [B "xy"];
    Server.mkDidChange "file:///a.go" 3 [B "xyz"] ].

Definition burstRequests : list (Server.RequestMessage sampleEnv) :=
  map (fun p => @Server.mkRequest sampleEnv None "textDocument/didChange" (RawDidChange p))
      burstParams.

(** A completion that arrives while the tree is stale: a full parse is made
    first, and the context is extracted from its result. *)
Example staleServer_completion_trace :
  Server.trace sampleEnv (Server.handleCompletion sampleEnv staleServer completionRequest).1
  = [ Server.EvParse "file:///a.go" "go" (B "x") None;
      Server.EvParse "file:///a.go" "go" (B "xyz") None;
      Server.EvExtractContext "file:///a.go" (B "xyz")
                              (Sitter.MkNode "source_file" 0 3 []) 3 ].
Proof. vm_compute. reflexivity. Qed.

Definition openedDoc : Server.DocumentState :=
  Server.mkDocumentState (B "x") 1 "go" (Some (Sitter.MkNode "source_file" 0 1 [])).

(** *** A grammar whose root node stops short of the text

    As [sampleEnv], with a parse whose root node leaves out a final line
    feed. *)

Definition shortParse (_ : unit) (_ : option Sitter.Tree) (content : bytes) : option Sitter.Tree :=
  Some (Sitter.MkNode "source_file" 0
          (if bool_decide (last content = Some LF) then len content - 1 else len content) []).

Definition shortEnv : Server.Env :=
  {| Server.Language := unit;
     Server.ParseCtx := shortParse;
     Server.NamedDescendantForPointRange := noDescendant;
     Server.Raw := SampleRaw;
     Server.unmarshalInitialize := fun _ => true;
     Server.initializeError := fun _ => "unexpected end of JSON input"%string;
     Server.inlineCompletionError := fun _ => "unexpected end of JSON input"%string;
     Server.unmarshalDidOpen := fun r => match r with RawDidOpen p => Some p | _ => None end;
     Server.unmarshalDidClose := fun r => match r with RawDidClose p => Some p | _ => None end;
     Server.unmarshalDidChange := fun r => match r with RawDidChange p => Some p | _ => None end;
     Server.unmarshalCompletion := fun r => match r with RawPosition p => Some p | _ => None end;
     Server.unmarshalInlineCompletion :=
       fun r => match r with RawPosition p => Some p | _ => None end |}.

Definition shortManager : Server.Manager shortEnv :=
  Server.mkManager shortEnv {[ "go"%string := Some tt ]}.

(** "x", LF *)
Definition shortText : bytes := [Byte.x78; LF].

(** The handshake and a [didOpen]: no change is ever sent, no timer is ever
    created. *)
Definition shortSession : list (Server.Step shortEnv) :=
  [ Server.Receive (Some (@Server.mkRequest shortEnv (Some 1) "initialize" RawNone));
    Server.Receive (Some (@Server.mkRequest shortEnv None "initialized" RawNone));
    Server.Receive (Some (@Server.mkRequest shortEnv None "textDocument/didOpen"
                            (RawDidOpen (Server.mkDidOpen "file:///a.go" shortText "go" 1)))) ].

Definition shortServer : Server.Server shortEnv :=
  let new := Server.NewServer shortEnv (Some shortManager) (Some sampleClient) in
  default new (Server.steps shortEnv new shortSession).

Definition shortRequest : Server.RequestMessage shortEnv :=
  @Server.mkRequest shortEnv (Some 2) "textDocument/completion"
    (RawPosition (Server.mkPosParams "file:///a.go" (Position.mkPosition 0 1))).

(** The tree stored by the [didOpen] ends at byte 1 of the two bytes; the
    completion parses again, gets the same tree, and serves it. *)
Example shortServer_completion :
  Server.documents shortEnv shortServer !! "file:///a.go"%string
  = Some (Server.mkDocumentState shortText 1 "go" (Some (Sitter.MkNode "source_file" 0 1 [])))
  /\ Server.timers shortEnv shortServer = ∅
  /\ Server.trace shortEnv (Server.handleCompletion shortEnv shortServer shortRequest).1
     = [ Server.EvParse "file:///a.go" "go" shortText None;
         Server.EvParse "file:///a.go" "go" shortText None;
         Server.EvExtractContext "file:///a.go" shortText
                                 (Sitter.MkNode "source_file" 0 1 []) 1 ]
  /\ Server.output shortEnv (Server.handleCompletion shortEnv shortServer shortRequest).1
     = [ Server.Response 1 Server.RInitializeResult None;
         Server.Notification "window/logMessage";
         Server.Response 2 (Server.RCompletionList false
                              [Server.completionItem (B "fmt.Println()")]) None ].
Proof. vm_compute. repeat split; reflexivity. Qed.

(** *** Inputs of the read loop

    The handshake and a shutdown request, after which the input ends; and
    the same frames followed by a header whose Content-Length cannot be
    allocated and by one more notification. *)

Definition shutdownInput : list (Server.Incoming sampleEnv) :=
  [ Server.Body (Some (@Server.mkRequest sampleEnv (Some 1) "initialize" RawNone));
    Server.Body (Some (@Server.mkRequest sampleEnv None "initialized" RawNone));
    Server.Body (Some (@Server.mkRequest sampleEnv (Some 2) "shutdown" RawNone)) ].

Definition lateFrame : Server.Incoming sampleEnv :=
  Server.Body (Some (@Server.mkRequest sampleEnv None "textDocument/didOpen"
                       (RawDidOpen (Server.mkDidOpen "file:///a.go" (B "x") "go" 1)))).

Definition oversizedInput : list (Server.Incoming sampleEnv) :=
  shutdownInput ++ [Server.Oversized; lateFrame].

(** ** Further notions and sample data *)

(** "a" CR LF, then U+00E9 (two bytes): two lines with a Windows line end. *)
Definition crlfText : bytes := [Byte.x61; CR; LF; Byte.xc3; Byte.xa9].

Module AnalyzerNotions.
Import Sitter Analyzer.

(** The number of line feeds of a text. *)
Definition countLF (s : bytes) : Z := len (filter (fun b => b = LF) s).

(** A node and its ancestors, nearest first: the path from the node to the
    root that [Parent] follows. *)
Definition chain (r : NodeRef) : list Node := node r :: ancestors r.

(** The node a search for the enclosing block starts at: the node the
    handler passed or, without one, the named node the tree has at the
    point of the cursor. *)
Definition searchStart (NamedDescendantForPointRange : NodeRef -> Point -> Point -> option NodeRef)
           (content : bytes) (rootNode : NodeRef) (passedCursorNode : option NodeRef)
           (cursorByteOffset : Z) : option NodeRef :=
  match passedCursorNode with
  | Some n => Some n
  | None =>
      let point := calculatePointFromOffset content cursorByteOffset in
      NamedDescendantForPointRange rootNode point point
  end.

(** The kinds [ExtractContext] looks for as the enclosing block. *)
Definition enclosingTypes (languageID : string) : list string :=
  tableGet functionNodeTypes languageID ++ tableGet classNodeTypes languageID.

(** The one-byte white space of [unicode.IsSpace]: TAB, LF, VT, FF, CR and
    the space. *)
Definition asciiSpace : bytes := [Byte.x09; LF; Byte.x0b; Byte.x0c; CR; SP].

(** A word: not empty and free of one-byte white space. *)
Definition isWord (w : bytes) : Prop := w <> [] /\ forall b, b ∈ asciiSpace -> b ∉ w.

(** A Python import statement spread over three lines. *)
Definition pythonImport : bytes :=
  B "from os import (" ++ [LF; Byte.x09] ++ B "path," ++ [CR; LF] ++ B "  sep )".

End AnalyzerNotions.

(** ** Package ai: the shared helpers of internal/ai/client.go *)

Module AIHelpers.
Import Analyzer.

(** [strings.LastIndex]: byte index of the last occurrence of [sep], or
    [-1]; the empty [sep] is found at the end. *)
Fixpoint LastIndex (s sep : bytes) : Z :=
  match s with
  | [] => if GoStrings.HasPrefix [] sep then 0 else -1
  | _ :: s' =>
      let i := LastIndex s' sep in
      if 0 <=? i then i + 1
      else if GoStrings.HasPrefix s sep then 0 else -1
  end.

(** [safeContent] *)
Definition safeContent (ni : option NodeInfo) : bytes :=
  match ni with
  | None => []
  | Some ni => niContent ni
  end.

(** [safeContentSuffix] *)
Definition safeContentSuffix (enclosingNode : option NodeInfo) (suffix : bytes) : result bytes :=
  match enclosingNode with
  | None => Ok []
  | Some enclosingNode =>
      let fullContent := niContent enclosingNode in
      let suffixIndex := LastIndex fullContent suffix in
      if negb (suffixIndex =? -1) then
        let startIndex := suffixIndex + len suffix in
        if startIndex <? len fullContent then
          let maxLength := 500 in
          let endIndex := startIndex + maxLength in
          let endIndex := if len fullContent <? endIndex then len fullContent else endIndex in
          orPanic (slice_checked fullContent startIndex endIndex)
        else Ok []
      else Ok []
  end.

(** [a] is a contiguous part of [s]. *)
Definition partOf (a s : bytes) : Prop := exists pre post, s = pre ++ a ++ post.

End AIHelpers.

Example LastIndex_ex :
  AIHelpers.LastIndex (B "go gopher") (B "go") = 3
  /\ AIHelpers.LastIndex (B "go gopher") (B "rodent") = -1
  /\ AIHelpers.LastIndex (B "go") [] = 2.
Proof. repeat split; reflexivity. Qed.

Example safeContentSuffix_ex :
  AIHelpers.safeContentSuffix
    (Some (Analyzer.mkNodeInfo "block" (B "{ a; b; c }") 0 11)) (B "b;")
  = Analyzer.Ok (B " c }").
Proof. reflexivity. Qed.

(** ** Package config: the second part of internal/analyzer/analyzer.go *)

Module Config.

Local Open Scope string_scope.

Record OpenAIConfig := mkOpenAI { oaAPIKey : string; oaModel : string }.

Record AzureConfig := mkAzure {
  azAPIKey : string;
  azEndpoint : string;
  azDeploymentID : string;
  azAPIVersion : string;
  azModel : string
}.

Record AnthropicConfig := mkAnthropic {
  anAPIKey : string;
  anModel : string;
  anAPIVersion : string
}.

Record GeminiConfig := mkGemini { gmAPIKey : string; gmModel : string }.

Record OllamaConfig := mkOllama { olHost : string; olModel : string }.

Record Providers := mkProviders {
  OpenAI : OpenAIConfig;
  Azure : AzureConfig;
  Anthropic : AnthropicConfig;
  Gemini : GeminiConfig;
  Ollama : OllamaConfig
}.

(** [Config]; a [time.Duration] is a number of nanoseconds. *)
Record Config := mkConfig {
  Provider : string;
  Model : string;
  Timeout : string;
  cfgProviders : Providers;
  TimeoutDuration : Z
}.

Definition Millisecond : Z := 1000000%Z.
Definition Second : Z := (1000 * Millisecond)%Z.

Definition defaultConfig : Config :=
  {| Provider := "";
     Model := "";
     Timeout := "10s";
     cfgProviders :=
       {| OpenAI := mkOpenAI "" "gpt-4o";
          Azure := mkAzure "" "" "" "2023-07-01-preview" "";
          Anthropic := mkAnthropic "" "claude-3-haiku-20240307" "2023-06-01";
          Gemini := mkGemini "" "gemini-1.5-flash-latest";
          Ollama := mkOllama "http://localhost:11434" "codellama:latest" |};
     TimeoutDuration := 0%Z |}.

(** Assignments to one field of [cfg], the others kept. *)
Definition setTimeoutDuration (cfg : Config) (d : Z) : Config :=
  mkConfig (Provider cfg) (Model cfg) (Timeout cfg) (cfgProviders cfg) d.
Definition setProviders (cfg : Config) (p : Providers) : Config :=
  mkConfig (Provider cfg) (Model cfg) (Timeout cfg) p (TimeoutDuration cfg).
Definition setOpenAI (cfg : Config) (c : OpenAIConfig) : Config :=
  let p := cfgProviders cfg in
  setProviders cfg (mkProviders c (Azure p) (Anthropic p) (Gemini p) (Ollama p)).
Definition setAzure (cfg : Config) (c : AzureConfig) : Config :=
  let p := cfgProviders cfg in
  setProviders cfg (mkProviders (OpenAI p) c (Anthropic p) (Gemini p) (Ollama p)).
Definition setAnthropic (cfg : Config) (c : AnthropicConfig) : Config :=
  let p := cfgProviders cfg in
  setProviders cfg (mkProviders (OpenAI p) (Azure p) c (Gemini p) (Ollama p)).
Definition setGemini (cfg : Config) (c : GeminiConfig) : Config :=
  let p := cfgProviders cfg in
  setProviders cfg (mkProviders (OpenAI p) (Azure p) (Anthropic p) c (Ollama p)).
Definition setOllama (cfg : Config) (c : OllamaConfig) : Config :=
  let p := cfgProviders cfg in
  setProviders cfg (mkProviders (OpenAI p) (Azure p) (Anthropic p) (Gemini p) c).

Definition isEmpty (s : string) : bool := String.eqb s "".

Section Load.

(** [os.Getenv], and [time.ParseDuration] with [None] for its error. *)
Variable Getenv : string -> string.
Variable ParseDuration : string -> option Z.

(** [if field == "" { field = os.Getenv(name) }] *)
Definition orEnv (field name : string) : string :=
  if isEmpty field then Getenv name else field.

(** [if cfg.Provider == provider && model == "" { model = fallback }] *)
Definition orModel (cfg : Config) (provider model fallback : string) : string :=
  if String.eqb (Provider cfg) provider && isEmpty model then fallback else model.

(** The part of [LoadConfig] headed "Apply Fallbacks and Defaults", one
    definition for each of its paragraphs. *)

(* Timeout *)
Definition fallbackTimeout (cfg : Config) : Config :=
  let d := match ParseDuration (Timeout cfg) with
           | Some d => d
           | None => (10 * Second)%Z
           end in
  let d := if (d <=? 500 * Millisecond)%Z then (500 * Millisecond)%Z else d in
  setTimeoutDuration cfg d.

(* API Key Fallbacks from Environment Variables *)
Definition fallbackAPIKeys (cfg : Config) : Config :=
  let c := OpenAI (cfgProviders cfg) in
  let cfg := setOpenAI cfg (mkOpenAI (orEnv (oaAPIKey c) "OPENAI_API_KEY") (oaModel c)) in
  let c := Azure (cfgProviders cfg) in
  let cfg := setAzure cfg (mkAzure (orEnv (azAPIKey c) "AZURE_OPENAI_KEY") (azEndpoint c)
                                   (azDeploymentID c) (azAPIVersion c) (azModel c)) in
  let c := Anthropic (cfgProviders cfg) in
  let cfg := setAnthropic cfg (mkAnthropic (orEnv (anAPIKey c) "ANTHROPIC_API_KEY")
                                           (anModel c) (anAPIVersion c)) in
  let c := Gemini (cfgProviders cfg) in
  setGemini cfg (mkGemini (orEnv (gmAPIKey c) "GOOGLE_API_KEY") (gmModel c)).

(* Azure endpoint/deployment required, check if still missing *)
Definition fallbackAzure (cfg : Config) : Config :=
  let c := Azure (cfgProviders cfg) in
  if String.eqb (Provider cfg) "azure"
     && (isEmpty (azEndpoint c) || isEmpty (azDeploymentID c))
  then setAzure cfg (mkAzure (azAPIKey c)
                             (orEnv (azEndpoint c) "AZURE_OPENAI_ENDPOINT")
                             (orEnv (azDeploymentID c) "AZURE_OPENAI_DEPLOYMENT")
                             (azAPIVersion c) (azModel c))
  else cfg.

(* Ollama host fallback *)
Definition fallbackOllamaHost (cfg : Config) : Config :=
  let c := Ollama (cfgProviders cfg) in
  if isEmpty (olHost c) then
    let host := Getenv "OLLAMA_HOST" in
    let host := if isEmpty host then olHost (Ollama (cfgProviders defaultConfig)) else host in
    setOllama cfg (mkOllama host (olModel c))
  else cfg.

(* Apply global default model if provider-specific model is empty *)
Definition fallbackGlobalModel (cfg : Config) : Config :=
  let c := OpenAI (cfgProviders cfg) in
  let cfg := setOpenAI cfg (mkOpenAI (oaAPIKey c) (orModel cfg "openai" (oaModel c) (Model cfg))) in
  let c := Azure (cfgProviders cfg) in
  let cfg := setAzure cfg (mkAzure (azAPIKey c) (azEndpoint c) (azDeploymentID c) (azAPIVersion c)
                                   (orModel cfg "azure" (azModel c) (Model cfg))) in
  let c := Anthropic (cfgProviders cfg) in
  let cfg := setAnthropic cfg (mkAnthropic (anAPIKey c)
                                           (orModel cfg "anthropic" (anModel c) (Model cfg))
                                           (anAPIVersion c)) in
  let c := Gemini (cfgProviders cfg) in
  let cfg := setGemini cfg (mkGemini (gmAPIKey c) (orModel cfg "gemini" (gmModel c) (Model cfg))) in
  let c := Ollama (cfgProviders cfg) in
  setOllama cfg (mkOllama (olHost c) (orModel cfg "ollama" (olModel c) (Model cfg))).

(* Apply hardcoded defaults if still empty *)
Definition fallbackDefaultModels (cfg : Config) : Config :=
  let dflt := cfgProviders defaultConfig in
  let c := OpenAI (cfgProviders cfg) in
  let cfg := setOpenAI cfg (mkOpenAI (oaAPIKey c)
                                     (orModel cfg "openai" (oaModel c) (oaModel (OpenAI dflt)))) in
  let c := Anthropic (cfgProviders cfg) in
  let cfg := setAnthropic cfg (mkAnthropic (anAPIKey c)
                                 (orModel cfg "anthropic" (anModel c) (anModel (Anthropic dflt)))
                                 (anAPIVersion c)) in
  let c := Gemini (cfgProviders cfg) in
  let cfg := setGemini cfg (mkGemini (gmAPIKey c)
                                     (orModel cfg "gemini" (gmModel c) (gmModel (Gemini dflt)))) in
  let c := Ollama (cfgProviders cfg) in
  setOllama cfg (mkOllama (olHost c)
                          (orModel cfg "ollama" (olModel c) (olModel (Ollama dflt)))).

Definition applyFallbacks (cfg : Config) : Config :=
  let cfg := fallbackTimeout cfg in
  let cfg := fallbackAPIKeys cfg in
  let cfg := fallbackAzure cfg in
  let cfg := fallbackOllamaHost cfg in
  let cfg := fallbackGlobalModel cfg in
  fallbackDefaultModels cfg.

(** What the first part of [LoadConfig] finds: no user configuration
    directory; no file in it; a file that [os.Stat] cannot examine; a file,
    with what [toml.DecodeFile] makes of the configuration it is given
    ([None] for a decoding error). *)
Inductive ConfigFile :=
| NoConfigDir
| NotExist
| StatError
| File (decode : Config -> option Config).

(** [LoadConfig]; [None] is the error return. *)
Definition LoadConfig (file : ConfigFile) : option Config :=
  let cfg := defaultConfig in
  match file with
  | NoConfigDir | NotExist => Some (applyFallbacks cfg)
  | StatError => None
  | File decode =>
      match decode cfg with
      | Some cfg => Some (applyFallbacks cfg)
      | None => None
      end
  end.

(** The model of the provider the configuration selects. *)
Definition selectedModel (cfg : Config) : string :=
  let p := cfgProviders cfg in
  if String.eqb (Provider cfg) "openai" then oaModel (OpenAI p)
  else if String.eqb (Provider cfg) "azure" then azModel (Azure p)
  else if String.eqb (Provider cfg) "anthropic" then anModel (Anthropic p)
  else if String.eqb (Provider cfg) "gemini" then gmModel (Gemini p)
  else if String.eqb (Provider cfg) "ollama" then olModel (Ollama p)
  else "".

(** The hard-coded default model of a provider; Azure has none. *)
Definition defaultModel (provider : string) : string :=
  selectedModel (mkConfig provider "" "" (cfgProviders defaultConfig) 0%Z).

(** The first non-empty string of the two. *)
Definition orElse (a b : string) : string := if isEmpty a then b else a.

End Load.

(** The names [NewServer] knows the backends by. *)
Definition providerName (p : AI.Provider) : string :=
  match p with
  | AI.OpenAI => "openai"
  | AI.Azure => "azure"
  | AI.Anthropic => "anthropic"
  | AI.Gemini => "gemini"
  | AI.Ollama => "ollama"
  end.

End Config.

(** An environment with one key, and a parser of durations that knows two
    spellings. *)
Definition sampleGetenv (name : string) : string :=
  if String.eqb name "OPENAI_API_KEY" then "sk-env" else ""%string.

Definition sampleParseDuration (s : string) : option Z :=
  if String.eqb s "10s" then Some (10 * Config.Second)
  else if String.eqb s "100ms" then Some (100 * Config.Millisecond)
  else None.

(** A configuration file that selects OpenAI, names a global model and a
    short timeout, and clears the provider's own model. *)
Definition sampleConfigFile : Config.ConfigFile :=
  Config.File (fun cfg =>
    Some (Config.mkConfig "openai" "gpt-4.1" "100ms"
            (Config.mkProviders (Config.mkOpenAI "" "")
               (Config.Azure (Config.cfgProviders cfg))
               (Config.Anthropic (Config.cfgProviders cfg))
               (Config.Gemini (Config.cfgProviders cfg))
               (Config.Ollama (Config.cfgProviders cfg)))
            (Config.TimeoutDuration cfg))).

Example LoadConfig_ex :
  option_map (fun cfg => (Config.selectedModel cfg,
                          Config.oaAPIKey (Config.OpenAI (Config.cfgProviders cfg)),
                          Config.TimeoutDuration cfg))
             (Config.LoadConfig sampleGetenv sampleParseDuration sampleConfigFile)
  = Some ("gpt-4.1"%string, "sk-env"%string, 500 * Config.Millisecond).
Proof. reflexivity. Qed.

(** ** Notions for the server *)

Module ServerNotions.
Import Sitter Server.

Section WithEnv.
Context (E : Env).

(** What handling the message [req] may add to the output: notifications,
    then at most one response, for the id of [req]. *)
Definition replies (req : RequestMessage E) (new : list Frame) : Prop :=
  exists ns rs,
    new = ns ++ rs /\ Forall isNotification ns
    /\ (rs = [] \/ exists id r e, ID E req = Some id /\ rs = [Response id r e]).

Definition isResponse (f : Frame) : Prop :=
  match f with Response _ _ _ => True | Notification _ => False end.

(** A server that has stored no document, created no timer, parsed
    nothing, and written nothing but responses. *)
Definition quiet (s : Server E) : Prop :=
  documents E s = ∅ /\ debounceTimers E s = ∅ /\ timers E s = ∅
  /\ trace E s = [] /\ Forall isResponse (output E s).

(** The same documents with the same text, version and language; the
    trees may differ. *)
Definition sameTexts (docs docs' : gmap DocumentURI DocumentState) : Prop :=
  forall uri,
    match docs !! uri, docs' !! uri with
    | Some d, Some d' =>
        Text d' = Text d /\ Version d' = Version d /\ LanguageID d' = LanguageID d
    | None, None => True
    | _, _ => False
    end.

(** An entry of the registry stands for a reparse still to come: its timer
    was created for that URI, is pending or has expired without its
    callback having run, and the document is open. *)
Definition registryOk (s : Server E) : Prop :=
  forall uri id,
    debounceTimers E s !! uri = Some id ->
    is_Some (documents E s !! uri)
    /\ exists t, timers E s !! id = Some t /\ tURI t = uri
                 /\ (tState t = Pending \/ tState t = Expired).

(** The event is a [shutdown] message. *)
Definition isShutdown (e : Step E) : bool :=
  match e with
  | Receive (Some req) => String.eqb (Method E req) "shutdown"
  | _ => false
  end.

End WithEnv.

Arguments replies {E}.
Arguments quiet {E}.
Arguments registryOk {E}.
Arguments isShutdown {E}.

End ServerNotions.

(** The sample server once the handshake is over, and two notifications
    for it. *)
Definition initializedServer : Server.Server sampleEnv :=
  default sampleServer (Server.steps sampleEnv sampleServer (take 2 sampleSession)).

Definition openRequest : Server.RequestMessage sampleEnv :=
  @Server.mkRequest sampleEnv None "textDocument/didOpen"
    (RawDidOpen (Server.mkDidOpen "file:///a.go" (B "x") "go" 1)).

Definition closeRequest : Server.RequestMessage sampleEnv :=
  @Server.mkRequest sampleEnv None "textDocument/didClose"
    (RawDidClose (Server.mkDidClose "file:///a.go")).

(** * Properties *)

(** ** Slices *)

Lemma len_nonneg {A} (s : list A) : 0 <= len s.
Proof. unfold len. lia. Qed.

Lemma len_app {A} (s t : list A) : len (s ++ t) = len s + len t.
Proof. unfold len. rewrite length_app. lia. Qed.

Lemma len_slice {A} (s : list A) (a b : Z) :
  0 <= a <= b -> b <= len s -> len (slice s a b) = b - a.
Proof.
  unfold len, slice. intros Ha Hb.
  rewrite length_take, length_drop. lia.
Qed.

Lemma slice_app {A} (s : list A) (a b c : Z) :
  0 <= a <= b -> b <= c -> slice s a b ++ slice s b c = slice s a c.
Proof.
  unfold slice. intros Ha Hb.
  replace (Z.to_nat (c - a)) with (Z.to_nat (b - a) + Z.to_nat (c - b))%nat by lia.
  rewrite <- take_take_drop. f_equal.
  rewrite drop_drop. do 2 f_equal. lia.
Qed.

Lemma slice_full {A} (s : list A) : slice s 0 (len s) = s.
Proof.
  unfold slice, len. rewrite Z.sub_0_r, Nat2Z.id. cbn [Z.to_nat drop].
  apply firstn_all.
Qed.

Lemma slice_empty {A} (s : list A) (a : Z) : slice s a a = [].
Proof. unfold slice. rewrite Z.sub_diag. reflexivity. Qed.

Lemma slice_cons {A} (x : A) (s : list A) (b : Z) :
  0 <= b -> slice (x :: s) 0 (b + 1) = x :: slice s 0 b.
Proof.
  intros Hb. unfold slice. cbn [Z.to_nat drop].
  replace (Z.to_nat (b + 1 - 0)) with (S (Z.to_nat (b - 0))) by lia.
  reflexivity.
Qed.



(** ** UTF-8 decoding *)

Module Utf8Facts.
Import Utf8.

Lemma lor_shiftl_add (hi lo k : Z) :
  0 <= k -> 0 <= lo < 2 ^ k -> Z.lor (Z.shiftl hi k) lo = hi * 2 ^ k + lo.
Proof.
  intros Hk Hlo.
  rewrite Z.shiftl_mul_pow2 by assumption.
  assert (Hland : Z.land (hi * 2 ^ k) lo = 0).
  { apply Z.bits_inj'. intros n Hn.
    rewrite Z.land_spec, Z.bits_0.
    destruct (Z.lt_ge_cases n k) as [Hlt | Hge].
    - rewrite Z.mul_pow2_bits_low by assumption. reflexivity.
    - rewrite <- (Z.mod_small lo (2 ^ k)) by assumption.
      rewrite Z.mod_pow2_bits_high by lia. apply andb_false_r. }
  rewrite <- Z.lxor_lor by assumption.
  symmetry. apply Z.add_nocarry_lxor. assumption.
Qed.

Lemma lor_add (x lo k : Z) :
  0 <= k -> 0 <= lo < 2 ^ k -> x mod 2 ^ k = 0 -> Z.lor x lo = x + lo.
Proof.
  intros Hk Hlo Hx.
  assert (x = Z.shiftl (x / 2 ^ k) k) as ->.
  { rewrite Z.shiftl_mul_pow2 by assumption.
    pose proof (Z.div_mod x (2 ^ k)). lia. }
  rewrite lor_shiftl_add by assumption.
  rewrite Z.shiftl_mul_pow2 by assumption. reflexivity.
Qed.

Lemma decode3_value (p0 b1 b2 : Z) :
  Z.lor (Z.lor (Z.shiftl (Z.land p0 0x0F) 12) (Z.shiftl (Z.land b1 0x3F) 6)) (Z.land b2 0x3F)
  = (p0 mod 16) * 4096 + (b1 mod 64) * 64 + b2 mod 64.
Proof.
  change 0x0F with (Z.ones 4). change 0x3F with (Z.ones 6).
  rewrite !Z.land_ones by lia.
  rewrite !Z.shiftl_mul_pow2 by lia.
  change (2 ^ 4) with 16. change (2 ^ 6) with 64. change (2 ^ 12) with 4096.
  pose proof (Z.mod_pos_bound p0 16 ltac:(lia)).
  pose proof (Z.mod_pos_bound b1 64 ltac:(lia)).
  pose proof (Z.mod_pos_bound b2 64 ltac:(lia)).
  rewrite (lor_add (p0 mod 16 * 4096) _ 12); [| lia | change (2^12) with 4096; lia | apply Z.mod_mul; lia].
  rewrite (lor_add _ _ 6); [| lia | change (2^6) with 64; lia | ].
  - reflexivity.
  - change (2 ^ 6) with 64.
    replace (p0 mod 16 * 4096 + b1 mod 64 * 64) with ((p0 mod 16 * 64 + b1 mod 64) * 64) by ring.
    apply Z.mod_mul; lia.
Qed.

Lemma decode4_value (p0 b1 b2 b3 : Z) :
  Z.lor (Z.lor (Z.lor (Z.shiftl (Z.land p0 0x07) 18) (Z.shiftl (Z.land b1 0x3F) 12))
               (Z.shiftl (Z.land b2 0x3F) 6)) (Z.land b3 0x3F)
  = (p0 mod 8) * 262144 + (b1 mod 64) * 4096 + (b2 mod 64) * 64 + b3 mod 64.
Proof.
  change 0x07 with (Z.ones 3). change 0x3F with (Z.ones 6).
  rewrite !Z.land_ones by lia.
  rewrite !Z.shiftl_mul_pow2 by lia.
  change (2 ^ 3) with 8. change (2 ^ 6) with 64. change (2 ^ 12) with 4096.
  change (2 ^ 18) with 262144.
  pose proof (Z.mod_pos_bound p0 8 ltac:(lia)).
  pose proof (Z.mod_pos_bound b1 64 ltac:(lia)).
  pose proof (Z.mod_pos_bound b2 64 ltac:(lia)).
  pose proof (Z.mod_pos_bound b3 64 ltac:(lia)).
  rewrite (lor_add (p0 mod 8 * 262144) _ 18); [| lia | change (2^18) with 262144; lia | apply Z.mod_mul; lia].
  rewrite (lor_add (p0 mod 8 * 262144 + b1 mod 64 * 4096) _ 12); [| lia | change (2^12) with 4096; lia | ].
  2:{ change (2 ^ 12) with 4096.
      replace (p0 mod 8 * 262144 + b1 mod 64 * 4096) with ((p0 mod 8 * 64 + b1 mod 64) * 4096) by ring.
      apply Z.mod_mul; lia. }
  rewrite (lor_add _ _ 6); [| lia | change (2^6) with 64; lia | ].
  - reflexivity.
  - change (2 ^ 6) with 64.
    replace (p0 mod 8 * 262144 + b1 mod 64 * 4096 + b2 mod 64 * 64)
      with ((p0 mod 8 * 4096 + b1 mod 64 * 64 + b2 mod 64) * 64) by ring.
    apply Z.mod_mul; lia.
Qed.

Lemma decode2_value (p0 b1 : Z) :
  Z.lor (Z.shiftl (Z.land p0 0x1F) 6) (Z.land b1 0x3F) = (p0 mod 32) * 64 + b1 mod 64.
Proof.
  change 0x1F with (Z.ones 5). change 0x3F with (Z.ones 6).
  rewrite !Z.land_ones by lia.
  rewrite !Z.shiftl_mul_pow2 by lia.
  change (2 ^ 5) with 32. change (2 ^ 6) with 64.
  pose proof (Z.mod_pos_bound b1 64 ltac:(lia)).
  rewrite (lor_add _ _ 6); [| lia | change (2^6) with 64; lia | apply Z.mod_mul; lia].
  reflexivity.
Qed.

Lemma bz_range (b : byte) : 0 <= bz b < 256.
Proof. unfold bz. pose proof (Byte.to_N_bounded b). lia. Qed.

Ltac split_ifs :=
  repeat match goal with
         | H : context [if ?c then _ else _] |- _ => destruct c eqn:?
         | |- context [if ?c then _ else _] => destruct c eqn:?
         end.

(** A rune decoded without error is re-encoded by [RuneLen] in as many
    bytes as it was decoded from. *)
Lemma DecodeRune_RuneLen (p : bytes) (r : Z) (n : nat) :
  p <> [] -> DecodeRune p = (r, n) ->
  (r =? RuneError) && Nat.eqb n 1 = false ->
  RuneLen r = Z.of_nat n.
Proof.
  intros Hp Hd Hok.
  destruct p as [|c0 p1]; [congruence|]. clear Hp.
  unfold DecodeRune in Hd.
  pose proof (bz_range c0) as H0.
  destruct (bz c0 <? 0x80) eqn:Hascii.
  { inversion Hd; subst. unfold RuneLen.
    destruct (bz c0 <? 0) eqn:?; [lia|].
    destruct (bz c0 <=? 0x7F) eqn:?; [reflexivity|lia]. }
  destruct (leadSize (bz c0) =? 0) eqn:Hlead.
  { inversion Hd; subst. discriminate. }
  destruct p1 as [|c1 p2]; [inversion Hd; subst; discriminate|].
  pose proof (bz_range c1) as H1.
  destruct ((bz c1 <? acceptLo (bz c0)) || (acceptHi (bz c0) <? bz c1)) eqn:Hacc.
  { inversion Hd; subst; discriminate. }
  apply orb_false_iff in Hacc as [Hlo Hhi].
  unfold leadSize, acceptLo, acceptHi in *.
  destruct ((0xC2 <=? bz c0) && (bz c0 <=? 0xDF)) eqn:H2.
  { simpl in Hd. inversion Hd; subst. rewrite decode2_value.
    unfold RuneLen. split_ifs; try lia;
      Z.to_euclidean_division_equations; lia. }
  destruct ((0xE0 <=? bz c0) && (bz c0 <=? 0xEF)) eqn:H3.
  { simpl in Hd.
    destruct p2 as [|c2 p3]; [inversion Hd; subst; discriminate|].
    pose proof (bz_range c2) as Hc2.
    unfold isCont in Hd.
    destruct ((0x80 <=? bz c2) && (bz c2 <=? 0xBF)) eqn:Hcont; simpl in Hd;
      [|inversion Hd; subst; discriminate].
    inversion Hd; subst. rewrite decode3_value.
    unfold RuneLen. split_ifs; try lia;
      Z.to_euclidean_division_equations; lia. }
  destruct ((0xF0 <=? bz c0) && (bz c0 <=? 0xF4)) eqn:H4; [|discriminate].
  simpl in Hd.
  destruct p2 as [|c2 p3]; [inversion Hd; subst; discriminate|].
  pose proof (bz_range c2) as Hc2.
  unfold isCont in Hd.
  destruct ((0x80 <=? bz c2) && (bz c2 <=? 0xBF)) eqn:Hcont; simpl in Hd;
    [|inversion Hd; subst; discriminate].
  destruct p3 as [|c3 p4]; [inversion Hd; subst; discriminate|].
  pose proof (bz_range c3) as Hc3.
  destruct ((0x80 <=? bz c3) && (bz c3 <=? 0xBF)) eqn:Hcont3; simpl in Hd;
    [|inversion Hd; subst; discriminate].
  inversion Hd; subst. rewrite decode4_value.
  unfold RuneLen. split_ifs; try lia;
    Z.to_euclidean_division_equations; lia.
Qed.

(** Decoding consumes at least one byte and never more than there are. *)
Lemma DecodeRune_size (p : bytes) :
  p <> [] -> (1 <= snd (DecodeRune p) <= length p)%nat.
Proof.
  intros Hp. destruct p as [|c0 p1]; [congruence|].
  unfold DecodeRune.
  repeat match goal with
         | |- context [if ?c then _ else _] => destruct c
         | |- context [match ?l with [] => _ | _ :: _ => _ end] => destruct l
         end; simpl; lia.
Qed.

Lemma decodeAll_fuel2 (f1 f2 : nat) (p : bytes) :
  (length p <= f1)%nat -> (length p <= f2)%nat -> decodeAll f1 p = decodeAll f2 p.
Proof.
  revert f2 p. induction f1 as [|f1 IH]; intros f2 p H1 H2.
  - destruct p; cbn [length] in *; [destruct f2; reflexivity | lia].
  - destruct p as [|c p']; [destruct f2; reflexivity|].
    destruct f2 as [|f2]; cbn [length] in *; [lia|].
    cbn [decodeAll].
    destruct (DecodeRune (c :: p')) as [r n] eqn:Hd.
    pose proof (DecodeRune_size (c :: p') ltac:(discriminate)) as Hsz.
    rewrite Hd in Hsz. cbn [snd length] in Hsz.
    f_equal.
    assert (Hdrop : (length (drop n (c :: p')) <= length p')%nat)
      by (rewrite length_drop; cbn [length]; lia).
    apply IH; lia.
Qed.

Lemma decodeAll_fuel (fuel : nat) (p : bytes) :
  (length p <= fuel)%nat -> decodeAll fuel p = decodeAll (length p) p.
Proof. intros H. apply decodeAll_fuel2; [exact H | reflexivity]. Qed.

Lemma decode_cons (p : bytes) :
  p <> [] ->
  decode p = DecodeRune p :: decode (drop (snd (DecodeRune p)) p).
Proof.
  intros Hp. unfold decode.
  destruct p as [|c p']; [congruence|].
  change (length (c :: p')) with (S (length p')).
  cbn [decodeAll].
  destruct (DecodeRune (c :: p')) as [r n] eqn:Hd.
  pose proof (DecodeRune_size (c :: p') ltac:(discriminate)) as Hsz.
  rewrite Hd in Hsz. cbn [snd length] in Hsz. cbn [snd].
  f_equal. apply decodeAll_fuel. rewrite length_drop. cbn [length]. lia.
Qed.

Lemma decode_nil : decode [] = [].
Proof. reflexivity. Qed.

(** Induction over a string rune by rune. *)
Lemma rune_ind (P : bytes -> Prop) :
  P [] ->
  (forall p, p <> [] -> P (drop (snd (DecodeRune p)) p) -> P p) ->
  forall p, P p.
Proof.
  intros Hnil Hstep p.
  remember (length p) as k eqn:Hk.
  revert p Hk. induction k as [k IH] using lt_wf_ind. intros p Hk.
  destruct p as [|c p']; [exact Hnil|].
  apply Hstep; [discriminate|].
  pose proof (DecodeRune_size (c :: p') ltac:(discriminate)) as Hsz.
  eapply IH; [|reflexivity].
  rewrite length_drop. subst k. cbn [length] in *. lia.
Qed.

(** The widths of the decoded runes add up to the length of the string. *)
Lemma decode_widths (p : bytes) :
  fold_right (fun rn acc => Z.of_nat (snd rn) + acc) 0 (decode p) = len p.
Proof.
  induction p as [|p Hp IH] using rune_ind; [reflexivity|].
  rewrite decode_cons by assumption. simpl. rewrite IH.
  pose proof (DecodeRune_size p Hp) as Hsz.
  unfold len. rewrite length_drop. lia.
Qed.

End Utf8Facts.

(** ** Position translation *)

Module PositionFacts.
Import Utf8 Utf8Facts Position.

Lemma splitLF_nonempty (s : bytes) : splitLF s <> [].
Proof.
  destruct s as [|c s]; cbn [splitLF]; [discriminate|].
  destruct (Byte.eqb c LF); [discriminate|].
  destruct (splitLF s); discriminate.
Qed.

Lemma byte_eqb_true (a b : byte) : Byte.eqb a b = true <-> a = b.
Proof. split; [apply Byte.byte_dec_bl | apply Byte.byte_dec_lb]. Qed.

(** The first line of a string and what follows its terminator. *)
Lemma splitLF_IndexByte (s : bytes) :
  let i := GoStrings.IndexByte s LF in
  (i = -1 /\ splitLF s = [s]) \/
  ((0 <= i < len s) /\
   splitLF s = slice s 0 i :: splitLF (drop (Z.to_nat (i + 1)) s) /\
   len (slice s 0 i) = i).
Proof.
  induction s as [|c s IH]; cbn zeta in *.
  - left. split; reflexivity.
  - cbn [GoStrings.IndexByte splitLF].
    destruct (Byte.eqb c LF) eqn:Hc.
    + right. unfold len, slice. cbn. split; [lia|]. split; reflexivity.
    + destruct IH as [[Hi Hs] | [Hi [Hs Hl]]].
      * left. rewrite Hi. cbn. split; [reflexivity|]. rewrite Hs. reflexivity.
      * right.
        assert (Hlt : (GoStrings.IndexByte s LF <? 0) = false) by lia.
        rewrite Hlt. rewrite Hs.
        remember (GoStrings.IndexByte s LF) as i eqn:Ei. clear Ei.
        assert (Hlen : len (c :: s) = len s + 1) by (unfold len; cbn [length]; lia).
        split; [lia|].
        rewrite slice_cons by lia.
        replace (Z.to_nat (i + 1 + 1)) with (S (Z.to_nat (i + 1))) by lia.
        cbn [drop]. split; [reflexivity|].
        unfold len in *. cbn [length]. lia.
Qed.

Lemma dropCR_id (l : bytes) : last l <> Some CR -> dropCR l = l.
Proof.
  unfold dropCR. intros H. destruct (last l) as [c|]; [|reflexivity].
  destruct (Byte.eqb c CR) eqn:E; [|reflexivity].
  apply byte_eqb_true in E. congruence.
Qed.

Lemma lineOk_spec (l : bytes) :
  lineOk l = true ->
  Valid l = true /\ len l < maxScanTokenSize /\ last l <> Some CR.
Proof.
  unfold lineOk. rewrite !andb_true_iff, negb_true_iff, bool_decide_eq_false.
  intros [[H1 H2] H3]. repeat split; [assumption | lia | assumption].
Qed.

(** *** The column within the target line *)

Lemma utf16Size_pos (r : Z) : 1 <= utf16Size r <= 2.
Proof. unfold utf16Size. destruct (0xFFFF <? r); lia. Qed.

Lemma fold_utf16 (rs : list Z) (a : Z) :
  fold_left (fun n r => n + utf16Size r) rs a
  = a + fold_left (fun n r => n + utf16Size r) rs 0.
Proof.
  revert a. induction rs as [|r rs IH]; intros a; cbn [fold_left]; [lia|].
  rewrite IH. rewrite (IH (0 + utf16Size r)). lia.
Qed.

Lemma utf16CodeUnitCount_cons (r : Z) (rs : list Z) :
  utf16CodeUnitCount (r :: rs) = utf16Size r + utf16CodeUnitCount rs.
Proof. unfold utf16CodeUnitCount. cbn [fold_left]. rewrite fold_utf16. lia. Qed.

Lemma utf16CodeUnitCount_nonneg (rs : list Z) : 0 <= utf16CodeUnitCount rs.
Proof.
  induction rs as [|r rs IH]; [unfold utf16CodeUnitCount; cbn; lia|].
  rewrite utf16CodeUnitCount_cons. pose proof (utf16Size_pos r). lia.
Qed.

Lemma Valid_widthsOk (l : bytes) : Valid l = true -> widthsOk (decode l).
Proof.
  unfold Valid, widthsOk.
  induction l as [|l Hl IH] using rune_ind; [constructor|].
  rewrite decode_cons by assumption. cbn [forallb].
  rewrite andb_true_iff, negb_true_iff. intros [Hhd Htl].
  constructor; [|apply IH; exact Htl].
  destruct (DecodeRune l) as [r n] eqn:Hd. cbn [fst snd] in *.
  eapply DecodeRune_RuneLen; eauto.
Qed.

Lemma runeOffset_refColumn (cps : list (Z * nat)) (character count off : Z) :
  widthsOk cps ->
  runeOffset (map fst cps) character count off
  = off + refColumn cps (character - count).
Proof.
  intros Hw. revert count off.
  induction Hw as [|[r n] cps Hr Hw IH]; intros count off; cbn [map runeOffset refColumn fst].
  - lia.
  - pose proof (utf16Size_pos r) as Hu. cbn [fst snd] in Hr.
    destruct (character <=? count) eqn:E1.
    + destruct (utf16Size r <=? character - count) eqn:E2; lia.
    + destruct (character <? count + utf16Size r) eqn:E2.
      * destruct (utf16Size r <=? character - count) eqn:E3; lia.
      * destruct (utf16Size r <=? character - count) eqn:E3; [|lia].
        rewrite IH, Hr.
        replace (character - (count + utf16Size r)) with (character - count - utf16Size r) by lia.
        lia.
Qed.

(** A character count of at least the line's UTF-16 length selects the
    whole line. *)
Lemma refColumn_all (cps : list (Z * nat)) (character : Z) :
  utf16CodeUnitCount (map fst cps) <= character ->
  refColumn cps character = fold_right (fun rn acc => Z.of_nat (snd rn) + acc) 0 cps.
Proof.
  revert character. induction cps as [|[r n] cps IH]; intros character H; cbn [refColumn fold_right map fst snd] in *.
  - reflexivity.
  - rewrite utf16CodeUnitCount_cons in H.
    pose proof (utf16CodeUnitCount_nonneg (map fst cps)).
    destruct (utf16Size r <=? character) eqn:E; [|lia].
    rewrite IH by lia. reflexivity.
Qed.

Lemma refColumn_line_end (l : bytes) (character : Z) :
  utf16Len l <= character -> refColumn (decode l) character = len l.
Proof.
  intros H. rewrite refColumn_all by exact H. apply decode_widths.
Qed.

Lemma onTargetLine_ref (l : bytes) (pos : Position) (off : Z) :
  Valid l = true -> 0 <= Character pos ->
  onTargetLine l pos off = Ok (off + refColumn (decode l) (Character pos)).
Proof.
  intros Hv Hc. unfold onTargetLine.
  destruct (Character pos <? 0) eqn:E; [lia|].
  destruct (utf16CodeUnitCount (runes l) <? Character pos) eqn:E2.
  - rewrite refColumn_line_end by (unfold utf16Len; lia). reflexivity.
  - unfold runes. rewrite runeOffset_refColumn by (apply Valid_widthsOk; exact Hv).
    rewrite Z.sub_0_r. f_equal.
Qed.

(** *** The scanning loop *)

Lemma Scan_line (data : bytes) :
  data <> [] ->
  forallb lineOk (splitLF data) = true ->
  exists l rest ls,
    Scan data = Token l rest /\ splitLF data = l :: ls /\ Valid l = true /\
    ((ls = [] /\ rest = [] /\ l = data) \/
     (ls = splitLF rest /\ len data = len l + 1 + len rest)).
Proof.
  intros Hne Hok.
  unfold Scan. destruct data as [|c d] eqn:Ed; [congruence|]. rewrite <- Ed in *.
  clear Ed c d.
  destruct (splitLF_IndexByte data) as [[Hi Hs] | [Hi [Hs Hl]]].
  - rewrite Hi. replace (0 <=? -1) with false by reflexivity.
    rewrite Hs in Hok. cbn [forallb] in Hok. rewrite andb_true_r in Hok.
    apply lineOk_spec in Hok as (Hv & Hlen & Hcr).
    replace (len data <? maxScanTokenSize) with true by lia.
    rewrite dropCR_id by assumption.
    exists data, [], []. repeat split; try assumption. left. repeat split.
  - remember (GoStrings.IndexByte data LF) as i eqn:Ei. clear Ei.
    replace (0 <=? i) with true by lia.
    rewrite Hs in Hok. cbn [forallb] in Hok. apply andb_true_iff in Hok as [Hl0 Hrest].
    apply lineOk_spec in Hl0 as (Hv & Hlen & Hcr).
    rewrite Hl in Hlen. replace (i <? maxScanTokenSize) with true by lia.
    rewrite dropCR_id by assumption.
    exists (slice data 0 i), (drop (Z.to_nat (i + 1)) data), (splitLF (drop (Z.to_nat (i + 1)) data)).
    repeat split; try assumption. right. split; [reflexivity|].
    rewrite Hl. unfold len. rewrite length_drop. unfold len in Hi. lia.
Qed.

Lemma scanLoop_end (fuel : nat) (clen : Z) (pos : Position) (cur off : Z) :
  (0 < fuel)%nat -> cur <= Line pos ->
  scanLoop fuel [] clen pos cur off = Ok clen.
Proof.
  intros Hf Hc. destruct fuel as [|fuel]; [lia|].
  cbn [scanLoop Scan]. replace (cur <=? Line pos) with true by lia. reflexivity.
Qed.

Lemma scanLoop_ref (fuel : nat) :
  forall (data : bytes) (clen : Z) (pos : Position) (cur off : Z),
    (length data < fuel)%nat ->
    forallb lineOk (splitLF data) = true ->
    0 <= Character pos -> cur <= Line pos ->
    off + len data = clen ->
    scanLoop fuel data clen pos cur off
    = Ok (match splitLF data !! Z.to_nat (Line pos - cur) with
          | None => clen
          | Some l => off + lineStart (splitLF data) (Z.to_nat (Line pos - cur))
                      + refColumn (decode l) (Character pos)
          end).
Proof.
  induction fuel as [|fuel IH]; intros data clen pos cur off Hfuel Hok Hch Hcur Hlen; [lia|].
  destruct data as [|c d] eqn:Ed.
  { rewrite scanLoop_end by lia. cbn [splitLF].
    unfold len in Hlen. cbn [length] in Hlen.
    destruct (Z.to_nat (Line pos - cur)) as [|k]; cbn; f_equal; lia. }
  rewrite <- Ed in *.
  assert (Hne : data <> []) by (subst; discriminate).
  destruct (Scan_line data Hne Hok) as (l & rest & ls & Hscan & Hsplit & Hv & Hcase).
  cbn [scanLoop]. rewrite Hscan, Hsplit.
  destruct (cur =? Line pos) eqn:Ecur.
  { replace (Line pos - cur) with 0 by lia. change (Z.to_nat 0) with 0%nat.
    cbn [lookup list_lookup lineStart].
    rewrite onTargetLine_ref by assumption. f_equal. lia. }
  assert (Hk : Z.to_nat (Line pos - cur) = S (Z.to_nat (Line pos - (cur + 1)))) by lia.
  rewrite Hk. cbn [lookup list_lookup lineStart].
  destruct Hcase as [(Hls & Hrest & Hl) | (Hls & Hl)].
  - subst ls rest. rewrite scanLoop_end; [reflexivity | | lia].
    assert (0 < length data)%nat by (subst data; cbn; lia). lia.
  - subst ls.
    assert (Hlenr : (length rest < fuel)%nat) by (unfold len in Hl; lia).
    rewrite Hsplit in Hok. cbn [forallb] in Hok. apply andb_true_iff in Hok as [_ Hok'].
    rewrite (IH rest clen pos (cur + 1) (off + len l + 1) Hlenr Hok' Hch) by lia.
    f_equal. destruct (splitLF rest !! _); lia.
Qed.

(** The clamps of the reference. *)
Lemma refOffset_line_beyond (content : bytes) (line character : Z) :
  len (splitLF content) <= line -> refOffset content line character = len content.
Proof.
  intros H. unfold refOffset.
  rewrite (proj2 (lookup_ge_None _ _)); [reflexivity|]. unfold len in H. lia.
Qed.

Lemma refOffset_line_end (content l : bytes) (line character : Z) :
  splitLF content !! Z.to_nat line = Some l ->
  utf16Len l <= character ->
  refOffset content line character
  = lineStart (splitLF content) (Z.to_nat line) + len l.
Proof.
  intros Hl Hc. unfold refOffset. rewrite Hl.
  rewrite refColumn_line_end by assumption. reflexivity.
Qed.

Lemma PositionToOffset_ref (content : bytes) (line character : Z) :
  wellFormed content = true -> 0 <= line -> 0 <= character ->
  PositionToOffset content (mkPosition line character)
  = Ok (refOffset content line character).
Proof.
  intros Hwf Hl Hc. unfold PositionToOffset, refOffset. cbn [Line].
  replace (line <? 0) with false by lia.
  rewrite scanLoop_ref; cbn [Line Character]; try assumption; try lia.
  rewrite Z.sub_0_r. reflexivity.
Qed.

(** *** Lines the scanner cannot hold *)

Lemma onTargetLine_not_scan (l : bytes) (pos : Position) (off : Z) :
  onTargetLine l pos off <> Err ErrScan.
Proof.
  unfold onTargetLine. destruct (Character pos <? 0); [discriminate|].
  destruct (utf16CodeUnitCount (runes l) <? Character pos); discriminate.
Qed.

(** The loop ends in the scanning error exactly when one of the lines up
    to the requested one is as long as the scanner's buffer. *)
Lemma scanLoop_ErrScan (fuel : nat) :
  forall (data : bytes) (clen : Z) (pos : Position) (cur off : Z),
    (length data < fuel)%nat -> cur <= Line pos ->
    (scanLoop fuel data clen pos cur off = Err ErrScan
     <-> exists (i : nat) (l : bytes),
           Z.of_nat i <= Line pos - cur /\ splitLF data !! i = Some l
           /\ maxScanTokenSize <= len l).
Proof.
  induction fuel as [|fuel IH]; intros data clen pos cur off Hfuel Hcur; [lia|].
  destruct data as [|c d] eqn:Ed.
  { rewrite scanLoop_end by lia. split; [discriminate|].
    intros (i & l & _ & Hl & Hlong). cbn [splitLF] in Hl.
    destruct i as [|i]; cbn in Hl; [|discriminate].
    injection Hl as <-. unfold len, maxScanTokenSize in Hlong. cbn in Hlong. lia. }
  rewrite <- Ed in *.
  assert (Hpos : (0 < length data)%nat) by (subst data; cbn; lia).
  assert (Hscan : Scan data
                  = let i := GoStrings.IndexByte data LF in
                    if 0 <=? i then
                      if i <? maxScanTokenSize
                      then Token (dropCR (slice data 0 i)) (drop (Z.to_nat (i + 1)) data)
                      else Stop true
                    else if len data <? maxScanTokenSize then Token (dropCR data) []
                         else Stop true)
    by (rewrite Ed; reflexivity).
  clear Ed c d. cbn [scanLoop]. rewrite Hscan. clear Hscan. cbn zeta.
  destruct (splitLF_IndexByte data) as [[Hi Hs] | [Hi [Hs Hl]]].
  - rewrite Hi, Hs. replace (0 <=? -1) with false by reflexivity.
    destruct (len data <? maxScanTokenSize) eqn:Hshort.
    + assert (Hno : ~ exists (i : nat) (l : bytes),
                 Z.of_nat i <= Line pos - cur /\ [data] !! i = Some l
                 /\ maxScanTokenSize <= len l).
      { intros (i & l & _ & Hl & Hlong).
        destruct i as [|i]; cbn in Hl; [|discriminate]. injection Hl as <-. lia. }
      destruct (cur =? Line pos) eqn:Ecur.
      * split; [intros H; destruct (onTargetLine_not_scan _ _ _ H) | intros H; destruct (Hno H)].
      * rewrite scanLoop_end by lia.
        split; [discriminate | intros H; destruct (Hno H)].
    + split; [|reflexivity]. intros _. exists 0%nat, data.
      split; [lia|]. split; [reflexivity | lia].
  - remember (GoStrings.IndexByte data LF) as i0 eqn:Ei. clear Ei.
    rewrite Hs. replace (0 <=? i0) with true by lia.
    destruct (i0 <? maxScanTokenSize) eqn:Hshort.
    + destruct (cur =? Line pos) eqn:Ecur.
      * split; [intros H; destruct (onTargetLine_not_scan _ _ _ H)|].
        intros (i & l & Hle & Hlk & Hlong).
        destruct i as [|i]; [|lia]. cbn in Hlk. injection Hlk as <-. lia.
      * assert (Hlenr : (length (drop (Z.to_nat (i0 + 1)) data) < fuel)%nat)
          by (rewrite length_drop; unfold len in Hi; lia).
        rewrite (IH _ clen pos (cur + 1) _ Hlenr) by lia.
        split.
        -- intros (i & l & Hle & Hlk & Hlong). exists (S i), l.
           split; [lia|]. split; [exact Hlk | exact Hlong].
        -- intros (i & l & Hle & Hlk & Hlong).
           destruct i as [|i]; cbn in Hlk.
           ++ injection Hlk as <-. lia.
           ++ exists i, l. split; [lia|]. split; [exact Hlk | exact Hlong].
    + split; [|reflexivity]. intros _. exists 0%nat, (slice data 0 i0).
      split; [lia|]. split; [reflexivity | lia].
Qed.

Lemma PositionToOffset_ErrScan (content : bytes) (pos : Position) :
  PositionToOffset content pos = Err ErrScan
  <-> 0 <= Line pos
      /\ exists (i : nat) (l : bytes),
           Z.of_nat i <= Line pos /\ splitLF content !! i = Some l
           /\ maxScanTokenSize <= len l.
Proof.
  unfold PositionToOffset. destruct (Line pos <? 0) eqn:Hneg.
  - split; [discriminate | intros [H _]; lia].
  - rewrite scanLoop_ErrScan by lia. rewrite Z.sub_0_r.
    split; [intros H; split; [lia | exact H] | intros [_ H]; exact H].
Qed.

(** C4 (amended).  For a non-negative line: on a document whose lines are
    well-formed UTF-8, shorter than 64 KiB and end in a bare line feed, and
    for a non-negative character, [PositionToOffset] returns without error
    the offset the reference scanner gives: the start of the line plus the
    bytes of the longest run of leading code points whose UTF-16 length
    does not exceed the character count.  A line at or beyond the number of
    lines gives the length of the document, and a character count of at
    least the line's UTF-16 length gives the end of that line.  On every
    document and for every character, it returns the scanning error exactly
    when one of the lines up to and including the requested one has 64 KiB
    or more. *)
Theorem PositionToOffset_agrees_with_reference (content : bytes) (line character : Z) :
  0 <= line ->
  (wellFormed content = true -> 0 <= character ->
   PositionToOffset content (mkPosition line character)
   = Ok (refOffset content line character)
   /\ (len (splitLF content) <= line -> refOffset content line character = len content)
   /\ (forall l, splitLF content !! Z.to_nat line = Some l ->
                 utf16Len l <= character ->
                 refOffset content line character
                 = lineStart (splitLF content) (Z.to_nat line) + len l))
  /\ (PositionToOffset content (mkPosition line character) = Err ErrScan
      <-> exists (i : nat) (l : bytes),
            Z.of_nat i <= line /\ splitLF content !! i = Some l
            /\ maxScanTokenSize <= len l).
Proof.
  intros Hl. split.
  - intros Hwf Hc. split; [apply PositionToOffset_ref; assumption|].
    split; [apply refOffset_line_beyond|].
    intros l. apply refOffset_line_end.
  - rewrite PositionToOffset_ErrScan. cbn [Line].
    split; [intros [_ H]; exact H | intros H; split; [exact Hl | exact H]].
Qed.

Lemma PositionToOffset_agrees_with_reference_witness :
  PositionToOffset sampleText (mkPosition 0 3) = Ok (refOffset sampleText 0 3)
  /\ refOffset sampleText 0 3 = 5.
Proof.
  split.
  - apply (proj1 (PositionToOffset_agrees_with_reference sampleText 0 3 ltac:(lia)));
      [vm_compute; reflexivity | lia].
  - vm_compute. reflexivity.
Defined.

(** *** Where the scanner and the stated claim part *)

Lemma IndexByte_replicate (n : nat) (a c : byte) :
  a <> c -> GoStrings.IndexByte (replicate n a) c = -1.
Proof.
  intros Hne. induction n as [|n IH]; cbn [replicate GoStrings.IndexByte]; [reflexivity|].
  destruct (Byte.eqb a c) eqn:E; [apply byte_eqb_true in E; congruence|].
  rewrite IH. reflexivity.
Qed.

Lemma Scan_too_long (data : bytes) :
  GoStrings.IndexByte data LF = -1 -> maxScanTokenSize <= len data ->
  Scan data = Stop true.
Proof.
  intros Hi Hl. unfold Scan. destruct data as [|c d] eqn:E.
  - unfold len, maxScanTokenSize in Hl. cbn in Hl. lia.
  - rewrite <- E in *. rewrite Hi.
    replace (0 <=? -1) with false by reflexivity.
    replace (len data <? maxScanTokenSize) with false by lia. reflexivity.
Qed.

(** A line as long as the scanner's buffer makes every translation at or
    after it fail, whatever the sign of the position. *)
Lemma PositionToOffset_too_long (data : bytes) (pos : Position) :
  GoStrings.IndexByte data LF = -1 -> maxScanTokenSize <= len data ->
  0 <= Line pos ->
  PositionToOffset data pos = Err ErrScan.
Proof.
  intros Hi Hl Hp. unfold PositionToOffset.
  replace (Line pos <? 0) with false by lia.
  cbn [scanLoop]. rewrite Scan_too_long by assumption. reflexivity.
Qed.

(** C4, as stated, fails: a document of 65536 letters "a" on one line makes
    [PositionToOffset] return an error at the non-negative position (0, 0);
    and in "a" CR LF "b" the position (1, 0) is translated to offset 2, the
    line feed that ends line 0, while line 1 starts at offset 3. *)
Lemma PositionToOffset_counterexample :
  PositionToOffset (replicate (N.to_nat 65536) "a"%byte) (mkPosition 0 0) = Err ErrScan
  /\ (let content := [Byte.x61; CR; LF; Byte.x62] in
      PositionToOffset content (mkPosition 1 0) = Ok 2
      /\ content !! 2%nat = Some LF
      /\ content !! 3%nat = Some Byte.x62).
Proof.
  split.
  - apply PositionToOffset_too_long; cbn [Line].
    + apply IndexByte_replicate. discriminate.
    + unfold len, maxScanTokenSize. rewrite length_replicate. lia.
    + lia.
  - repeat split.
Qed.

End PositionFacts.

(** ** Context extraction *)

Module AnalyzerFacts.
Import Sitter Analyzer.

(** *** The tree cursor visits the tree in pre-order *)

Lemma preorder_unfold (n : Node) :
  preorder n = n :: flat_map preorder (Children n).
Proof. destruct n; reflexivity. Qed.

Lemma todo_first_child (c c' : TreeCursor) :
  GoToFirstChild c = Some c' -> todo c = cur c :: todo c'.
Proof.
  unfold GoToFirstChild, todo. destruct c as [n st]. cbn [cur stack].
  rewrite (preorder_unfold n).
  destruct (Children n) as [|k ks]; [discriminate|].
  intros [= <-]. cbn [cur stack stackTodo flat_map fRights app].
  rewrite <- ?app_assoc. reflexivity.
Qed.

Lemma todo_no_child (c : TreeCursor) :
  GoToFirstChild c = None -> todo c = cur c :: stackTodo (stack c).
Proof.
  unfold GoToFirstChild, todo. rewrite (preorder_unfold (cur c)).
  destruct (Children (cur c)); [reflexivity | discriminate].
Qed.

Lemma todo_next_sibling (c c' : TreeCursor) :
  GoToNextSibling c = Some c' -> todo c' = stackTodo (stack c).
Proof.
  unfold GoToNextSibling, todo. destruct (stack c) as [|f st]; [discriminate|].
  destruct (fRights f) as [|s ss] eqn:Hr; [discriminate|].
  intros [= <-]. cbn [cur stack stackTodo flat_map fRights]. rewrite Hr.
  cbn [flat_map]. rewrite <- ?app_assoc. reflexivity.
Qed.

Lemma stackTodo_no_sibling (c : TreeCursor) (f : Frame) (st : list Frame) :
  stack c = f :: st -> GoToNextSibling c = None -> stackTodo (stack c) = stackTodo st.
Proof.
  unfold GoToNextSibling. intros ->.
  destruct (fRights f) as [|s ss] eqn:Hr; [|discriminate].
  intros _. cbn [stackTodo flat_map]. rewrite Hr. reflexivity.
Qed.

Lemma climb_spec (fuel : nat) :
  forall c : TreeCursor,
    (length (stack c) <= fuel)%nat ->
    GoToNextSibling c = None ->
    (exists c', climb fuel c = Ok (Some c') /\ todo c' = stackTodo (stack c))
    \/ (climb fuel c = Ok None /\ stackTodo (stack c) = []).
Proof.
  induction fuel as [|fuel IH]; intros c Hlen Hsib.
  - destruct (stack c) as [|f st] eqn:Hst; [|cbn in Hlen; lia].
    right. cbn [climb]. unfold GoToParent. rewrite Hst. split; reflexivity.
  - destruct (stack c) as [|f st] eqn:Hst.
    + right. cbn [climb]. unfold GoToParent. rewrite Hst. split; reflexivity.
    + pose proof (stackTodo_no_sibling c f st Hst Hsib) as Hpop. rewrite Hst in Hpop.
      cbn [climb]. unfold GoToParent. rewrite Hst.
      destruct (GoToNextSibling (mkCursor (fParent f) st)) as [c2|] eqn:H2.
      * left. exists c2. split; [reflexivity|].
        rewrite (todo_next_sibling _ _ H2). cbn [stack]. symmetry. exact Hpop.
      * destruct (IH (mkCursor (fParent f) st)) as [(c' & Hc & Ht) | (Hc & Ht)];
          cbn [stack] in *; [cbn in Hlen; lia | exact H2 | |].
        -- left. exists c'. split; [exact Hc|]. rewrite Ht. symmetry. exact Hpop.
        -- right. split; [exact Hc|]. rewrite Hpop. exact Ht.
Qed.

Lemma preorder_nonempty (n : Node) : (0 < length (preorder n))%nat.
Proof. rewrite preorder_unfold. cbn. lia. Qed.

Lemma walkImports_spec (content : bytes) (languageID : string) (ts : gset string) (fuel : nat) :
  forall (c : TreeCursor) (st : ImportState),
    (length (todo c) <= fuel)%nat ->
    walkImports fuel content languageID ts c st
    = visitList content languageID ts (todo c) st.
Proof.
  induction fuel as [|fuel IH]; intros c st Hlen.
  - unfold todo in Hlen. rewrite length_app in Hlen.
    pose proof (preorder_nonempty (cur c)). lia.
  - cbn [walkImports]. unfold CurrentNode.
    destruct (GoToFirstChild c) as [c1|] eqn:H1.
    + rewrite (todo_first_child _ _ H1) in *. cbn [visitList length] in *.
      destruct (visitImport content languageID ts (cur c) st) as [st'| | |]; try reflexivity.
      cbn. apply IH. lia.
    + rewrite (todo_no_child _ H1) in *. cbn [visitList length] in *.
      destruct (visitImport content languageID ts (cur c) st) as [st'| | |]; try reflexivity.
      cbn.
      destruct (GoToNextSibling c) as [c2|] eqn:H2.
      * rewrite <- (todo_next_sibling _ _ H2) in *. apply IH. lia.
      * destruct (climb_spec (length (stack c)) c (le_n _) H2) as [(c' & Hc & Ht) | (Hc & Ht)];
          rewrite Hc; cbn.
        -- rewrite <- Ht in *. apply IH. lia.
        -- rewrite Ht. reflexivity.
Qed.

(** *** The import list *)

Lemma uint32_le (z : Z) : 0 <= z -> 0 <= uint32 z <= z.
Proof.
  intros Hz. unfold uint32. split.
  - apply Z.mod_pos_bound. lia.
  - apply Z.mod_le; lia.
Qed.

(** [getNodeText] never panics: the slice is taken only within bounds. *)
Lemma nodeText_ok (n : Node) (content : bytes) :
  exists t, nodeText n content = Ok t.
Proof.
  unfold nodeText.
  destruct ((nStart n <? 0) || (nEnd n <? 0) || (nEnd n <? nStart n)
            || (uint32 (len content) <? nEnd n)) eqn:E; [eauto|].
  repeat (apply orb_false_iff in E as [E ?]).
  pose proof (uint32_le (len content) (len_nonneg content)).
  unfold slice_checked.
  replace ((0 <=? nStart n) && (nStart n <=? nEnd n) && (nEnd n <=? len content))
    with true by lia.
  cbn. eauto.
Qed.

Lemma firstOccurrences_ext (s1 s2 l : list bytes) :
  (forall x, x ∈ s1 <-> x ∈ s2) -> firstOccurrences s1 l = firstOccurrences s2 l.
Proof.
  revert s1 s2. induction l as [|x r IH]; intros s1 s2 H; cbn [firstOccurrences]; [reflexivity|].
  destruct (bool_decide (x ∈ s1)) eqn:E1; destruct (bool_decide (x ∈ s2)) eqn:E2.
  - apply IH, H.
  - apply bool_decide_eq_true in E1. apply bool_decide_eq_false in E2. apply H in E1. tauto.
  - apply bool_decide_eq_true in E2. apply bool_decide_eq_false in E1. apply H in E2. tauto.
  - f_equal. apply IH. intros y. rewrite !elem_of_cons, H. tauto.
Qed.

Lemma visitImport_spec (content : bytes) (languageID : string) (ts : gset string)
      (n : Node) (st : ImportState) :
  let c := cleanedOne content languageID n in
  visitImport content languageID ts n st
  = Ok (if bool_decide (Kind n ∈ ts) && negb (bool_decide (c = []))
           && negb (default false (st.2 !! c))
        then (st.1 ++ [c], <[c := true]> st.2) else st).
Proof.
  unfold visitImport, cleanedOne.
  destruct (bool_decide (Kind n ∈ ts)); [|reflexivity].
  destruct (nodeText_ok n content) as [t ->]. cbn.
  destruct (negb (bool_decide (cleanImportText t languageID = []))
            && negb (default false (st.2 !! cleanImportText t languageID))); reflexivity.
Qed.

Lemma visitList_spec (content : bytes) (languageID : string) (ts : gset string)
      (types : list string) (l : list Node) :
  (forall k, k ∈ ts <-> k ∈ types) ->
  forall st : ImportState, marks st ->
    exists st', visitList content languageID ts l st = Ok st' /\ marks st' /\
                st'.1 = st.1 ++ firstOccurrences st.1 (cleanedOf content languageID types l).
Proof.
  intros Hts. induction l as [|n r IH]; intros st Hm.
  - exists st. cbn. rewrite app_nil_r. auto.
  - cbn [visitList]. rewrite visitImport_spec. cbn zeta.
    set (c := cleanedOne content languageID n).
    unfold cleanedOf. rewrite filter_cons.
    destruct (bool_decide (Kind n ∈ ts)) eqn:Ek.
    + apply bool_decide_eq_true in Ek. apply Hts in Ek.
      rewrite decide_True by exact Ek. cbn [map]. fold c. rewrite filter_cons.
      destruct (bool_decide (c = [])) eqn:Ec.
      * apply bool_decide_eq_true in Ec. rewrite decide_False by tauto.
        cbn. apply IH, Hm.
      * apply bool_decide_eq_false in Ec. rewrite decide_True by exact Ec.
        cbn [firstOccurrences negb andb].
        destruct (default false (st.2 !! c)) eqn:Ev; cbn [negb].
        -- apply Hm in Ev. rewrite bool_decide_eq_true_2 by exact Ev.
           cbn. apply IH, Hm.
        -- assert (Hn : c ∉ st.1) by (intros Hin; apply Hm in Hin; congruence).
           rewrite bool_decide_eq_false_2 by exact Hn.
           cbn.
           destruct (IH (st.1 ++ [c], <[c := true]> st.2)) as (st' & Hv & Hm' & Hst').
           { intros x. cbn [fst snd]. rewrite elem_of_app, list_elem_of_singleton.
             destruct (decide (x = c)) as [->|Hne].
             - rewrite lookup_insert_eq. cbn. tauto.
             - rewrite lookup_insert_ne by congruence. rewrite (Hm x). tauto. }
           exists st'. split; [exact Hv|]. split; [exact Hm'|].
           rewrite Hst'. cbn [fst]. rewrite <- app_assoc. cbn [app]. do 2 f_equal.
           apply firstOccurrences_ext. intros x.
           rewrite elem_of_app, list_elem_of_singleton, elem_of_cons. tauto.
    + apply bool_decide_eq_false in Ek.
      rewrite decide_False by (intros H; apply Ek, Hts, H).
      cbn. apply IH, Hm.
Qed.

Lemma cleanedOf_no_types (content : bytes) (languageID : string) (l : list Node) :
  cleanedOf content languageID [] l = [].
Proof.
  unfold cleanedOf. induction l as [|n r IH]; [reflexivity|].
  rewrite filter_cons, decide_False by (apply not_elem_of_nil). exact IH.
Qed.

Lemma specImports_unfold (content : bytes) (root : Node) (languageID : string) :
  specImports content root languageID
  = firstOccurrences [] (cleanedOf content languageID
                                   (tableGet importNodeTypes languageID) (preorder root)).
Proof. reflexivity. Qed.

Lemma extractImports_spec (content : bytes) (rootNode : NodeRef) (languageID : string) :
  extractImports content rootNode languageID
  = Ok (specImports content (node rootNode) languageID).
Proof.
  rewrite specImports_unfold. unfold extractImports, tableGet.
  destruct (importNodeTypes !! languageID) as [types|] eqn:Ht; cbn [default].
  2:{ rewrite cleanedOf_no_types. reflexivity. }
  destruct (bool_decide (0 < length types)%nat) eqn:El.
  - rewrite walkImports_spec.
    2:{ unfold todo, NewTreeCursor. cbn [cur stack stackTodo flat_map].
        rewrite app_nil_r. lia. }
    unfold todo, NewTreeCursor. cbn [cur stack stackTodo flat_map]. rewrite app_nil_r.
    destruct (visitList_spec content languageID (list_to_set types) types
                (preorder (node rootNode)) (fun k => elem_of_list_to_set k types) ([], ∅))
      as (st' & Hv & _ & Hst').
    { intros x. cbn [fst snd]. rewrite lookup_empty. cbn.
      split; [discriminate | intros H; inversion H]. }
    rewrite Hv. cbn. rewrite Hst'. reflexivity.
  - apply bool_decide_eq_false in El.
    destruct types; [|cbn in El; lia].
    rewrite cleanedOf_no_types. reflexivity.
Qed.

Lemma firstOccurrences_elem (seen l : list bytes) (x : bytes) :
  x ∈ firstOccurrences seen l <-> x ∈ l /\ x ∉ seen.
Proof.
  revert seen. induction l as [|y r IH]; intros seen; cbn [firstOccurrences].
  - split; [intros H; inversion H | intros [H _]; inversion H].
  - destruct (bool_decide (y ∈ seen)) eqn:E.
    + apply bool_decide_eq_true in E. rewrite IH, elem_of_cons.
      split; [tauto|]. intros [[->|H] Hn]; tauto.
    + apply bool_decide_eq_false in E. rewrite !elem_of_cons, IH, elem_of_cons.
      destruct (decide (x = y)) as [->|Hne]; tauto.
Qed.

Lemma firstOccurrences_NoDup (seen l : list bytes) : NoDup (firstOccurrences seen l).
Proof.
  revert seen. induction l as [|y r IH]; intros seen; cbn [firstOccurrences].
  - constructor.
  - destruct (bool_decide (y ∈ seen)); [apply IH|].
    constructor; [|apply IH].
    rewrite firstOccurrences_elem, elem_of_cons. tauto.
Qed.

(** *** Line boundaries and windows *)

Lemma index_checked_lookup {A} (s : list A) (i : nat) (x : A) :
  s !! i = Some x -> index_checked s (Z.of_nat i) = Some x.
Proof.
  intros H. unfold index_checked.
  pose proof (lookup_lt_Some _ _ _ H) as Hlt.
  replace ((0 <=? Z.of_nat i) && (Z.of_nat i <? len s)) with true by (unfold len; lia).
  rewrite Nat2Z.id. exact H.
Qed.

Lemma index_checked_lookupZ {A} (s : list A) (i : Z) (x : A) :
  0 <= i -> s !! Z.to_nat i = Some x -> index_checked s i = Some x.
Proof.
  intros Hi H. rewrite <- (Z2Nat.id i Hi). apply index_checked_lookup, H.
Qed.

Lemma slice_snoc {A} (s : list A) (a : Z) (j : nat) (x : A) :
  0 <= a <= Z.of_nat j -> s !! j = Some x ->
  slice s a (Z.of_nat j + 1) = slice s a (Z.of_nat j) ++ [x].
Proof.
  intros Ha Hx. rewrite <- (slice_app s a (Z.of_nat j) (Z.of_nat j + 1)) by lia.
  f_equal. unfold slice. rewrite Nat2Z.id.
  replace (Z.to_nat (Z.of_nat j + 1 - Z.of_nat j)) with 1%nat by lia.
  rewrite (drop_S _ _ _ Hx). reflexivity.
Qed.

Lemma slice_cons_lookup {A} (s : list A) (i : nat) (b : Z) (x : A) :
  Z.of_nat i < b -> s !! i = Some x ->
  slice s (Z.of_nat i) b = x :: slice s (Z.of_nat i + 1) b.
Proof.
  intros Hb Hx. unfold slice. rewrite Nat2Z.id.
  rewrite (drop_S _ _ _ Hx).
  replace (Z.to_nat (b - Z.of_nat i)) with (S (Z.to_nat (b - (Z.of_nat i + 1)))) by lia.
  replace (Z.to_nat (Z.of_nat i + 1)) with (S i) by lia.
  reflexivity.
Qed.

Lemma lineStartLoop_spec (content : bytes) (n : nat) :
  (n <= length content)%nat ->
  exists ls, lineStartLoop content n = Ok ls /\ (0 <= ls <= Z.of_nat n)
             /\ (LF ∉ slice content ls (Z.of_nat n))
             /\ (ls = 0 \/ content !! Z.to_nat (ls - 1) = Some LF).
Proof.
  induction n as [|j IH]; intros Hn.
  - exists 0. cbn [lineStartLoop]. rewrite slice_empty.
    split; [reflexivity|]; split; [lia|]; split; [apply not_elem_of_nil | left; reflexivity].
  - destruct (lookup_lt_is_Some_2 content j ltac:(lia)) as [b Hb].
    cbn [lineStartLoop]. rewrite (index_checked_lookup _ _ _ Hb). cbn.
    destruct (Byte.eqb b LF) eqn:E.
    + apply PositionFacts.byte_eqb_true in E. subst b.
      exists (Z.of_nat (S j)). rewrite slice_empty.
      split; [reflexivity|]. split; [lia|]. split; [apply not_elem_of_nil|].
      right. replace (Z.to_nat (Z.of_nat (S j) - 1)) with j by lia. exact Hb.
    + destruct (IH ltac:(lia)) as (ls & Hl & Hr & Hno & Hat).
      exists ls. split; [exact Hl|]. split; [lia|]. split; [|exact Hat].
      replace (Z.of_nat (S j)) with (Z.of_nat j + 1) by lia.
      rewrite (slice_snoc _ _ _ _ Hr Hb), elem_of_app, list_elem_of_singleton.
      intros [H | H]; [tauto|]. subst b.
      assert (Byte.eqb LF LF = true) by (apply PositionFacts.byte_eqb_true; reflexivity).
      congruence.
Qed.

Lemma lineEndLoop_spec (content : bytes) (fuel : nat) :
  forall i : Z,
    0 <= i <= len content -> len content - i <= Z.of_nat fuel ->
    exists le, lineEndLoop fuel content (len content) i = Ok le
               /\ (i <= le <= len content)
               /\ (LF ∉ slice content i le)
               /\ (le = len content \/ content !! Z.to_nat le = Some LF).
Proof.
  induction fuel as [|fuel IH]; intros i Hi Hf.
  - assert (i = len content) by lia. subst i.
    exists (len content). cbn [lineEndLoop]. rewrite Z.ltb_irrefl, slice_empty.
    split; [reflexivity|]; split; [lia|]; split; [apply not_elem_of_nil | left; reflexivity].
  - cbn [lineEndLoop]. destruct (i <? len content) eqn:E.
    2:{ assert (i = len content) by lia. subst i.
        exists (len content). rewrite slice_empty.
        split; [reflexivity|]; split; [lia|]; split; [apply not_elem_of_nil | left; reflexivity]. }
    destruct (lookup_lt_is_Some_2 content (Z.to_nat i) ltac:(unfold len in *; lia)) as [b Hb].
    rewrite (index_checked_lookupZ content i b ltac:(lia) Hb). cbn.
    destruct (Byte.eqb b LF) eqn:Eb.
    + apply PositionFacts.byte_eqb_true in Eb. subst b.
      exists i. rewrite slice_empty.
      split; [reflexivity|]; split; [lia|]; split; [apply not_elem_of_nil | right; exact Hb].
    + destruct (IH (i + 1) ltac:(lia) ltac:(lia)) as (le & Hl & Hr & Hno & Hat).
      exists le. split; [exact Hl|]. split; [lia|]. split; [|exact Hat].
      assert (Hc : slice content i le = b :: slice content (i + 1) le).
      { rewrite <- (Z2Nat.id i) by lia. apply slice_cons_lookup; [lia | exact Hb]. }
      rewrite Hc.
      rewrite elem_of_cons. intros [H | H]; [|tauto]. subst b.
      assert (Byte.eqb LF LF = true) by (apply PositionFacts.byte_eqb_true; reflexivity).
      congruence.
Qed.

Lemma window_spec (content : bytes) (lo hi : Z) :
  0 <= lo -> hi <= len content -> window content lo hi = Ok (slice content lo hi).
Proof.
  intros Hlo Hhi. unfold window. destruct (lo <? hi) eqn:E.
  - unfold slice_checked.
    replace ((0 <=? lo) && (lo <=? hi) && (hi <=? len content)) with true by lia.
    reflexivity.
  - unfold slice. replace (Z.to_nat (hi - lo)) with 0%nat by lia. reflexivity.
Qed.

Lemma optNodeInfo_ok (content : bytes) (r : option NodeRef) :
  exists ni, optNodeInfo content r = Ok ni.
Proof.
  destruct r as [r|]; [|cbn; eauto].
  unfold optNodeInfo, nodeInfo.
  destruct (nodeText_ok (node r) content) as [t ->]. cbn. eauto.
Qed.

Lemma clampOffset_range (content : bytes) (off : Z) :
  0 <= clampOffset content off <= len content.
Proof.
  unfold clampOffset. pose proof (len_nonneg content).
  destruct (off <? 0) eqn:?; [lia|]. destruct (len content <? off) eqn:?; lia.
Qed.

Lemma clampOffset_idem (content : bytes) (off : Z) :
  clampOffset content (clampOffset content off) = clampOffset content off.
Proof.
  pose proof (clampOffset_range content off) as H.
  unfold clampOffset at 1.
  destruct (clampOffset content off <? 0) eqn:?; [lia|].
  destruct (len content <? clampOffset content off) eqn:?; [lia|]. reflexivity.
Qed.

Section Extract.
Variable NDPR : NodeRef -> Point -> Point -> option NodeRef.

(** What [ExtractContext] returns for a non-nil root: the current line is
    [content[ls:le]], a maximal run without line feed around the clamped
    offset, and every field is a slice of the document. *)
Lemma ExtractContext_spec (content : bytes) (root : NodeRef) (passed : option NodeRef)
      (off : Z) (languageID filename : string) :
  let o := clampOffset content off in
  exists (ls le : Z) (ci ei : option NodeInfo),
    (0 <= ls <= o) /\ (o <= le <= len content)
    /\ (LF ∉ slice content ls le)
    /\ (ls = 0 \/ content !! Z.to_nat (ls - 1) = Some LF)
    /\ (le = len content \/ content !! Z.to_nat le = Some LF)
    /\ ExtractContext NDPR content (Some root) passed off languageID filename
       = Ok {| LanguageID := languageID;
               Filename := filename;
               Prefix := slice content (Z.max 0 (ls - prefixContextBytes)) ls;
               Suffix := slice content (Z.min (len content) (le + 1))
                               (Z.min (len content) (Z.min (len content) (le + 1) + suffixContextBytes));
               CurrentLinePrefix := slice content ls o;
               CurrentLineSuffix := slice content o le;
               CursorNode := ci;
               EnclosingNode := ei;
               Imports := specImports content (node root) languageID |}.
Proof.
  intros o.
  pose proof (clampOffset_range content off) as Ho. fold o in Ho.
  destruct (lineStartLoop_spec content (Z.to_nat o) ltac:(unfold len in Ho; lia))
    as (ls & Hls & Hlsr & Hlsno & Hlsat).
  destruct (lineEndLoop_spec content (length content) o Ho ltac:(unfold len in *; lia))
    as (le & Hle & Hler & Hleno & Hleat).
  rewrite Z2Nat.id in Hlsr, Hlsno by lia.
  unfold ExtractContext. fold (clampOffset content off). fold o.
  set (point := calculatePointFromOffset content o).
  set (cursorNode := match passed with Some n => Some n | None => NDPR root point point end).
  destruct (optNodeInfo_ok content cursorNode) as [ci Hci].
  set (encl := findAncestorOfType
                 match cursorNode with Some n => Some n | None => NDPR root point point end
                 (tableGet functionNodeTypes languageID ++ tableGet classNodeTypes languageID)).
  destruct (optNodeInfo_ok content encl) as [ei Hei].
  exists ls, le, ci, ei.
  split; [lia|]. split; [lia|]. split.
  { rewrite <- (slice_app content ls o le) by lia.
    rewrite elem_of_app. tauto. }
  split; [exact Hlsat|]. split; [exact Hleat|].
  rewrite Hci. cbn [mbind result_bind bind]. rewrite Hls. cbn [mbind result_bind bind].
  rewrite Hle. cbn [mbind result_bind bind].
  assert (Hclamp : clampTo ls le o = o).
  { unfold clampTo. destruct (o <? ls) eqn:?; [lia|]. destruct (le <? o) eqn:?; lia. }
  rewrite Hclamp.
  rewrite (window_spec content ls o) by lia. cbn [mbind result_bind bind].
  rewrite (window_spec content o le) by lia. cbn [mbind result_bind bind].
  assert (Hps : (if ls - prefixContextBytes <? 0 then 0 else ls - prefixContextBytes)
                = Z.max 0 (ls - prefixContextBytes)).
  { destruct (ls - prefixContextBytes <? 0) eqn:?; lia. }
  rewrite Hps. rewrite (window_spec content _ ls) by lia. cbn [mbind result_bind bind].
  assert (Hskip : (if le <? len content
                   then b ← orPanic (index_checked content le); Ok (Byte.eqb b LF)
                   else Ok false) = Ok (le <? len content)).
  { destruct (le <? len content) eqn:E; [|reflexivity].
    destruct Hleat as [Heq | Hat]; [lia|].
    rewrite (index_checked_lookupZ content le LF ltac:(lia) Hat). reflexivity. }
  rewrite Hskip. cbn [mbind result_bind bind].
  assert (Hss : (if le <? len content then le + 1 else le) = Z.min (len content) (le + 1)).
  { destruct (le <? len content) eqn:?; lia. }
  rewrite Hss.
  set (ss := Z.min (len content) (le + 1)).
  assert (Hse : (if len content <? ss + suffixContextBytes then len content
                 else ss + suffixContextBytes)
                = Z.min (len content) (ss + suffixContextBytes)).
  { destruct (len content <? ss + suffixContextBytes) eqn:?; lia. }
  rewrite Hse. rewrite (window_spec content ss) by lia. cbn [mbind result_bind bind].
  rewrite extractImports_spec. cbn [mbind result_bind bind].
  fold encl. rewrite Hei. reflexivity.
Qed.

(** C10.  [ExtractContext] returns an error exactly when the root node is
    nil.  For a non-nil root it returns a [ContextInfo] (no error, no panic)
    carrying the language id and file name it was given, the result is the
    one for the cursor offset clamped into [0, len content], and on an empty
    document the four text windows are the empty string. *)
Theorem ExtractContext_error_iff_nil_root (content : bytes) (root : NodeRef)
        (passed : option NodeRef) (off : Z) (languageID filename : string) :
  ExtractContext NDPR content None passed off languageID filename = Err
  /\ (exists ctx,
        ExtractContext NDPR content (Some root) passed off languageID filename = Ok ctx
        /\ LanguageID ctx = languageID /\ Filename ctx = filename)
  /\ ExtractContext NDPR content (Some root) passed off languageID filename
     = ExtractContext NDPR content (Some root) passed (clampOffset content off)
                      languageID filename
  /\ (0 <= clampOffset content off <= len content)
  /\ (exists ctx,
        ExtractContext NDPR [] (Some root) passed off languageID filename = Ok ctx
        /\ Prefix ctx = [] /\ Suffix ctx = []
        /\ CurrentLinePrefix ctx = [] /\ CurrentLineSuffix ctx = []).
Proof.
  split; [reflexivity|]. split.
  { destruct (ExtractContext_spec content root passed off languageID filename)
      as (ls & le & ci & ei & _ & _ & _ & _ & _ & H).
    eexists. split; [exact H|]. split; reflexivity. }
  split.
  { unfold ExtractContext. fold (clampOffset content off).
    fold (clampOffset content (clampOffset content off)).
    rewrite clampOffset_idem. reflexivity. }
  split; [apply clampOffset_range|].
  destruct (ExtractContext_spec [] root passed off languageID filename)
    as (ls & le & ci & ei & _ & _ & _ & _ & _ & H).
  eexists. split; [exact H|]. cbn [Prefix Suffix CurrentLinePrefix CurrentLineSuffix].
  unfold slice. rewrite !drop_nil, !take_nil. repeat split.
Qed.

(** C6 (amended).  The prefix window holds at most 2048 bytes and the suffix
    window at most 256, whatever the size of the document.  The current line
    has no cap of its own: its two parts together are the whole line around
    the cursor, from the byte after the preceding line feed (or the start of
    the document) up to the next line feed (or the end of the document).
    [Prefix ++ CurrentLinePrefix] is the run of bytes that ends at the
    (clamped) cursor offset. *)
Theorem ExtractContext_windows (content : bytes) (root : NodeRef)
        (passed : option NodeRef) (off : Z) (languageID filename : string) :
  exists (ctx : ContextInfo) (ls le : Z),
    ExtractContext NDPR content (Some root) passed off languageID filename = Ok ctx
    /\ len (Prefix ctx) <= prefixContextBytes
    /\ len (Suffix ctx) <= suffixContextBytes
    /\ Prefix ctx ++ CurrentLinePrefix ctx
       = slice content
               (clampOffset content off - len (Prefix ctx ++ CurrentLinePrefix ctx))
               (clampOffset content off)
    /\ CurrentLinePrefix ctx ++ CurrentLineSuffix ctx = slice content ls le
    /\ (0 <= ls <= clampOffset content off) /\ (clampOffset content off <= le <= len content)
    /\ (LF ∉ slice content ls le)
    /\ (ls = 0 \/ content !! Z.to_nat (ls - 1) = Some LF)
    /\ (le = len content \/ content !! Z.to_nat le = Some LF).
Proof.
  destruct (ExtractContext_spec content root passed off languageID filename)
    as (ls & le & ci & ei & Hls & Hle & Hno & Hlsat & Hleat & H).
  eexists. exists ls, le. split; [exact H|].
  cbn [Prefix Suffix CurrentLinePrefix CurrentLineSuffix].
  set (o := clampOffset content off) in *.
  pose proof (len_nonneg content) as Hlen.
  unfold prefixContextBytes, suffixContextBytes in *.
  split; [rewrite len_slice by lia; lia|].
  split; [rewrite len_slice by lia; lia|].
  split.
  { rewrite slice_app by lia. rewrite len_slice by lia.
    f_equal. lia. }
  split; [apply slice_app; lia|].
  tauto.
Qed.

(** C8.  The import list of the returned context is the list the
    specification describes: the cleaned texts of the import-kind nodes met
    in one pre-order traversal of the whole tree, those that clean to the
    empty string left out, each kept at its first occurrence only.  It has
    no duplicates, contains no empty string, has exactly the strings of the
    traversal, and is empty for a language without import kinds. *)
Theorem ExtractContext_imports (content : bytes) (root : NodeRef)
        (passed : option NodeRef) (off : Z) (languageID filename : string) :
  exists ctx : ContextInfo,
    ExtractContext NDPR content (Some root) passed off languageID filename = Ok ctx
    /\ Imports ctx = specImports content (node root) languageID
    /\ NoDup (Imports ctx)
    /\ ([] ∉ Imports ctx)
    /\ (forall x, x ∈ Imports ctx
                  <-> x ∈ cleanedImports content (node root) languageID
                                         (tableGet importNodeTypes languageID))
    /\ (importNodeTypes !! languageID = None -> Imports ctx = []).
Proof.
  destruct (ExtractContext_spec content root passed off languageID filename)
    as (ls & le & ci & ei & _ & _ & _ & _ & _ & H).
  eexists. split; [exact H|]. cbn [Imports].
  split; [reflexivity|].
  split; [apply firstOccurrences_NoDup|].
  assert (Hel : forall x, x ∈ specImports content (node root) languageID
                          <-> x ∈ cleanedImports content (node root) languageID
                                                 (tableGet importNodeTypes languageID)).
  { intros x. unfold specImports. rewrite firstOccurrences_elem.
    split; [tauto|]. intros Hx. split; [exact Hx | apply not_elem_of_nil]. }
  split.
  { rewrite Hel. unfold cleanedImports. rewrite list_elem_of_filter. tauto. }
  split; [exact Hel|].
  intros Hnone. rewrite specImports_unfold. unfold tableGet. rewrite Hnone. cbn [default].
  rewrite cleanedOf_no_types. reflexivity.
Qed.

End Extract.

(** On a document without line feed the text before the cursor is all in
    [CurrentLinePrefix]. *)
Lemma ExtractContext_single_line (content : bytes) (root : NodeRef) :
  LF ∉ content ->
  exists ctx,
    ExtractContext noDescendant content (Some root) None (len content) "go" "a.go" = Ok ctx
    /\ CurrentLinePrefix ctx = content.
Proof.
  intros Hno.
  destruct (ExtractContext_spec noDescendant content root None (len content) "go" "a.go")
    as (ls & le & ci & ei & Hls & Hle & _ & Hlsat & _ & H).
  eexists. split; [exact H|]. cbn [CurrentLinePrefix].
  assert (Ho : clampOffset content (len content) = len content).
  { unfold clampOffset. pose proof (len_nonneg content).
    destruct (len content <? 0) eqn:?; [lia|]. rewrite Z.ltb_irrefl. reflexivity. }
  rewrite Ho in *.
  destruct Hlsat as [-> | Hat]; [apply slice_full|].
  exfalso. apply Hno. eapply list_elem_of_lookup_2. exact Hat.
Qed.

Lemma replicate_no_LF (n : nat) : LF ∉ replicate n Byte.x61.
Proof. intros H. apply elem_of_replicate in H as [H _]. discriminate. Qed.

(** C6, as stated, fails for the current-line window: on a document of 3000
    letters "a" without line feed and the cursor at its end,
    [CurrentLinePrefix] holds all 3000 bytes, more than either cap; and no
    bound whatsoever holds for every document. *)
Lemma ExtractContext_current_line_unbounded :
  (exists ctx,
     ExtractContext noDescendant (replicate (Z.to_nat 3000) Byte.x61)
                    (Some (RootNode (MkNode "source_file" 0 3000 []))) None 3000 "go" "a.go"
     = Ok ctx
     /\ len (CurrentLinePrefix ctx) = 3000
     /\ prefixContextBytes < len (CurrentLinePrefix ctx))
  /\ ~ (exists cap : Z,
          forall (content : bytes) (off : Z) (ctx : ContextInfo),
            ExtractContext noDescendant content
                           (Some (RootNode (MkNode "source_file" 0 (len content) [])))
                           None off "go" "a.go" = Ok ctx ->
            len (CurrentLinePrefix ctx) <= cap).
Proof.
  split.
  - destruct (ExtractContext_single_line (replicate (Z.to_nat 3000) Byte.x61)
                (RootNode (MkNode "source_file" 0 3000 [])) (replicate_no_LF _))
      as (ctx & H & Hp).
    assert (Hl : len (replicate (Z.to_nat 3000) Byte.x61) = 3000).
    { unfold len. rewrite length_replicate. lia. }
    rewrite Hl in H. exists ctx. split; [exact H|].
    rewrite Hp, Hl. unfold prefixContextBytes. lia.
  - intros [cap Hcap].
    set (content := replicate (Z.to_nat (Z.max 0 cap + 1)) Byte.x61).
    destruct (ExtractContext_single_line content
                (RootNode (MkNode "source_file" 0 (len content) [])) (replicate_no_LF _))
      as (ctx & H & Hp).
    specialize (Hcap content (len content) ctx H).
    rewrite Hp in Hcap. unfold content, len in Hcap.
    rewrite length_replicate in Hcap. lia.
Qed.

End AnalyzerFacts.

(** ** Cleaning of the backend's reply *)

Module AIFacts.
Import AI.

Lemma HasPrefix_nil (s : bytes) : GoStrings.HasPrefix s [] = true.
Proof. destruct s; reflexivity. Qed.

Lemma Index_one_byte (s : bytes) (c : byte) :
  GoStrings.Index s [c] = GoStrings.IndexByte s c.
Proof.
  induction s as [|d s IH]; [reflexivity|].
  cbn [GoStrings.Index GoStrings.IndexByte GoStrings.HasPrefix].
  rewrite HasPrefix_nil, andb_true_r.
  assert (E : Byte.eqb c d = Byte.eqb d c).
  { destruct (Byte.eqb c d) eqn:E1; destruct (Byte.eqb d c) eqn:E2; try reflexivity.
    - apply PositionFacts.byte_eqb_true in E1. subst.
      rewrite (proj2 (PositionFacts.byte_eqb_true d d) eq_refl) in E2. discriminate.
    - apply PositionFacts.byte_eqb_true in E2. subst.
      rewrite (proj2 (PositionFacts.byte_eqb_true c c) eq_refl) in E1. discriminate. }
  rewrite E, IH. reflexivity.
Qed.

(** Before its first occurrence a byte does not occur. *)
Lemma IndexByte_before (s : bytes) (c : byte) :
  (GoStrings.IndexByte s c = -1 /\ c ∉ s)
  \/ (0 <= GoStrings.IndexByte s c /\ c ∉ slice s 0 (GoStrings.IndexByte s c)).
Proof.
  induction s as [|d s IH].
  - left. split; [reflexivity | apply not_elem_of_nil].
  - cbn [GoStrings.IndexByte]. destruct (Byte.eqb d c) eqn:E.
    + right. split; [lia|]. rewrite slice_empty. apply not_elem_of_nil.
    + assert (Hne : c <> d).
      { intros ->. rewrite (proj2 (PositionFacts.byte_eqb_true d d) eq_refl) in E. discriminate. }
      destruct IH as [[Hi Hno] | [Hi Hno]].
      * left. rewrite Hi. cbn. split; [reflexivity|].
        rewrite not_elem_of_cons. tauto.
      * right. replace (GoStrings.IndexByte s c <? 0) with false by lia.
        split; [lia|]. rewrite slice_cons by lia.
        rewrite not_elem_of_cons. tauto.
Qed.

Section Clean.
Variable ToLower : bytes -> bytes.

Lemma cleanSuggestions_no_newline (rawResponse : bytes) (languageID : string) :
  LF ∉ cleanSuggestions ToLower rawResponse languageID.
Proof.
  unfold cleanSuggestions. cbn zeta.
  set (cleaned := GoStrings.TrimSpace _).
  rewrite Index_one_byte.
  destruct (IndexByte_before cleaned LF) as [[Hi Hno] | [Hi Hno]].
  - rewrite Hi. cbn. exact Hno.
  - replace (GoStrings.IndexByte cleaned LF =? -1) with false by lia. cbn. exact Hno.
Qed.

(** C9 (amended).  The text [cleanSuggestions] returns contains no newline,
    whatever the raw reply and the language id; hence the single completion
    item built from the suggestion of a backend that cleans its reply with
    [cleanSuggestions] (OpenAI, Anthropic, Gemini, Ollama) is one line, in
    the popup and in the inline envelope.  The Azure backend cleans with
    [cleanEndTokenAndFences] and is not covered. *)
Theorem cleanSuggestions_single_line (rawResponse : bytes) (languageID : string)
        (p : Provider) :
  (LF ∉ cleanSuggestions ToLower rawResponse languageID)
  /\ (p <> Azure ->
      (LF ∉ suggestionOf ToLower p rawResponse languageID)
      /\ Server.suggestionList Server.Popup (suggestionOf ToLower p rawResponse languageID)
         = Server.RCompletionList false
             [Server.completionItem (cleanSuggestions ToLower rawResponse languageID)]
      /\ Server.suggestionList Server.Inline (suggestionOf ToLower p rawResponse languageID)
         = Server.RInlineCompletionList
             [Server.mkInlineItem (cleanSuggestions ToLower rawResponse languageID)]
      /\ (LF ∉ Server.InsertText
                 (Server.completionItem (cleanSuggestions ToLower rawResponse languageID)))
      /\ (LF ∉ Server.Label
                 (Server.completionItem (cleanSuggestions ToLower rawResponse languageID)))).
Proof.
  split; [apply cleanSuggestions_no_newline|].
  intros Hp.
  assert (Hs : suggestionOf ToLower p rawResponse languageID
               = cleanSuggestions ToLower rawResponse languageID)
    by (destruct p; [reflexivity | congruence | reflexivity ..]).
  rewrite Hs. repeat split; apply cleanSuggestions_no_newline.
Qed.

End Clean.

(** C9, as stated, fails in its conclusion: with the Azure backend the
    completion item delivered to the client holds a newline. *)
Lemma completion_item_with_newline :
  suggestionOf GoStrings.asciiToLower Azure (B "a := 1" ++ [LF] ++ B "b := 2") "go"
  = B "a := 1" ++ [LF] ++ B "b := 2"
  /\ option_map (fun s => last (Server.output sampleEnv s))
       (Server.steps sampleEnv
          (Server.NewServer sampleEnv (Some sampleManager) (Some azureClient)) azureSession)
     = Some (Some (Server.Response 2
                     (Server.RCompletionList false
                        [Server.mkCompletionItem
                           (B "a := 1" ++ [LF] ++ B "b := 2")
                           (B "a := 1" ++ [LF] ++ B "b := 2")
                           Server.InsertTextFormatPlainText "(Grasshopper AI)"])
                     None))
  /\ LF ∈ B "a := 1" ++ [LF] ++ B "b := 2".
Proof.
  split; [vm_compute; reflexivity|].
  split; [vm_compute; reflexivity|].
  rewrite elem_of_app. right. left.
Qed.

End AIFacts.

(** ** The server *)

Module ServerFacts.
Import Sitter Server.

Section WithEnv.
Context (E : Env).

Ltac srv_unfold :=
  unfold handleInitialize, handleInitialized, handleShutdown, handleExit,
    handleDidOpen, handleDidSave, handleDidClose, handleDidChange,
    debounceCallback, expire, runCallback, afterFunc, stopTimer,
    logToClient, sendNotification, sendResponse, ok, failed, isInitialized,
    write, observe, setInitialized, setShutdown, setDocuments, setDebounceTimers,
    setTimers in *.

Ltac srv_cbn :=
  cbn [fst snd initialized shutdown documents parser aiClient debounceTimers timers
       nextTimer output trace negb] in *.

Ltac srv_case :=
  match goal with
  | |- context [match ?x with _ => _ end] => destruct x eqn:?
  end; srv_cbn.

Ltac srv_auto := srv_unfold; srv_cbn; repeat srv_case; try reflexivity; try congruence.

Lemma Parse_error_no_tree (m : Manager E) (langID : string) (oldTree : option Sitter.Tree)
      (content : bytes) (t : option Sitter.Tree) :
  Parse E m langID oldTree content = (t, true) -> t = None.
Proof.
  unfold Parse. destruct (langMap E m !! langID) as [[lang|]|];
    [destruct (ParseCtx E lang oldTree content)|..]; congruence.
Qed.

(** *** [parseDocument] *)

Lemma parseDocument_no_parser (s : Server E) uri langID content oldTree :
  parser E s = None -> parseDocument E s uri langID content oldTree = s.
Proof. unfold parseDocument. intros ->. reflexivity. Qed.

Lemma parseDocument_core (s : Server E) uri langID content oldTree :
  core (parseDocument E s uri langID content oldTree) = core s.
Proof. unfold parseDocument, core. srv_auto. Qed.

Lemma parseDocument_documents (s : Server E) (m : Manager E) uri langID content oldTree :
  parser E s = Some m ->
  documents E (parseDocument E s uri langID content oldTree)
  = match documents E s !! uri with
    | Some currentState =>
        <[uri := setTree currentState (parsedTree m langID oldTree content)]> (documents E s)
    | None => documents E s
    end.
Proof.
  intros Hm. unfold parseDocument, parsedTree. rewrite Hm.
  destruct (Parse E m langID oldTree content) as [t e] eqn:HP. cbn [fst].
  destruct e.
  - apply Parse_error_no_tree in HP. subst t. srv_auto.
  - srv_auto.
Qed.

Lemma parseDocument_trace (s : Server E) uri langID content oldTree :
  trace E (parseDocument E s uri langID content oldTree)
  = trace E s ++ match parser E s with
                 | Some _ => [EvParse uri langID content oldTree]
                 | None => []
                 end.
Proof.
  unfold parseDocument. destruct (parser E s); [|rewrite app_nil_r; reflexivity].
  srv_auto.
Qed.

Lemma parseDocument_output (s : Server E) uri langID content oldTree :
  exists ns, output E (parseDocument E s uri langID content oldTree) = output E s ++ ns
             /\ Forall isNotification ns.
Proof.
  unfold parseDocument. destruct (parser E s).
  2:{ exists []. rewrite app_nil_r. split; [reflexivity | constructor]. }
  destruct (Parse E m langID oldTree content) as [t e].
  destruct e; srv_unfold; srv_cbn.
  - destruct (initialized E s); srv_cbn.
    + exists [Notification "window/logMessage"]. split; [srv_auto|].
      repeat constructor.
    + exists []. rewrite app_nil_r. split; [srv_auto | constructor].
  - exists []. rewrite app_nil_r. split; [srv_auto | constructor].
Qed.

Lemma core_parser (s s' : Server E) : core s' = core s -> parser E s' = parser E s.
Proof. unfold core. congruence. Qed.

Lemma core_initialized (s s' : Server E) :
  core s' = core s -> initialized E s' = initialized E s.
Proof. unfold core. congruence. Qed.

Lemma core_timers (s s' : Server E) :
  core s' = core s ->
  debounceTimers E s' = debounceTimers E s /\ timers E s' = timers E s
  /\ nextTimer E s' = nextTimer E s.
Proof. unfold core. intros H. repeat split; congruence. Qed.

(** *** The completion pipeline *)

Lemma serveCompletion_core v (s : Server E) id ai uri pos text tree lang :
  core (serveCompletion E v s id ai uri pos text tree lang).1 = core s
  /\ documents E (serveCompletion E v s id ai uri pos text tree lang).1 = documents E s.
Proof. unfold serveCompletion, core. split; srv_auto. Qed.

Lemma serveCompletion_trace v (s : Server E) id ai uri pos text tree lang :
  trace E (serveCompletion E v s id ai uri pos text tree lang).1
  = trace E s ++ match Position.PositionToOffset text pos with
                 | Position.Ok byteOffset => [EvExtractContext uri text tree byteOffset]
                 | _ => []
                 end.
Proof.
  unfold serveCompletion.
  destruct (Position.PositionToOffset text pos); [|rewrite app_nil_r; reflexivity ..].
  srv_auto.
Qed.

Lemma serveCompletion_output v (s : Server E) id ai uri pos text tree lang :
  exists r, output E (serveCompletion E v s id ai uri pos text tree lang).1
            = output E s ++ [Response id r None].
Proof. unfold serveCompletion. srv_auto; eexists; reflexivity. Qed.

(** *** Invariants of the reachable states *)

Lemma steps_invariant (P : Server E -> Prop) :
  (forall pm ai, P (NewServer E pm ai)) ->
  (forall s e s', P s -> step E s e = Some s' -> P s') ->
  forall s, Reachable E s -> P s.
Proof.
  intros Hinit Hstep s (pm & ai & es & Hs).
  assert (Hgen : forall es s0, P s0 -> steps E s0 es = Some s -> P s).
  { clear es Hs. induction es as [|e es IH]; intros s0 H0 Hs; cbn [steps] in Hs.
    - congruence.
    - destruct (step E s0 e) as [s1|] eqn:H1; [|discriminate].
      eapply IH; [|exact Hs]. eapply Hstep; eauto. }
  eapply Hgen; [apply Hinit | exact Hs].
Qed.

Lemma freshTree_core v (s : Server E) id uri text tree lang :
  match freshTree E v s id uri text tree lang with
  | inl h => core h.1 = core s
               /\ (parser E s = None -> documents E h.1 = documents E s)
  | inr (s', _, _) => core s' = core s
                        /\ (parser E s = None -> documents E s' = documents E s)
  end.
Proof.
  unfold freshTree.
  pose proof (parseDocument_core s uri lang text None) as Hc.
  pose proof (parseDocument_no_parser s uri lang text None) as Hn.
  destruct (stale text tree).
  - set (s1 := parseDocument E s uri lang text None) in *.
    destruct (documents E s1 !! uri) as [d|].
    + destruct (Tree d); (split; [exact Hc | intros Hp; rewrite (Hn Hp); reflexivity]).
    + split; [exact Hc | intros Hp; rewrite (Hn Hp); reflexivity].
  - destruct tree; (split; [reflexivity | reflexivity]).
Qed.

Lemma completionHandler_core v (s : Server E) (req : RequestMessage E) :
  core (completionHandler v s req).1 = core s
  /\ (parser E s = None -> documents E (completionHandler v s req).1 = documents E s).
Proof.
  destruct v; unfold completionHandler, handleCompletion, handleInlineCompletion.
  - destruct (negb (isInitialized E s)); [split; reflexivity|].
    destruct (ID E req) as [id|]; [|split; reflexivity].
    destruct (unmarshalCompletion E (Params E req)) as [params|]; [|split; reflexivity].
    destruct (documents E s !! posURI params) as [d|] eqn:Hd; [|split; reflexivity].
    pose proof (freshTree_core Popup s id (posURI params) (Text d) (Tree d) (LanguageID d)) as Hf.
    destruct (freshTree E Popup s id (posURI params) (Text d) (Tree d) (LanguageID d))
      as [h | [[s1 text] tree]]; [exact Hf|].
    destruct Hf as [Hc Hdocs].
    destruct (aiClient E s) as [ai|]; [|exact (conj Hc Hdocs)].
    destruct (serveCompletion_core Popup s1 id ai (posURI params) (posPosition params)
                                   text tree (LanguageID d)) as [Hc' Hd'].
    split; [congruence | intros Hp; rewrite Hd'; auto].
  - destruct (negb (isInitialized E s)); [split; reflexivity|].
    destruct (ID E req) as [id|]; [|split; reflexivity].
    destruct (unmarshalInlineCompletion E (Params E req)) as [params|]; [|split; reflexivity].
    destruct (documents E s !! posURI params) as [d|] eqn:Hd; [|split; reflexivity].
    destruct (aiClient E s) as [ai|]; [|split; reflexivity].
    pose proof (freshTree_core Inline s id (posURI params) (Text d) (Tree d) (LanguageID d)) as Hf.
    destruct (freshTree E Inline s id (posURI params) (Text d) (Tree d) (LanguageID d))
      as [h | [[s1 text] tree]]; [exact Hf|].
    destruct Hf as [Hc Hdocs].
    destruct (serveCompletion_core Inline s1 id ai (posURI params) (posPosition params)
                                   text tree (LanguageID d)) as [Hc' Hd'].
    split; [congruence | intros Hp; rewrite Hd'; auto].
Qed.

Lemma treesNone_insert docs uri d :
  treesNone docs -> Tree d = None -> treesNone (<[uri := d]> docs).
Proof.
  intros H Hd u d'. destruct (decide (uri = u)) as [->|Hne].
  - rewrite lookup_insert_eq. congruence.
  - rewrite lookup_insert_ne by exact Hne. apply H.
Qed.

Lemma treesNone_delete docs uri : treesNone docs -> treesNone (delete uri docs).
Proof.
  intros H u d'. destruct (decide (uri = u)) as [->|Hne].
  - rewrite lookup_delete_eq. discriminate.
  - rewrite lookup_delete_ne by exact Hne. apply H.
Qed.

(** Case analysis on the method a message is dispatched on. *)
Lemma handleMessage_elim (P : Server E * bool -> Prop) (s : Server E)
      (req : RequestMessage E) :
  P ((handleInitialize E s req).1, false) ->
  P ((handleInitialized E s req).1, false) ->
  P ((handleShutdown E s req).1, false) ->
  P ((handleExit E s req).1, true) ->
  P ((handleDidOpen E s req).1, false) ->
  P ((handleDidChange E s req).1, false) ->
  P ((handleDidSave E s req).1, false) ->
  P ((handleDidClose E s req).1, false) ->
  P ((completionHandler Inline s req).1, false) ->
  P ((completionHandler Popup s req).1, false) ->
  P (s, false) ->
  (forall id, ID E req = Some id ->
              P (sendResponse E s id RNull
                              (Some (mkError MethodNotFound
                                       ("Method not supported: " ++ Method E req))), false)) ->
  P (handleMessage E s (Some req)).
Proof.
  intros. unfold handleMessage.
  repeat match goal with
         | |- context [if String.eqb ?a ?b then _ else _] => destruct (String.eqb a b)
         end; try assumption.
  destruct (ID E req) as [id|] eqn:Hid; [auto | assumption].
Qed.

(** The parser manager is fixed when the server is created. *)
Lemma handleMessage_parser (s : Server E) (d : option (RequestMessage E)) :
  parser E (handleMessage E s d).1 = parser E s.
Proof.
  destruct d as [req|]; [|reflexivity].
  apply (handleMessage_elim (fun r => parser E r.1 = parser E s)); cbn [fst];
    try (apply core_parser, (completionHandler_core Popup));
    try (apply core_parser, (completionHandler_core Inline));
    try solve [srv_auto].
  unfold handleDidOpen. srv_unfold. srv_cbn.
  repeat srv_case; try reflexivity.
  apply core_parser. rewrite parseDocument_core. reflexivity.
Qed.

Lemma handleMessage_no_parser (s : Server E) (d : option (RequestMessage E)) :
  parser E s = None -> treesNone (documents E s) ->
  treesNone (documents E (handleMessage E s d).1).
Proof.
  intros Hp Hn. destruct d as [req|]; [|exact Hn].
  apply (handleMessage_elim (fun r => treesNone (documents E r.1))); cbn [fst];
    try (rewrite (proj2 (completionHandler_core Popup s req) Hp); exact Hn);
    try (rewrite (proj2 (completionHandler_core Inline s req) Hp); exact Hn);
    try solve [srv_unfold; srv_cbn; repeat srv_case; try exact Hn;
               try (apply treesNone_delete; exact Hn)].
  - (* didOpen *)
    unfold handleDidOpen. srv_unfold. srv_cbn. repeat srv_case; try exact Hn.
    rewrite parseDocument_no_parser by exact Hp. srv_cbn.
    apply treesNone_insert; [exact Hn | reflexivity].
  - (* didChange *)
    srv_unfold. srv_cbn. repeat srv_case; try exact Hn;
      (apply treesNone_insert; [exact Hn | cbn [Tree]; eapply Hn; eassumption]).
  - intros id _. exact Hn.
Qed.

(** *** The debounce callback *)

Lemma afterParse_core (s : Server E) uri old : core (afterParse s uri old) = core s.
Proof.
  unfold afterParse. destruct (documents E s !! uri); [apply parseDocument_core | reflexivity].
Qed.

(** The callback parses, then removes the registry entry of its URI when
    that entry is the timer the callback belongs to. *)
Lemma debounceCallback_unfold (s : Server E) (tid : TimerId) uri old :
  debounceCallback E s tid uri old
  = if bool_decide (debounceTimers E s !! uri = Some tid)
    then setDebounceTimers E (afterParse s uri old) (delete uri (debounceTimers E s))
    else afterParse s uri old.
Proof.
  unfold debounceCallback.
  destruct (core_timers _ _ (afterParse_core s uri old)) as (Hr & _ & _).
  unfold afterParse in *.
  destruct (documents E s !! uri) as [d|]; [|reflexivity].
  rewrite Hr. reflexivity.
Qed.

Lemma debounceCallback_core_fields (s : Server E) (tid : TimerId) uri old :
  parser E (debounceCallback E s tid uri old) = parser E s
  /\ initialized E (debounceCallback E s tid uri old) = initialized E s
  /\ timers E (debounceCallback E s tid uri old) = timers E s
  /\ nextTimer E (debounceCallback E s tid uri old) = nextTimer E s
  /\ documents E (debounceCallback E s tid uri old) = documents E (afterParse s uri old)
  /\ trace E (debounceCallback E s tid uri old) = trace E (afterParse s uri old)
  /\ output E (debounceCallback E s tid uri old) = output E (afterParse s uri old).
Proof.
  rewrite debounceCallback_unfold.
  pose proof (afterParse_core s uri old) as Hc. unfold core in Hc.
  destruct (bool_decide (debounceTimers E s !! uri = Some tid)); srv_unfold; srv_cbn;
    repeat split; congruence.
Qed.

Lemma step_parser (s s' : Server E) (e : Step E) :
  step E s e = Some s' -> parser E s' = parser E s.
Proof.
  destruct e as [d|id|id]; cbn [step].
  - intros [= <-]. apply handleMessage_parser.
  - srv_unfold. repeat srv_case; intros [= <-]; reflexivity.
  - unfold runCallback.
    destruct (timers E s !! id) as [t|]; [|discriminate].
    destruct (tState t); try discriminate. intros [= <-].
    rewrite (proj1 (debounceCallback_core_fields _ _ _ _)). reflexivity.
Qed.

Lemma step_noParserNoTree (s s' : Server E) (e : Step E) :
  noParserNoTree s -> step E s e = Some s' -> noParserNoTree s'.
Proof.
  intros Hinv Hstep Hp'.
  pose proof (step_parser _ _ _ Hstep) as Hpar. rewrite Hp' in Hpar. symmetry in Hpar.
  specialize (Hinv Hpar). fold (treesNone (documents E s)) in Hinv.
  fold (treesNone (documents E s')).
  destruct e as [d|id|id]; cbn [step] in Hstep.
  - injection Hstep as <-. apply handleMessage_no_parser; assumption.
  - revert Hstep. srv_unfold. repeat srv_case; intros [= <-]; exact Hinv.
  - revert Hstep. unfold runCallback.
    destruct (timers E s !! id) as [t|]; [|discriminate].
    destruct (tState t); try discriminate. intros [= <-].
    destruct (debounceCallback_core_fields
                (setTimers E s (<[id := setState t Done]> (timers E s)) (nextTimer E s))
                id (tURI t) (tOldTree t)) as (_ & _ & _ & _ & Hd & _).
    rewrite Hd. unfold afterParse.
    change (documents E (setTimers E s _ _)) with (documents E s).
    destruct (documents E s !! tURI t); [|exact Hinv].
    rewrite parseDocument_no_parser by exact Hpar. exact Hinv.
Qed.

Lemma Reachable_noParserNoTree (s : Server E) : Reachable E s -> noParserNoTree s.
Proof.
  apply steps_invariant.
  - intros pm ai _ uri d. cbn [NewServer documents]. rewrite lookup_empty. discriminate.
  - intros s0 e s1. apply step_noParserNoTree.
Qed.

(** *** Completion requests and the freshness of the tree *)

Lemma parseDocument_parsed (s : Server E) (m : Manager E) uri (d : DocumentState)
      (t : Sitter.Tree) :
  parser E s = Some m -> documents E s !! uri = Some d ->
  parsedTree m (LanguageID d) None (Text d) = Some t ->
  parseDocument E s uri (LanguageID d) (Text d) None
  = setDocuments E (observe E s (EvParse uri (LanguageID d) (Text d) None))
                 (<[uri := setTree d (Some t)]> (documents E s)).
Proof.
  intros Hm Hd Ht. unfold parseDocument, parsedTree in *. rewrite Hm.
  destruct (Parse E m (LanguageID d) None (Text d)) as [t' e] eqn:HP.
  cbn [fst] in Ht. subst t'.
  destruct e; [apply Parse_error_no_tree in HP; discriminate|].
  change (documents E (observe E s (EvParse uri (LanguageID d) (Text d) None)))
    with (documents E s).
  rewrite Hd. reflexivity.
Qed.

(** After the synchronous parse only nil is tested: the pipeline goes on
    with whatever tree the parse returned. *)
Lemma freshTree_reparsed v (s : Server E) (m : Manager E) id uri (d : DocumentState)
      (t : Sitter.Tree) :
  parser E s = Some m -> documents E s !! uri = Some d ->
  stale (Text d) (Tree d) = true ->
  parsedTree m (LanguageID d) None (Text d) = Some t ->
  freshTree E v s id uri (Text d) (Tree d) (LanguageID d)
  = inr (setDocuments E (observe E s (EvParse uri (LanguageID d) (Text d) None))
                      (<[uri := setTree d (Some t)]> (documents E s)),
         Text d, t).
Proof.
  intros Hm Hd Hst Ht. unfold freshTree. rewrite Hst.
  rewrite (parseDocument_parsed s m uri d t Hm Hd Ht).
  cbn [documents setDocuments]. rewrite lookup_insert_eq. reflexivity.
Qed.

Lemma serveCompletion_served v (s : Server E) id ai uri pos text tree lang off :
  Position.PositionToOffset text pos = Position.Ok off ->
  exists ctx : Analyzer.ContextInfo,
    Analyzer.ExtractContext
      (NamedDescendantForPointRange E) text (Some (RootNode tree))
      (NamedDescendantForPointRange E (RootNode tree)
         (Analyzer.calculatePointFromOffset text off)
         (Analyzer.calculatePointFromOffset text off))
      off lang uri
    = Analyzer.Ok ctx
    /\ (serveCompletion E v s id ai uri pos text tree lang).1
       = sendResponse E (observe E s (EvExtractContext uri text tree off)) id
           (match GetSuggestion ai ctx with
            | AISuggestion aiSuggestionText =>
                if bool_decide (aiSuggestionText = []) then emptyList v
                else suggestionList v aiSuggestionText
            | _ => emptyList v
            end) None.
Proof.
  intros Hoff. unfold serveCompletion. rewrite Hoff. cbv zeta.
  destruct (AnalyzerFacts.ExtractContext_spec
              (NamedDescendantForPointRange E) text (RootNode tree)
              (NamedDescendantForPointRange E (RootNode tree)
                 (Analyzer.calculatePointFromOffset text off)
                 (Analyzer.calculatePointFromOffset text off))
              off lang uri) as (ls & le & ci & ei & _ & _ & _ & _ & _ & Hctx).
  rewrite Hctx. eexists. split; [reflexivity|].
  destruct (GetSuggestion ai _) as [text'| | |]; try reflexivity.
  destruct (bool_decide (text' = [])); reflexivity.
Qed.

(** C1, where the code departs from it.  On an initialized server with a
    parser and a backend, a completion request (popup or inline) for an
    open document whose cached tree is missing or ends elsewhere than the
    text does make the handler parse the text synchronously, in full; but
    when that parse returns a tree the handler goes on with it whatever its
    end byte: the tree is stored, the context is built from the text and
    that tree, and the answer of the backend is sent.  Only nil is tested
    after the parse, the end byte is not compared with the length of the
    text again. *)
Theorem completion_serves_unchecked_reparse (v : Envelope) (s : Server E)
        (req : RequestMessage E) (id : Z) (p : TextDocumentPositionParams)
        (d : DocumentState) (m : Manager E) (ai : AIClient) (t : Sitter.Tree) (off : Z) :
  initialized E s = true -> ID E req = Some id ->
  unmarshalPosition v (Params E req) = Some p ->
  documents E s !! posURI p = Some d ->
  parser E s = Some m -> aiClient E s = Some ai ->
  stale (Text d) (Tree d) = true ->
  parsedTree m (LanguageID d) None (Text d) = Some t ->
  Position.PositionToOffset (Text d) (posPosition p) = Position.Ok off ->
  documents E (completionHandler v s req).1
  = <[posURI p := setTree d (Some t)]> (documents E s)
  /\ trace E (completionHandler v s req).1
     = trace E s ++ [EvParse (posURI p) (LanguageID d) (Text d) None;
                     EvExtractContext (posURI p) (Text d) t off]
  /\ exists ctx : Analyzer.ContextInfo,
       Analyzer.ExtractContext
         (NamedDescendantForPointRange E) (Text d) (Some (RootNode t))
         (NamedDescendantForPointRange E (RootNode t)
            (Analyzer.calculatePointFromOffset (Text d) off)
            (Analyzer.calculatePointFromOffset (Text d) off))
         off (LanguageID d) (posURI p)
       = Analyzer.Ok ctx
       /\ output E (completionHandler v s req).1
          = output E s
            ++ [Response id
                  (match GetSuggestion ai ctx with
                   | AISuggestion aiSuggestionText =>
                       if bool_decide (aiSuggestionText = []) then emptyList v
                       else suggestionList v aiSuggestionText
                   | _ => emptyList v
                   end) None].
Proof.
  intros Hinit Hid Hp Hd Hm Hai Hst Ht Hoff.
  set (s1 := setDocuments E (observe E s (EvParse (posURI p) (LanguageID d) (Text d) None))
                          (<[posURI p := setTree d (Some t)]> (documents E s))).
  assert (Hrun : (completionHandler v s req).1
                 = (serveCompletion E v s1 id ai (posURI p) (posPosition p) (Text d) t
                                    (LanguageID d)).1).
  { destruct v; cbn [completionHandler unmarshalPosition] in *;
      unfold handleCompletion, handleInlineCompletion, isInitialized;
      rewrite Hinit, Hid, Hp; cbn [negb]; cbv zeta; rewrite Hd, ?Hai;
      rewrite (freshTree_reparsed _ s m id (posURI p) d t Hm Hd Hst Ht);
      rewrite ?Hai; reflexivity. }
  destruct (serveCompletion_served v s1 id ai (posURI p) (posPosition p) (Text d) t
                                   (LanguageID d) off Hoff) as (ctx & Hctx & Hserve).
  rewrite Hrun, Hserve.
  split; [reflexivity|]. split; [|exists ctx; split; [exact Hctx | reflexivity]].
  cbn. rewrite <- app_assoc. reflexivity.
Qed.

(** *** Requests and responses *)

(** C2, where the code departs from it.  A completion or inline-completion
    request that carries an id and reaches its handler before the
    [initialized] notification makes the handler return an error;
    [handleMessage] only logs it: the state is unchanged and no response is
    written for the id. *)
Theorem completion_before_initialized_no_response (pm : option (Manager E))
        (ai : option AIClient) (id : Z) (params : Raw E) :
  handleMessage E (NewServer E pm ai) (Some (mkRequest (Some id) "textDocument/completion" params))
  = (NewServer E pm ai, false)
  /\ handleMessage E (NewServer E pm ai)
                   (Some (mkRequest (Some id) "textDocument/inlineCompletion" params))
     = (NewServer E pm ai, false)
  /\ output E (NewServer E pm ai) = [].
Proof. repeat split. Qed.

Lemma responsesFor_notifications (id : Z) (ns : list Frame) :
  Forall isNotification ns -> responsesFor id ns = [].
Proof.
  induction 1 as [|f ns Hf _ IH]; [reflexivity|].
  unfold responsesFor in *. cbn [List.filter]. destruct f; [destruct Hf | exact IH].
Qed.

Lemma freshTree_output v (s : Server E) id uri text tree lang :
  match freshTree E v s id uri text tree lang with
  | inl h => exists ns r, output E h.1 = output E s ++ ns ++ [Response id r None]
                          /\ Forall isNotification ns
  | inr (s', _, _) => exists ns, output E s' = output E s ++ ns /\ Forall isNotification ns
  end.
Proof.
  unfold freshTree.
  destruct (parseDocument_output s uri lang text None) as (ns & Hns & Hall).
  destruct (stale text tree).
  - set (s1 := parseDocument E s uri lang text None) in *.
    destruct (documents E s1 !! uri) as [d|].
    + destruct (Tree d).
      * exists ns. auto.
      * exists ns. eexists. srv_unfold. srv_cbn. rewrite Hns, <- app_assoc. auto.
    + exists ns. eexists. srv_unfold. srv_cbn. rewrite Hns, <- app_assoc. auto.
  - destruct tree.
    + exists []. rewrite app_nil_r. split; [reflexivity | constructor].
    + exists []. eexists. srv_unfold. srv_cbn. split; [reflexivity | constructor].
Qed.

(** Once the server is initialized, every completion request that carries
    an id is answered by exactly one response for that id. *)
Lemma completion_one_response v (s : Server E) (req : RequestMessage E) (id : Z) :
  initialized E s = true -> ID E req = Some id ->
  exists new, output E (completionHandler v s req).1 = output E s ++ new
              /\ length (responsesFor id new) = 1%nat.
Proof.
  intros Hi Hid.
  assert (Hone : forall ns r e, Forall isNotification ns ->
                   length (responsesFor id (ns ++ [Response id r e])) = 1%nat).
  { intros ns r e Hns. unfold responsesFor. rewrite List.filter_app.
    fold (responsesFor id ns). rewrite (responsesFor_notifications id ns Hns).
    cbn. rewrite Z.eqb_refl. reflexivity. }
  assert (Hresp : forall s0 r e, exists new,
             output E (sendResponse E s0 id r e) = output E s0 ++ new
             /\ length (responsesFor id new) = 1%nat).
  { intros s0 r e. eexists. split; [reflexivity|]. apply (Hone [] _ _). constructor. }
  destruct v; unfold completionHandler, handleCompletion, handleInlineCompletion;
    unfold isInitialized; rewrite Hi, Hid; cbn [negb]; unfold ok; cbn [fst].
  - destruct (unmarshalCompletion E (Params E req)) as [params|]; [|apply Hresp].
    destruct (documents E s !! posURI params) as [d|] eqn:Hd; [|apply Hresp].
    pose proof (freshTree_output Popup s id (posURI params) (Text d) (Tree d) (LanguageID d)) as Hf.
    destruct (freshTree E Popup s id (posURI params) (Text d) (Tree d) (LanguageID d))
      as [h | [[s1 text] tree]].
    + destruct Hf as (ns & r & Ho & Hns). eexists. split; [exact Ho|]. apply Hone, Hns.
    + destruct Hf as (ns & Ho & Hns).
      destruct (aiClient E s) as [ai|].
      * destruct (serveCompletion_output Popup s1 id ai (posURI params) (posPosition params)
                                         text tree (LanguageID d)) as [r Hr].
        exists (ns ++ [Response id r None]). rewrite Hr, Ho, <- app_assoc.
        split; [reflexivity | apply Hone, Hns].
      * exists (ns ++ [Response id (emptyList Popup) None]).
        srv_unfold. srv_cbn. rewrite Ho, <- app_assoc.
        split; [reflexivity | apply Hone, Hns].
  - destruct (unmarshalInlineCompletion E (Params E req)) as [params|]; [|apply Hresp].
    destruct (documents E s !! posURI params) as [d|] eqn:Hd; [|apply Hresp].
    destruct (aiClient E s) as [ai|]; [|apply Hresp].
    pose proof (freshTree_output Inline s id (posURI params) (Text d) (Tree d) (LanguageID d)) as Hf.
    destruct (freshTree E Inline s id (posURI params) (Text d) (Tree d) (LanguageID d))
      as [h | [[s1 text] tree]].
    + destruct Hf as (ns & r & Ho & Hns). eexists. split; [exact Ho|]. apply Hone, Hns.
    + destruct Hf as (ns & Ho & Hns).
      destruct (serveCompletion_output Inline s1 id ai (posURI params) (posPosition params)
                                       text tree (LanguageID d)) as [r Hr].
      exists (ns ++ [Response id r None]). rewrite Hr, Ho, <- app_assoc.
      split; [reflexivity | apply Hone, Hns].
Qed.

(** *** Shutdown, exit and the read loop *)

Lemma handleMessage_exit (s : Server E) (decoded : option (RequestMessage E)) :
  (handleMessage E s decoded).2 = isExit decoded.
Proof.
  destruct decoded as [req|]; [|reflexivity].
  unfold isExit, handleMessage. cbn zeta.
  destruct (String.eqb_spec (Method E req) "exit") as [-> | Hne].
  - reflexivity.
  - repeat match goal with
           | |- context [if String.eqb ?a ?b then _ else _] =>
               destruct (String.eqb_spec a b); [try reflexivity; congruence|]
           end.
    destruct (ID E req); reflexivity.
Qed.

Lemma Run_no_exit (ds : list (option (RequestMessage E))) :
  forall (s : Server E) (rest : list (Incoming E)),
    forallb (fun d => negb (isExit d)) ds = true ->
    Run E s (map Body ds ++ rest) = Run E (dispatchAll s ds) rest.
Proof.
  induction ds as [|d ds IH]; intros s rest Hall; [reflexivity|].
  cbn [forallb] in Hall. apply andb_true_iff in Hall as [Hd Hall].
  cbn [map app Run dispatchAll fold_left].
  pose proof (handleMessage_exit s d) as Hx.
  destruct (handleMessage E s d) as [s1 b]. cbn [fst snd] in *.
  rewrite Hx. apply negb_true_iff in Hd. rewrite Hd.
  apply IH, Hall.
Qed.

(** How the loop ends on an input every Content-Length of which can be
    allocated: at the end of the input, no frame of which was an exit, or
    at the first exit, the frames after it being left unread. *)
Lemma Run_ends (input : list (Incoming E)) :
  forall s : Server E,
    Forall (fun f => f <> Oversized) input ->
    exists unread : list (Incoming E),
      (Run E s input).2 = Returned unread
      /\ ((unread = [] /\ existsb exitFrame input = false)
          \/ exists read req,
               input = read ++ Body (Some req) :: unread
               /\ Method E req = "exit"%string
               /\ existsb exitFrame read = false).
Proof.
  induction input as [|f input IH]; intros s Hall.
  - exists []. split; [reflexivity|]. left. split; reflexivity.
  - apply Forall_cons in Hall as [Hf Hall].
    destruct f as [| |decoded]; [| congruence |].
    + destruct (IH s Hall) as (unread & Hrun & Hend). exists unread.
      split; [exact Hrun|].
      destruct Hend as [[-> Hno] | (read & req & -> & Hm & Hno)].
      * left. split; [reflexivity | exact Hno].
      * right. exists (Unreadable :: read), req. repeat split; assumption.
    + cbn [Run]. pose proof (handleMessage_exit s decoded) as Hx.
      destruct (handleMessage E s decoded) as [s1 b]. cbn [snd] in Hx. subst b.
      destruct (isExit decoded) eqn:Hexit.
      * exists input. split; [reflexivity|]. right.
        unfold isExit in Hexit. destruct decoded as [req|]; [|discriminate].
        exists [], req. split; [reflexivity|].
        split; [apply String.eqb_eq, Hexit | reflexivity].
      * destruct (IH s1 Hall) as (unread & Hrun & Hend). exists unread.
        split; [exact Hrun|].
        destruct Hend as [[-> Hno] | (read & req & -> & Hm & Hno)].
        -- left. split; [reflexivity|]. cbn [existsb exitFrame]. rewrite Hexit. exact Hno.
        -- right. exists (Body decoded :: read), req.
           split; [reflexivity|]. split; [exact Hm|].
           cbn [existsb exitFrame]. rewrite Hexit. exact Hno.
Qed.

(** C7 (amended).  A shutdown request is answered by exactly one response
    (a nil result, no error) and sets the shutdown flag; the read loop goes
    on with the frames that follow it, as it does after every message that
    is not an exit; a message makes [handleMessage] ask for the end of the
    loop exactly when its method is [exit], and then the frames after it
    are never read.  On an input every Content-Length of which can be
    allocated the loop returns, and it does so in one of two ways: at the
    first exit message, or at the end of the input when no frame carried an
    exit. *)
Theorem shutdown_does_not_stop_the_loop (s : Server E) (id : Z) (params : Raw E)
        (rest : list (Incoming E)) :
  output E (handleMessage E s (Some (mkRequest (Some id) "shutdown" params))).1
  = output E s ++ [Response id RNull None]
  /\ shutdown E (handleMessage E s (Some (mkRequest (Some id) "shutdown" params))).1 = true
  /\ Run E s (Body (Some (mkRequest (Some id) "shutdown" params)) :: rest)
     = Run E (handleMessage E s (Some (mkRequest (Some id) "shutdown" params))).1 rest
  /\ (forall decoded,
        (handleMessage E s decoded).2 = true
        <-> exists req, decoded = Some req /\ Method E req = "exit"%string)
  /\ (forall (s0 : Server E) (ds : list (option (RequestMessage E))) (rest0 : list (Incoming E)),
        forallb (fun d => negb (isExit d)) ds = true ->
        Run E s0 (map Body ds ++ rest0) = Run E (dispatchAll s0 ds) rest0)
  /\ (forall (s0 : Server E) (req : RequestMessage E) (rest0 : list (Incoming E)),
        Method E req = "exit"%string ->
        Run E s0 (Body (Some req) :: rest0) = (Close E s0, Returned rest0))
  /\ (forall (s0 : Server E) (input : list (Incoming E)),
        Forall (fun f => f <> Oversized) input ->
        exists unread : list (Incoming E),
          (Run E s0 input).2 = Returned unread
          /\ ((unread = [] /\ existsb exitFrame input = false)
              \/ exists read req,
                   input = read ++ Body (Some req) :: unread
                   /\ Method E req = "exit"%string
                   /\ existsb exitFrame read = false)).
Proof.
  split; [unfold handleMessage, handleShutdown; cbn; destruct (shutdown E s); reflexivity|].
  split; [unfold handleMessage, handleShutdown; cbn; destruct (shutdown E s) eqn:Hs;
          cbn; [exact Hs | reflexivity]|].
  split; [reflexivity|].
  split.
  { intros decoded. rewrite handleMessage_exit. unfold isExit.
    destruct decoded as [req|].
    - split.
      + intros H. exists req. split; [reflexivity|]. apply String.eqb_eq, H.
      + intros (req' & [= <-] & Hm). apply String.eqb_eq, Hm.
    - split; [discriminate | intros (req' & Hd & _); discriminate]. }
  split; [intros s0 ds rest0; apply Run_no_exit|].
  split; [|intros s0 input; apply Run_ends].
  intros s0 req rest0 Hm. cbn [Run]. unfold handleMessage. rewrite Hm. reflexivity.
Qed.

(** *** The timer registry *)

(** The registry after the callback: the entry of the URI is deleted when
    it holds the callback's own timer, and the registry is left as it is
    otherwise. *)
Lemma debounceCallback_registry (s : Server E) (tid : TimerId)
      (uri : DocumentURI) (oldTree : option Sitter.Tree) :
  debounceTimers E (debounceCallback E s tid uri oldTree)
  = (if bool_decide (debounceTimers E s !! uri = Some tid)
     then delete uri (debounceTimers E s)
     else debounceTimers E s).
Proof.
  rewrite debounceCallback_unfold.
  destruct (bool_decide (debounceTimers E s !! uri = Some tid)); [reflexivity|].
  apply (core_timers _ _ (afterParse_core s uri oldTree)).
Qed.

Lemma debounceCallback_timers (s : Server E) (tid : TimerId)
      (uri : DocumentURI) (oldTree : option Sitter.Tree) :
  timers E (debounceCallback E s tid uri oldTree) = timers E s.
Proof.
  destruct (debounceCallback_core_fields s tid uri oldTree) as (_ & _ & Ht & _).
  exact Ht.
Qed.

(** What running the callback of an expired timer amounts to. *)
Lemma runCallback_expired (s : Server E) (tid : TimerId) (t : Timer) :
  timers E s !! tid = Some t -> tState t = Expired ->
  runCallback E s tid
  = Some (debounceCallback E
            (setTimers E s (<[tid := setState t Done]> (timers E s)) (nextTimer E s))
            tid (tURI t) (tOldTree t)).
Proof.
  intros Ht Hst. unfold runCallback. rewrite Ht, Hst. reflexivity.
Qed.

(** C3.  The callback of a debounce timer leaves the timers themselves
    alone and changes the registry in one way only: the entry of its URI is
    removed when it holds the very timer the callback belongs to.  An entry
    that holds another (newer) timer stays, as do the entries of other
    URIs.  When the document is no longer open the callback changes neither
    the documents nor anything else but that registry entry: it parses
    nothing and writes nothing. *)
Theorem callback_removes_only_its_own_entry (s : Server E) (tid : TimerId)
        (uri : DocumentURI) (oldTree : option Sitter.Tree) :
  debounceTimers E (debounceCallback E s tid uri oldTree)
  = (if bool_decide (debounceTimers E s !! uri = Some tid)
     then delete uri (debounceTimers E s)
     else debounceTimers E s)
  /\ (forall newer, newer <> tid -> debounceTimers E s !! uri = Some newer ->
                    debounceTimers E (debounceCallback E s tid uri oldTree)
                    = debounceTimers E s)
  /\ (forall other, other <> uri ->
                    debounceTimers E (debounceCallback E s tid uri oldTree) !! other
                    = debounceTimers E s !! other)
  /\ timers E (debounceCallback E s tid uri oldTree) = timers E s
  /\ (documents E s !! uri = None ->
      documents E (debounceCallback E s tid uri oldTree) = documents E s
      /\ trace E (debounceCallback E s tid uri oldTree) = trace E s
      /\ output E (debounceCallback E s tid uri oldTree) = output E s)
  /\ (forall t, timers E s !! tid = Some t -> tState t = Expired ->
                runCallback E s tid
                = Some (debounceCallback E
                          (setTimers E s (<[tid := setState t Done]> (timers E s))
                                     (nextTimer E s))
                          tid (tURI t) (tOldTree t))).
Proof.
  pose proof (debounceCallback_registry s tid uri oldTree) as Hreg.
  split; [exact Hreg|]. split.
  { intros newer Hne Hnew. rewrite Hreg.
    rewrite bool_decide_eq_false_2; [reflexivity | congruence]. }
  split.
  { intros other Hne. rewrite Hreg.
    destruct (bool_decide (debounceTimers E s !! uri = Some tid)); [|reflexivity].
    apply lookup_delete_ne. congruence. }
  destruct (debounceCallback_core_fields s tid uri oldTree)
    as (_ & _ & Ht & _ & Hd & Htr & Ho).
  split; [exact Ht|]. split.
  { intros Hclosed. rewrite Hd, Htr, Ho. unfold afterParse. rewrite Hclosed. auto. }
  intros t Ht' Hst. apply runCallback_expired; assumption.
Qed.

(** *** At most one pending timer per document *)

Lemma stopTimer_fields (s : Server E) (id : TimerId) :
  timers E (stopTimer E s id) = stopIn (timers E s) id
  /\ nextTimer E (stopTimer E s id) = nextTimer E s
  /\ debounceTimers E (stopTimer E s id) = debounceTimers E s
  /\ documents E (stopTimer E s id) = documents E s
  /\ parser E (stopTimer E s id) = parser E s
  /\ initialized E (stopTimer E s id) = initialized E s
  /\ trace E (stopTimer E s id) = trace E s
  /\ output E (stopTimer E s id) = output E s.
Proof.
  unfold stopTimer, stopIn. destruct (timers E s !! id) as [t|]; [|repeat split].
  destruct (tState t); repeat split.
Qed.

Lemma stopIn_pending (tm : gmap TimerId Timer) (old id : TimerId) (t : Timer) :
  stopIn tm old !! id = Some t -> tState t = Pending ->
  tm !! id = Some t /\ id <> old.
Proof.
  unfold stopIn. intros Hl Hp.
  destruct (tm !! old) as [to|] eqn:Ho.
  - destruct (tState to) eqn:Hs.
    + destruct (decide (old = id)) as [->|Hne].
      * rewrite lookup_insert_eq in Hl. injection Hl as <-. discriminate.
      * rewrite lookup_insert_ne in Hl by exact Hne. auto.
    + split; [exact Hl|]. intros ->. congruence.
    + split; [exact Hl|]. intros ->. congruence.
    + split; [exact Hl|]. intros ->. congruence.
  - split; [exact Hl|]. intros ->. congruence.
Qed.

Lemma stopIn_dom (tm : gmap TimerId Timer) (old id : TimerId) (t : Timer) :
  stopIn tm old !! id = Some t -> exists t0, tm !! id = Some t0 /\ tURI t0 = tURI t.
Proof.
  unfold stopIn. intros Hl.
  destruct (tm !! old) as [to|] eqn:Ho; [|eauto].
  destruct (tState to); eauto.
  destruct (decide (old = id)) as [->|Hne].
  - rewrite lookup_insert_eq in Hl. injection Hl as <-. eauto.
  - rewrite lookup_insert_ne in Hl by exact Hne. eauto.
Qed.

Lemma stopRegistered_pending (s : Server E) uri id t :
  timersOk s ->
  stopRegistered s uri !! id = Some t -> tState t = Pending ->
  timers E s !! id = Some t /\ tURI t <> uri.
Proof.
  intros [_ Hreg] Hl Hp. unfold stopRegistered in Hl.
  destruct (debounceTimers E s !! uri) as [old|] eqn:Ho.
  - destruct (stopIn_pending _ _ _ _ Hl Hp) as [Hl' Hne].
    split; [exact Hl'|]. intros Hu. apply Hne.
    specialize (Hreg id t Hl' Hp). rewrite Hu, Ho in Hreg. congruence.
  - split; [exact Hl|]. intros Hu.
    specialize (Hreg id t Hl Hp). rewrite Hu, Ho in Hreg. discriminate.
Qed.

Lemma stopRegistered_dom (s : Server E) uri id t :
  stopRegistered s uri !! id = Some t -> exists t0, timers E s !! id = Some t0.
Proof.
  unfold stopRegistered. destruct (debounceTimers E s !! uri).
  - intros H. destruct (stopIn_dom _ _ _ _ H) as (t1 & H1 & _). eauto.
  - eauto.
Qed.

(** [handleDidChange] on an open document, with a change to apply. *)
Lemma handleDidChange_spec (s : Server E) (req : RequestMessage E)
      (p : DidChangeTextDocumentParams) (d : DocumentState) (newText : bytes) :
  initialized E s = true ->
  unmarshalDidChange E (Params E req) = Some p ->
  documents E s !! changeURI p = Some d ->
  last (ContentChanges p) = Some newText ->
  (handleDidChange E s req).1
  = mkServer E (initialized E s) (shutdown E s)
      (<[changeURI p := mkDocumentState newText (changeVersion p) (LanguageID d) (Tree d)]>
         (documents E s))
      (parser E s) (aiClient E s)
      (<[changeURI p := nextTimer E s]> (debounceTimers E s))
      (<[nextTimer E s := mkTimer (changeURI p) (Tree d) Pending]>
         (stopRegistered s (changeURI p)))
      (S (nextTimer E s)) (output E s) (trace E s).
Proof.
  intros Hi Hu Hd Hl. unfold handleDidChange, isInitialized, stopRegistered.
  rewrite Hu. destruct s as [ini sh docs pr ai reg tm n out tr]. srv_cbn. subst ini.
  rewrite Hd, Hl. cbn [negb]. srv_unfold. srv_cbn.
  destruct (reg !! changeURI p) as [old|]; [|reflexivity].
  unfold stopIn. srv_cbn.
  destruct (tm !! old) as [t|]; [destruct (tState t)|]; reflexivity.
Qed.

Lemma timersOk_didChange (s : Server E) uri (tree : option Sitter.Tree)
      (s' : Server E) :
  timersOk s ->
  timers E s' = <[nextTimer E s := mkTimer uri tree Pending]> (stopRegistered s uri) ->
  debounceTimers E s' = <[uri := nextTimer E s]> (debounceTimers E s) ->
  nextTimer E s' = S (nextTimer E s) ->
  timersOk s'.
Proof.
  intros Hok Ht Hr Hn. pose proof Hok as [Hlt Hreg]. split.
  - intros id t. rewrite Ht, Hn. destruct (decide (nextTimer E s = id)) as [<-|Hne].
    + lia.
    + rewrite lookup_insert_ne by exact Hne. intros H.
      destruct (stopRegistered_dom _ _ _ _ H) as [t0 H0]. specialize (Hlt _ _ H0). lia.
  - intros id t. rewrite Ht, Hr. destruct (decide (nextTimer E s = id)) as [<-|Hne].
    + rewrite lookup_insert_eq. intros [= <-] _. cbn [tURI]. apply lookup_insert_eq.
    + rewrite lookup_insert_ne by exact Hne. intros H Hp.
      destruct (stopRegistered_pending s uri id t Hok H Hp) as [H0 Hu].
      rewrite lookup_insert_ne by congruence. apply Hreg; assumption.
Qed.

Lemma timersOk_same (s s' : Server E) :
  timersOk s -> core s' = core s -> timersOk s'.
Proof.
  intros Hok Hc. destruct (core_timers _ _ Hc) as (Hr & Ht & Hn).
  unfold timersOk. rewrite Hr, Ht, Hn. exact Hok.
Qed.

Lemma timersOk_fields (s s' : Server E) :
  timersOk s -> debounceTimers E s' = debounceTimers E s -> timers E s' = timers E s ->
  nextTimer E s' = nextTimer E s -> timersOk s'.
Proof. intros Hok Hr Ht Hn. unfold timersOk. rewrite Hr, Ht, Hn. exact Hok. Qed.

Lemma handleDidChange_timersOk (s : Server E) (req : RequestMessage E) :
  timersOk s -> timersOk (handleDidChange E s req).1.
Proof.
  intros Hok.
  destruct (initialized E s) eqn:Hi.
  2:{ unfold handleDidChange, isInitialized. rewrite Hi. exact Hok. }
  destruct (unmarshalDidChange E (Params E req)) as [p|] eqn:Hu.
  2:{ unfold handleDidChange, isInitialized. rewrite Hi, Hu. exact Hok. }
  destruct (documents E s !! changeURI p) as [d|] eqn:Hd.
  2:{ unfold handleDidChange, isInitialized. rewrite Hi, Hu, Hd. exact Hok. }
  destruct (last (ContentChanges p)) as [newText|] eqn:Hl.
  2:{ unfold handleDidChange, isInitialized. rewrite Hi, Hu, Hd, Hl. exact Hok. }
  rewrite (handleDidChange_spec s req p d newText Hi Hu Hd Hl).
  eapply timersOk_didChange; [exact Hok | reflexivity ..].
Qed.

Lemma handleDidClose_timersOk (s : Server E) (req : RequestMessage E) :
  timersOk s -> timersOk (handleDidClose E s req).1.
Proof.
  intros Hok. pose proof Hok as [Hlt Hreg].
  unfold handleDidClose. destruct (negb (isInitialized E s)); [exact Hok|].
  destruct (unmarshalDidClose E (Params E req)) as [p|]; [|exact Hok].
  unfold ok. cbn [fst].
  destruct (debounceTimers E s !! closeURI p) as [old|] eqn:Ho.
  2:{ eapply timersOk_fields; [exact Hok | reflexivity ..]. }
  destruct (stopTimer_fields s old) as (Ht & Hn & Hr & _).
  split.
  - intros id t. srv_unfold. srv_cbn. fold (stopTimer E s old). rewrite Ht, Hn.
    intros H. destruct (stopIn_dom _ _ _ _ H) as (t0 & H0 & _). eapply Hlt, H0.
  - intros id t. srv_unfold. srv_cbn. fold (stopTimer E s old). rewrite Ht, Hr.
    intros H Hp. destruct (stopIn_pending _ _ _ _ H Hp) as [H0 Hne].
    specialize (Hreg id t H0 Hp).
    rewrite lookup_delete_ne; [exact Hreg|].
    intros Hu. rewrite <- Hu, Ho in Hreg. congruence.
Qed.

Lemma handleDidOpen_core (s : Server E) (req : RequestMessage E) :
  core (handleDidOpen E s req).1 = core s.
Proof.
  unfold handleDidOpen. destruct (negb (isInitialized E s)); [reflexivity|].
  destruct (unmarshalDidOpen E (Params E req)); [|reflexivity].
  unfold ok. cbn [fst]. rewrite parseDocument_core. reflexivity.
Qed.

Lemma handleMessage_timersOk (s : Server E) (d : option (RequestMessage E)) :
  timersOk s -> timersOk (handleMessage E s d).1.
Proof.
  intros Hok. destruct d as [req|]; [|exact Hok].
  apply (handleMessage_elim (fun r => timersOk r.1)); cbn [fst];
    try exact Hok;
    try (apply handleDidChange_timersOk; exact Hok);
    try (apply handleDidClose_timersOk; exact Hok);
    try (eapply timersOk_same; [exact Hok | apply completionHandler_core]);
    try solve [eapply timersOk_fields; [exact Hok | srv_auto ..]].
  - (* didOpen *)
    eapply timersOk_same; [exact Hok | apply handleDidOpen_core].
  - intros id _. exact Hok.
Qed.

Lemma step_timersOk (s s' : Server E) (e : Step E) :
  timersOk s -> step E s e = Some s' -> timersOk s'.
Proof.
  intros Hok Hstep. pose proof Hok as [Hlt Hreg].
  destruct e as [d|id|id]; cbn [step] in Hstep.
  - injection Hstep as <-. apply handleMessage_timersOk, Hok.
  - unfold expire in Hstep. destruct (timers E s !! id) as [t|] eqn:Ht; [|discriminate].
    destruct (tState t) eqn:Hs; try discriminate. injection Hstep as <-.
    split; srv_unfold; srv_cbn.
    + intros id' t'. destruct (decide (id = id')) as [<-|Hne].
      * intros _. eapply Hlt, Ht.
      * rewrite lookup_insert_ne by exact Hne. apply Hlt.
    + intros id' t'. destruct (decide (id = id')) as [<-|Hne].
      * rewrite lookup_insert_eq. intros [= <-]. discriminate.
      * rewrite lookup_insert_ne by exact Hne. apply Hreg.
  - unfold runCallback in Hstep. destruct (timers E s !! id) as [t|] eqn:Ht; [|discriminate].
    destruct (tState t) eqn:Hs; try discriminate. injection Hstep as <-.
    set (s1 := setTimers E s (<[id := setState t Done]> (timers E s)) (nextTimer E s)).
    pose proof (debounceCallback_registry s1 id (tURI t) (tOldTree t)) as Hr.
    pose proof (debounceCallback_timers s1 id (tURI t) (tOldTree t)) as Htm.
    destruct (debounceCallback_core_fields s1 id (tURI t) (tOldTree t))
      as (_ & _ & _ & Hn & _).
    split.
    + intros id' t'. rewrite Htm, Hn. unfold s1. srv_unfold. srv_cbn.
      destruct (decide (id = id')) as [<-|Hne].
      * intros _. eapply Hlt, Ht.
      * rewrite lookup_insert_ne by exact Hne. apply Hlt.
    + intros id' t'. rewrite Htm, Hr. unfold s1. srv_unfold. srv_cbn.
      destruct (decide (id = id')) as [<-|Hne].
      * rewrite lookup_insert_eq. intros [= <-]. discriminate.
      * rewrite lookup_insert_ne by exact Hne. intros H' Hp.
        specialize (Hreg id' t' H' Hp).
        destruct (bool_decide (debounceTimers E s !! tURI t = Some id)) eqn:Hb;
          [|exact Hreg].
        apply bool_decide_eq_true in Hb.
        rewrite lookup_delete_ne; [exact Hreg|].
        intros Hu. rewrite Hu, Hreg in Hb. congruence.
Qed.

Lemma Reachable_timersOk (s : Server E) : Reachable E s -> timersOk s.
Proof.
  apply steps_invariant.
  - intros pm ai. split; intros id t; cbn [NewServer timers]; rewrite lookup_empty;
      discriminate.
  - intros s0 e s1. apply step_timersOk.
Qed.

(** *** A burst of changes *)

(** The callback of an expired timer parses the text the store holds when
    it runs, with the tree it captured as the hint. *)
Lemma callback_parses_current_text (s : Server E) (tid : TimerId) (t : Timer)
      (d : DocumentState) (m : Manager E) :
  timers E s !! tid = Some t -> tState t = Expired ->
  documents E s !! tURI t = Some d -> parser E s = Some m ->
  exists s', runCallback E s tid = Some s'
             /\ trace E s' = trace E s ++ [EvParse (tURI t) (LanguageID d) (Text d) (tOldTree t)].
Proof.
  intros Ht Hs Hd Hm. unfold runCallback. rewrite Ht, Hs. eexists. split; [reflexivity|].
  set (s1 := setTimers E s _ _).
  destruct (debounceCallback_core_fields s1 tid (tURI t) (tOldTree t))
    as (_ & _ & _ & _ & _ & Htr & _).
  rewrite Htr. unfold afterParse.
  change (documents E s1) with (documents E s). rewrite Hd.
  rewrite parseDocument_trace.
  change (parser E s1) with (parser E s). rewrite Hm. reflexivity.
Qed.

Lemma handleMessage_didChange (s : Server E) (req : RequestMessage E) :
  Method E req = "textDocument/didChange"%string ->
  (handleMessage E s (Some req)).1 = (handleDidChange E s req).1.
Proof. intros Hm. unfold handleMessage. rewrite Hm. reflexivity. Qed.

(** One change of the burst. *)
Lemma didChange_step (s : Server E) uri (req : RequestMessage E)
      (p : DidChangeTextDocumentParams) (d : DocumentState) (newText : bytes) :
  isDidChange uri req p -> last (ContentChanges p) = Some newText ->
  initialized E s = true -> timersOk s -> documents E s !! uri = Some d ->
  let s' := (handleMessage E s (Some req)).1 in
  initialized E s' = true /\ parser E s' = parser E s /\ trace E s' = trace E s
  /\ timersOk s'
  /\ documents E s' !! uri
     = Some (mkDocumentState newText (changeVersion p) (LanguageID d) (Tree d))
  /\ debounceTimers E s' !! uri = Some (nextTimer E s)
  /\ timers E s' !! nextTimer E s = Some (mkTimer uri (Tree d) Pending).
Proof.
  intros (Hm & Hu & <- & Hne) Hl Hi Hok Hd. cbn zeta.
  rewrite (handleMessage_didChange s req Hm).
  pose proof (handleDidChange_timersOk s req Hok) as Hok'.
  rewrite (handleDidChange_spec s req p d newText Hi Hu Hd Hl) in *. srv_cbn.
  rewrite !lookup_insert_eq. auto 10.
Qed.

Lemma last_is_Some {A} (l : list A) : l <> [] -> exists x, last l = Some x.
Proof.
  intros H. destruct (last l) as [x|] eqn:Hl; [eauto|].
  apply last_None in Hl. contradiction.
Qed.

(** The state after a burst of changes of one document. *)
Lemma burst_state (uri : DocumentURI) (burst : list (RequestMessage E))
      (ps : list DidChangeTextDocumentParams) :
  Forall2 (isDidChange uri) burst ps ->
  forall (s : Server E) (d : DocumentState) (lastP : DidChangeTextDocumentParams)
         (lastText : bytes),
    initialized E s = true -> timersOk s -> documents E s !! uri = Some d ->
    last ps = Some lastP -> last (ContentChanges lastP) = Some lastText ->
    exists (s' : Server E) (tid : TimerId),
      steps E s (map receive burst) = Some s'
      /\ initialized E s' = true /\ parser E s' = parser E s /\ trace E s' = trace E s
      /\ timersOk s'
      /\ documents E s' !! uri
         = Some (mkDocumentState lastText (changeVersion lastP) (LanguageID d) (Tree d))
      /\ debounceTimers E s' !! uri = Some tid
      /\ timers E s' !! tid = Some (mkTimer uri (Tree d) Pending).
Proof.
  induction 1 as [|req p burst ps Hreq Hrest IH]; intros s d lastP lastText Hi Hok Hd Hlast Htext.
  - discriminate.
  - destruct (last_is_Some (ContentChanges p)) as [txt Htxt]; [apply Hreq|].
    destruct (didChange_step s uri req p d txt Hreq Htxt Hi Hok Hd)
      as (Hi1 & Hp1 & Ht1 & Hok1 & Hd1 & Hr1 & Htm1).
    cbn [map steps]. unfold receive at 1. cbn [step].
    set (s1 := (handleMessage E s (Some req)).1) in *.
    destruct ps as [|p2 ps2].
    + inversion Hrest; subst. cbn [map steps].
      cbn in Hlast. injection Hlast as <-.
      rewrite Htext in Htxt. injection Htxt as <-.
      exists s1, (nextTimer E s). split; [reflexivity|].
      repeat (split; [assumption|]). assumption.
    + assert (Hlast' : last (p2 :: ps2) = Some lastP) by exact Hlast.
      destruct (IH s1 _ lastP lastText Hi1 Hok1 Hd1 Hlast' Htext)
        as (s' & tid & Hs & Hi' & Hp' & Ht' & Hok' & Hd' & Hr' & Htm').
      cbn [LanguageID Tree] in *.
      exists s', tid. split; [exact Hs|]. split; [exact Hi'|].
      split; [congruence|]. split; [congruence|].
      repeat (split; [assumption|]). assumption.
Qed.

(** C5.  From a reachable state in which the server is initialized, has a
    parser and holds the document, a burst of change notifications for the
    document (no timer expiring in between) parses nothing while it lasts
    and leaves exactly one pending timer for the document, the one
    registered for it.  When that timer expires and its callback runs,
    exactly one parse is made, of the text of the last notification; after
    it no timer of the document is pending and its registry entry is gone.
    In any state, the callback of an expired timer parses the text the
    store holds when it runs. *)
Theorem burst_reparses_once_with_last_text (s : Server E) (uri : DocumentURI)
        (d : DocumentState) (m : Manager E) (burst : list (RequestMessage E))
        (ps : list DidChangeTextDocumentParams) (lastP : DidChangeTextDocumentParams)
        (lastText : bytes) :
  Reachable E s -> initialized E s = true -> parser E s = Some m ->
  documents E s !! uri = Some d ->
  Forall2 (isDidChange uri) burst ps ->
  last ps = Some lastP -> last (ContentChanges lastP) = Some lastText ->
  (exists (s' : Server E) (tid : TimerId),
     steps E s (map receive burst) = Some s'
     /\ trace E s' = trace E s
     /\ debounceTimers E s' !! uri = Some tid
     /\ (forall id t, timers E s' !! id = Some t -> tURI t = uri -> tState t = Pending ->
                      id = tid)
     /\ documents E s' !! uri
        = Some (mkDocumentState lastText (changeVersion lastP) (LanguageID d) (Tree d))
     /\ exists s'' : Server E,
          steps E s' [Expire tid; Callback tid] = Some s''
          /\ trace E s'' = trace E s' ++ [EvParse uri (LanguageID d) lastText (Tree d)]
          /\ debounceTimers E s'' !! uri = None
          /\ (forall id t, timers E s'' !! id = Some t -> tURI t = uri ->
                           tState t <> Pending))
  /\ (forall (s2 : Server E) (tid2 : TimerId) (t : Timer) (d2 : DocumentState)
             (m2 : Manager E),
        timers E s2 !! tid2 = Some t -> tState t = Expired ->
        documents E s2 !! tURI t = Some d2 -> parser E s2 = Some m2 ->
        exists s3, runCallback E s2 tid2 = Some s3
                   /\ trace E s3
                      = trace E s2 ++ [EvParse (tURI t) (LanguageID d2) (Text d2) (tOldTree t)]).
Proof.
  intros Hreach Hi Hm Hd Hburst Hlast Htext.
  split; [|intros; eapply callback_parses_current_text; eauto].
  destruct (burst_state uri burst ps Hburst s d lastP lastText Hi
              (Reachable_timersOk s Hreach) Hd Hlast Htext)
    as (s' & tid & Hs & Hi' & Hp' & Ht' & Hok' & Hd' & Hr' & Htm').
  exists s', tid. split; [exact Hs|]. split; [exact Ht'|]. split; [exact Hr'|].
  split.
  { intros id t Hl Hu Hpend. destruct Hok' as [_ Hreg].
    specialize (Hreg id t Hl Hpend). rewrite Hu, Hr' in Hreg. congruence. }
  split; [exact Hd'|].
  (* the timer expires *)
  assert (He : expire E s' tid
               = Some (setTimers E s' (<[tid := mkTimer uri (Tree d) Expired]> (timers E s'))
                                 (nextTimer E s'))).
  { unfold expire. rewrite Htm'. reflexivity. }
  set (s1 := setTimers E s' (<[tid := mkTimer uri (Tree d) Expired]> (timers E s'))
                       (nextTimer E s')) in *.
  assert (Hok1 : timersOk s1) by (eapply (step_timersOk s' s1 (Expire tid)); eauto).
  (* its callback runs *)
  assert (Ht1 : timers E s1 !! tid = Some (mkTimer uri (Tree d) Expired))
    by (unfold s1; srv_unfold; srv_cbn; apply lookup_insert_eq).
  destruct (callback_parses_current_text s1 tid _ _ m Ht1 eq_refl Hd'
              ltac:(change (parser E s1) with (parser E s'); congruence))
    as (s2 & Hrun & Htr).
  exists s2. cbn [steps step]. rewrite He, Hrun.
  split; [reflexivity|]. split; [exact Htr|].
  assert (Hok2 : timersOk s2) by (eapply (step_timersOk s1 s2 (Callback tid)); eauto).
  assert (Hr2 : debounceTimers E s2 !! uri = None).
  { rewrite (runCallback_expired s1 tid _ Ht1 eq_refl) in Hrun.
    injection Hrun as <-. cbn [tURI tOldTree].
    rewrite debounceCallback_registry.
    change (debounceTimers E (setTimers E s1 _ _)) with (debounceTimers E s').
    rewrite bool_decide_eq_true_2 by exact Hr'. apply lookup_delete_eq. }
  split; [exact Hr2|].
  intros id t Hl Hu Hpend. destruct Hok2 as [_ Hreg].
  specialize (Hreg id t Hl Hpend). rewrite Hu, Hr2 in Hreg. discriminate.
Qed.

End WithEnv.

(** *** The theorems at the sample server *)

Lemma staleServer_reachable : Reachable sampleEnv staleServer.
Proof.
  exists (Some sampleManager), (Some sampleClient), (take 5 sampleSession).
  vm_compute. reflexivity.
Qed.

Lemma openedServer_reachable : Reachable sampleEnv openedServer.
Proof.
  exists (Some sampleManager), (Some sampleClient), (take 3 sampleSession).
  vm_compute. reflexivity.
Qed.

Lemma shortServer_reachable : Reachable shortEnv shortServer.
Proof.
  exists (Some shortManager), (Some sampleClient), shortSession.
  vm_compute. reflexivity.
Qed.

Lemma completion_serves_unchecked_reparse_witness :
  EndByte (RootNode (Sitter.MkNode "source_file" 0 1 [])) <> len shortText
  /\ trace shortEnv (completionHandler Popup shortServer shortRequest).1
     = trace shortEnv shortServer
       ++ [EvParse "file:///a.go" "go" shortText None;
           EvExtractContext "file:///a.go" shortText (Sitter.MkNode "source_file" 0 1 []) 1].
Proof.
  split; [vm_compute; discriminate|].
  exact (proj1 (proj2 (completion_serves_unchecked_reparse shortEnv Popup shortServer
                         shortRequest 2
                         (mkPosParams "file:///a.go" (Position.mkPosition 0 1))
                         (mkDocumentState shortText 1 "go"
                            (Some (Sitter.MkNode "source_file" 0 1 [])))
                         shortManager sampleClient (Sitter.MkNode "source_file" 0 1 []) 1
                         eq_refl eq_refl eq_refl eq_refl eq_refl eq_refl eq_refl eq_refl
                         eq_refl))).
Defined.

(** C7, as stated, fails: after the handshake and a shutdown request the
    loop ends when the input ends, and it ends at a header whose
    Content-Length cannot be allocated, the frame after it left unread; in
    neither input is there an exit message. *)
Lemma read_loop_ends_without_exit :
  ((Run sampleEnv sampleServer shutdownInput).2 = Returned []
   /\ existsb exitFrame shutdownInput = false)
  /\ ((Run sampleEnv sampleServer oversizedInput).2 = Panicked [lateFrame]
      /\ existsb exitFrame oversizedInput = false)
  /\ shutdown sampleEnv (Run sampleEnv sampleServer shutdownInput).1 = true.
Proof. vm_compute. repeat split; reflexivity. Qed.

Lemma burst_reparses_once_with_last_text_witness :
  (initialized sampleEnv openedServer = true
   /\ parser sampleEnv openedServer = Some sampleManager
   /\ documents sampleEnv openedServer !! "file:///a.go" = Some openedDoc
   /\ Forall2 (isDidChange "file:///a.go") burstRequests burstParams)
  /\ exists (s' : Server sampleEnv) (tid : TimerId),
       steps sampleEnv openedServer (map receive burstRequests) = Some s'
       /\ trace sampleEnv s' = trace sampleEnv openedServer
       /\ debounceTimers sampleEnv s' !! "file:///a.go" = Some tid
       /\ documents sampleEnv s' !! "file:///a.go"
          = Some (mkDocumentState (B "xyz") 3 "go" (Tree openedDoc))
       /\ exists s'' : Server sampleEnv,
            steps sampleEnv s' [Expire tid; Callback tid] = Some s''
            /\ trace sampleEnv s''
               = trace sampleEnv s' ++ [EvParse "file:///a.go" "go" (B "xyz") (Tree openedDoc)]
            /\ debounceTimers sampleEnv s'' !! "file:///a.go" = None.
Proof.
  assert (Hi : initialized sampleEnv openedServer = true) by (vm_compute; reflexivity).
  assert (Hm : parser sampleEnv openedServer = Some sampleManager)
    by (vm_compute; reflexivity).
  assert (Hd : documents sampleEnv openedServer !! "file:///a.go" = Some openedDoc)
    by (vm_compute; reflexivity).
  assert (Hb : Forall2 (isDidChange "file:///a.go") burstRequests burstParams).
  { repeat constructor; discriminate. }
  split; [auto|].
  destruct (burst_reparses_once_with_last_text sampleEnv openedServer "file:///a.go"
              openedDoc sampleManager burstRequests burstParams
              (mkDidChange "file:///a.go" 3 [B "xyz"]) (B "xyz")
              openedServer_reachable Hi Hm Hd Hb eq_refl eq_refl)
    as [(s' & tid & Hs & Ht & Hr & _ & Hdoc & s'' & Hs2 & Ht2 & Hr2 & _) _].
  exists s', tid. repeat (split; [assumption|]).
  exists s''. auto.
Defined.

End ServerFacts.

(** ** [PositionToOffset] on arbitrary bytes *)

Module PositionMore.
Import Utf8 Utf8Facts Position PositionFacts.

(** Every rune that decoding produces has an encoded length. *)
Lemma DecodeRune_RuneLen_pos (p : bytes) :
  p <> [] -> 1 <= RuneLen (fst (DecodeRune p)) <= 4.
Proof.
  intros Hne. destruct (DecodeRune p) as [r n] eqn:Hd. cbn [fst].
  destruct ((r =? RuneError) && Nat.eqb n 1) eqn:Hb.
  - apply andb_true_iff in Hb as [Hr _]. apply Z.eqb_eq in Hr. subst r.
    vm_compute. split; discriminate.
  - rewrite (DecodeRune_RuneLen p r n Hne Hd Hb).
    pose proof (DecodeRune_size p Hne) as Hs. rewrite Hd in Hs. cbn [snd] in Hs.
    assert (n <= 4)%nat; [|lia].
    revert Hd. unfold DecodeRune. destruct p as [|c0 p1]; [congruence|].
    repeat match goal with
           | |- context [if ?c then _ else _] => destruct c
           | |- context [match ?l with [] => _ | _ :: _ => _ end] => destruct l
           end; intros [= <- <-]; lia.
Qed.

Lemma runes_RuneLen_pos (l : bytes) : Forall (fun r => 1 <= RuneLen r) (runes l).
Proof.
  unfold runes. induction l as [|p Hne IH] using rune_ind.
  - rewrite decode_nil. constructor.
  - rewrite (decode_cons p Hne). cbn [map]. constructor; [|exact IH].
    apply DecodeRune_RuneLen_pos, Hne.
Qed.

Lemma runeOffset_lower (rs : list Z) :
  Forall (fun r => 1 <= RuneLen r) rs ->
  forall character count off, off <= runeOffset rs character count off.
Proof.
  induction 1 as [|r rs Hr _ IH]; intros character count off; cbn [runeOffset]; [lia|].
  destruct (character <=? count); [lia|].
  destruct (character <? count + utf16Size r); [lia|].
  specialize (IH character (count + utf16Size r) (off + RuneLen r)). lia.
Qed.

Lemma len_dropCR (l : bytes) : len (dropCR l) <= len l.
Proof.
  unfold dropCR. destruct (last l); [|lia].
  destruct (Byte.eqb _ _); [|lia].
  unfold len. rewrite length_take. lia.
Qed.

(** What one call of [Scan] can give. *)
Lemma Scan_cases (data : bytes) :
  match Scan data with
  | Token tok rest =>
      data <> [] /\ (length rest < length data)%nat
      /\ exists l, tok = dropCR l
                   /\ ((rest = [] /\ l = data /\ splitLF data = [data]
                        /\ len data < maxScanTokenSize)
                       \/ (splitLF data = l :: splitLF rest
                           /\ len l + 1 + len rest = len data))
  | Stop true => maxScanTokenSize <= len data
  | Stop false => data = []
  end.
Proof.
  unfold Scan. destruct data as [|c d] eqn:Ed; [reflexivity|]. rewrite <- Ed.
  assert (Hne : data <> []) by (rewrite Ed; discriminate).
  assert (Hpos : 0 < len data) by (rewrite Ed; unfold len; cbn; lia).
  clear Ed c d.
  destruct (splitLF_IndexByte data) as [[Hi Hs] | [Hi [Hs Hl]]].
  - rewrite Hi. replace (0 <=? -1) with false by reflexivity.
    destruct (len data <? maxScanTokenSize) eqn:Hlt; [|lia].
    split; [exact Hne|]. split; [unfold len in Hpos; cbn; lia|].
    exists data. split; [reflexivity|].
    left. split; [reflexivity|]. split; [reflexivity|]. split; [exact Hs | lia].
  - remember (GoStrings.IndexByte data LF) as i eqn:Ei. clear Ei.
    replace (0 <=? i) with true by lia.
    destruct (i <? maxScanTokenSize) eqn:Hlt; [|lia].
    split; [exact Hne|]. split; [rewrite length_drop; unfold len in Hi; lia|].
    exists (slice data 0 i). split; [reflexivity|].
    right. split; [exact Hs|].
    rewrite Hl. unfold len. rewrite length_drop. unfold len in Hi. lia.
Qed.

Lemma len_splitLF_pos (s : bytes) : 1 <= len (splitLF s).
Proof.
  pose proof (splitLF_nonempty s). destruct (splitLF s); [congruence|].
  unfold len. cbn. lia.
Qed.

Lemma onTargetLine_cases (tok : bytes) (pos : Position) (off : Z) :
  0 <= off ->
  match onTargetLine tok pos off with
  | Ok o => 0 <= Character pos /\ off <= o
  | Err ErrNegativeCharacter => Character pos < 0
  | _ => False
  end.
Proof.
  intros Hoff. unfold onTargetLine.
  destruct (Character pos <? 0) eqn:Hc; [lia|].
  destruct (utf16CodeUnitCount (runes tok) <? Character pos).
  - pose proof (len_nonneg tok). lia.
  - pose proof (runeOffset_lower (runes tok) (runes_RuneLen_pos tok) (Character pos) 0 0).
    lia.
Qed.

Lemma scanLoop_cases (pos : Position) (clen : Z) (fuel : nat) :
  0 <= clen ->
  forall (data : bytes) (cur off : Z),
    (length data < fuel)%nat -> cur <= Line pos -> 0 <= off -> len data <= clen ->
    match scanLoop fuel data clen pos cur off with
    | Ok o => 0 <= o
    | Err ErrNegativeCharacter => Character pos < 0
    | Err ErrScan => maxScanTokenSize <= clen
    | _ => False
    end.
Proof.
  intros Hclen. induction fuel as [|fuel IH]; intros data cur off Hf Hcur Hoff Hlen; [lia|].
  cbn [scanLoop]. pose proof (Scan_cases data) as Hs.
  destruct (Scan data) as [tok rest | [|]].
  - destruct Hs as (_ & Hr & _).
    destruct (cur =? Line pos) eqn:Hc.
    + pose proof (onTargetLine_cases tok pos off Hoff) as Ht.
      destruct (onTargetLine tok pos off) as [o | [] |]; try exact Ht; lia.
    + apply IH; try lia.
      * pose proof (len_nonneg tok). lia.
      * unfold len in *. lia.
  - lia.
  - replace (cur <=? Line pos) with true by lia. exact Hclen.
Qed.

Lemma PositionToOffset_cases (content : bytes) (pos : Position) :
  match PositionToOffset content pos with
  | Ok off => 0 <= Line pos /\ 0 <= off
  | Err ErrNegativeLine => Line pos < 0
  | Err ErrNegativeCharacter => 0 <= Line pos /\ Character pos < 0
  | Err ErrScan => 0 <= Line pos /\ maxScanTokenSize <= len content
  | Err ErrLogic => False
  | OutOfFuel => False
  end.
Proof.
  unfold PositionToOffset.
  destruct (Line pos <? 0) eqn:Hl; [lia|].
  pose proof (scanLoop_cases pos (len content) (S (length content)) (len_nonneg content)
                content 0 0 ltac:(lia) ltac:(lia) ltac:(lia) ltac:(lia)) as H.
  destruct (scanLoop _ _ _ _ _ _) as [o | [] |]; try exact H; lia.
Qed.

(** X1.  The results of [PositionToOffset], for every content and
    position: a negative line is always refused; the negative-character
    error needs a negative character, the scan error a content of at least
    64 KiB; an offset returned is not negative; and the final "logic error"
    of the source is never returned (nor is the loop bound of the model
    ever reached). *)
Theorem PositionToOffset_results (content : bytes) (pos : Position) :
  (Line pos < 0 -> PositionToOffset content pos = Err ErrNegativeLine)
  /\ match PositionToOffset content pos with
     | Ok off => 0 <= Line pos /\ 0 <= off
     | Err ErrNegativeLine => Line pos < 0
     | Err ErrNegativeCharacter => 0 <= Line pos /\ Character pos < 0
     | Err ErrScan => 0 <= Line pos /\ maxScanTokenSize <= len content
     | Err ErrLogic => False
     | OutOfFuel => False
     end.
Proof.
  split; [|apply PositionToOffset_cases].
  intros H. unfold PositionToOffset. replace (Line pos <? 0) with true by lia. reflexivity.
Qed.

(** *** Lines beyond the end *)

Lemma scanLoop_beyond (pos : Position) (clen : Z) (fuel : nat) :
  forall (data : bytes) (cur off : Z),
    (length data < fuel)%nat -> len data < maxScanTokenSize ->
    cur + len (splitLF data) <= Line pos ->
    scanLoop fuel data clen pos cur off = Ok clen.
Proof.
  induction fuel as [|fuel IH]; intros data cur off Hf Hlen Hcur; [lia|].
  cbn [scanLoop]. pose proof (Scan_cases data) as Hs.
  pose proof (len_splitLF_pos data) as Hp.
  destruct (Scan data) as [tok rest | [|]].
  - destruct Hs as (_ & Hr & l & _ & Hs).
    replace (cur =? Line pos) with false by lia.
    destruct Hs as [(-> & _ & Hsp & _) | (Hsp & Hl)].
    + destruct fuel as [|fuel]; [cbn in Hf; lia|].
      cbn [scanLoop Scan]. replace (cur + 1 <=? Line pos) with true by lia. reflexivity.
    + apply IH; [lia| |].
      * pose proof (len_nonneg l). lia.
      * rewrite Hsp in Hcur. unfold len in *. cbn [length] in Hcur. lia.
  - lia.
  - replace (cur <=? Line pos) with true by lia. reflexivity.
Qed.

(** X2.  A line number at or beyond the number of lines of a document
    shorter than 64 KiB gives the length of the document, whatever the
    character: a negative character is refused only on a line that
    exists. *)
Theorem PositionToOffset_line_beyond (content : bytes) (line character : Z) :
  len content < maxScanTokenSize -> len (splitLF content) <= line ->
  PositionToOffset content (mkPosition line character) = Ok (len content).
Proof.
  intros Hlen Hline. unfold PositionToOffset. cbn [Line].
  pose proof (len_splitLF_pos content).
  replace (line <? 0) with false by lia.
  apply scanLoop_beyond; cbn [Line]; lia.
Qed.

Lemma PositionToOffset_line_beyond_witness :
  PositionToOffset sampleText (mkPosition 2 (-1)) = Ok (len sampleText).
Proof.
  apply (PositionToOffset_line_beyond sampleText 2 (-1)); vm_compute; [reflexivity | discriminate].
Defined.

(** *** The offset stays inside the document *)

Lemma refColumn_upper (cps : list (Z * nat)) (character : Z) :
  refColumn cps character <= fold_right (fun rn acc => Z.of_nat (snd rn) + acc) 0 cps.
Proof.
  assert (Hnn : forall l : list (Z * nat),
             0 <= fold_right (fun rn acc => Z.of_nat (snd rn) + acc) 0 l).
  { induction l as [|[r' n'] l IH']; cbn in *; lia. }
  revert character. induction cps as [|[r n] cps IH]; intros character; cbn; [lia|].
  destruct (utf16Size r <=? character).
  - specialize (IH (character - utf16Size r)). cbn in IH. lia.
  - specialize (Hnn cps). cbn in Hnn. lia.
Qed.

Lemma onTargetLine_upper (tok : bytes) (pos : Position) (off o : Z) :
  Valid tok = true -> onTargetLine tok pos off = Ok o -> o <= off + len tok.
Proof.
  intros Hv. unfold onTargetLine.
  destruct (Character pos <? 0); [discriminate|].
  destruct (utf16CodeUnitCount (runes tok) <? Character pos); intros [= <-]; [lia|].
  unfold runes. rewrite (runeOffset_refColumn _ _ _ _ (Valid_widthsOk tok Hv)).
  pose proof (refColumn_upper (decode tok) (Character pos - 0)) as H.
  rewrite decode_widths in H. lia.
Qed.

Lemma scanLoop_upper (pos : Position) (clen : Z) (fuel : nat) :
  forall (data : bytes) (cur off o : Z),
    (length data < fuel)%nat ->
    Forall (fun l => Valid (dropCR l) = true) (splitLF data) ->
    off + len data <= clen ->
    scanLoop fuel data clen pos cur off = Ok o -> o <= clen.
Proof.
  induction fuel as [|fuel IH]; intros data cur off o Hf Hv Hoff; [lia|].
  cbn [scanLoop]. pose proof (Scan_cases data) as Hs.
  destruct (Scan data) as [tok rest | [|]]; [|discriminate|].
  - destruct Hs as (_ & Hr & l & -> & Hs).
    destruct Hs as [(-> & -> & Hsp & _) | (Hsp & Hl)];
      rewrite Hsp in Hv; apply Forall_cons in Hv as [Hv Hrest].
    + destruct (cur =? Line pos).
      * intros Ho. apply (onTargetLine_upper _ _ _ _ Hv) in Ho.
        pose proof (len_dropCR data). lia.
      * destruct fuel as [|fuel]; [cbn in Hf; lia|]. cbn [scanLoop Scan].
        destruct (_ <=? _); intros [= <-]; lia.
    + destruct (cur =? Line pos).
      * intros Ho. apply (onTargetLine_upper _ _ _ _ Hv) in Ho.
        pose proof (len_dropCR l). pose proof (len_nonneg rest). lia.
      * apply IH; [lia | exact Hrest |]. pose proof (len_dropCR l). lia.
  - destruct (cur <=? Line pos); intros [= <-]; lia.
Qed.

(** X3.  On a document whose lines, a trailing carriage return left out,
    are well-formed UTF-8, every offset [PositionToOffset] returns lies
    within the document, whatever the line terminators and the length of
    the lines. *)
Theorem PositionToOffset_within_content (content : bytes) (pos : Position) (off : Z) :
  Forall (fun l => Valid (dropCR l) = true) (splitLF content) ->
  PositionToOffset content pos = Ok off ->
  0 <= off <= len content.
Proof.
  intros Hv Ho. split.
  - pose proof (PositionToOffset_cases content pos) as H.
    rewrite Ho in H. lia.
  - revert Ho. unfold PositionToOffset. destruct (Line pos <? 0); [discriminate|].
    apply scanLoop_upper; [lia | exact Hv | lia].
Qed.

Lemma PositionToOffset_within_content_witness : 0 <= 4 <= len crlfText.
Proof.
  apply (PositionToOffset_within_content crlfText (mkPosition 1 1) 4);
    [vm_compute; repeat constructor | reflexivity].
Defined.

End PositionMore.

(** ** The analyzer's helpers *)

Module AnalyzerMore.
Import Sitter Analyzer AnalyzerFacts AnalyzerNotions.

(** *** [calculatePointFromOffset] *)

Lemma uint32_idem_add (x y : Z) : uint32 (uint32 x + y) = uint32 (x + y).
Proof. unfold uint32. apply Zplus_mod_idemp_l. Qed.

Lemma uint32_small (x : Z) : 0 <= x < 2 ^ 32 -> uint32 x = x.
Proof. unfold uint32. apply Z.mod_small. Qed.

Lemma countLF_cons (b : byte) (s : bytes) :
  countLF (b :: s) = (if Byte.eqb b LF then 1 else 0) + countLF s.
Proof.
  unfold countLF. rewrite filter_cons.
  destruct (Byte.eqb b LF) eqn:Hb.
  - apply PositionFacts.byte_eqb_true in Hb. subst b.
    destruct (decide (LF = LF)); [|congruence]. unfold len. cbn [length]. lia.
  - destruct (decide (b = LF)) as [->|_]; [|lia].
    exfalso. revert Hb. vm_compute. discriminate.
Qed.

Lemma countLF_nonneg (s : bytes) : 0 <= countLF s.
Proof. unfold countLF. apply len_nonneg. Qed.

Lemma countLF_le (s : bytes) : countLF s <= len s.
Proof. unfold countLF, len. pose proof (length_filter (fun b => b = LF) s). lia. Qed.

(** The loop on the first [k] bytes: [R] and [C] are the row and column
    counted without wrap-around. *)
Lemma pointLoop_spec (content : bytes) :
  forall (k : nat) (cur off R C : Z) (p : Point),
    (k <= length content)%nat -> off = cur + Z.of_nat k ->
    Row p = uint32 R -> Column p = uint32 C ->
    exists R' C',
      pointLoop content off cur p = mkPoint (uint32 R') (uint32 C')
      /\ R' = R + countLF (take k content)
      /\ (((LF ∉ take k content) /\ C' = C + Z.of_nat k)
          \/ (exists a b, take k content = a ++ LF :: b /\ (LF ∉ b) /\ C' = len b)).
Proof.
  induction content as [|b rest IH]; intros k cur off R C p Hk Hoff HR HC.
  - cbn in Hk. assert (k = 0%nat) as -> by lia. cbn [pointLoop take].
    exists R, C. split; [destruct p; cbn in *; congruence|].
    split; [unfold countLF, len; cbn; lia|].
    left. split; [apply not_elem_of_nil | lia].
  - destruct k as [|k].
    + cbn [pointLoop take]. replace (cur =? off) with true by lia.
      exists R, C. split; [destruct p; cbn in *; congruence|].
      split; [unfold countLF, len; cbn; lia|].
      left. split; [apply not_elem_of_nil | lia].
    + cbn [pointLoop]. replace (cur =? off) with false by lia.
      cbn [length] in Hk. cbn [take]. rewrite countLF_cons.
      destruct (Byte.eqb b LF) eqn:Hb.
      * apply PositionFacts.byte_eqb_true in Hb. subst b.
        destruct (IH k (cur + 1) off (R + 1) 0 (mkPoint (uint32 (Row p + 1)) 0))
          as (R' & C' & Hp & HR' & HC'); [lia | lia | | reflexivity |].
        { cbn [Row]. rewrite HR. apply uint32_idem_add. }
        exists R', C'. split; [exact Hp|]. split; [lia|]. right.
        destruct HC' as [[Hno ->] | (a & b & Ht & Hno & ->)].
        -- exists [], (take k rest). split; [reflexivity|]. split; [exact Hno|].
           unfold len. rewrite length_take. lia.
        -- exists (LF :: a), b. split; [rewrite Ht; reflexivity|]. split; [exact Hno | reflexivity].
      * destruct (IH k (cur + 1) off R (C + 1) (mkPoint (Row p) (uint32 (Column p + 1))))
          as (R' & C' & Hp & HR' & HC'); [lia | lia | exact HR | |].
        { cbn [Column]. rewrite HC. apply uint32_idem_add. }
        exists R', C'. split; [exact Hp|]. split; [lia|].
        destruct HC' as [[Hno ->] | (a & b' & Ht & Hno & ->)].
        -- left. split; [|lia]. rewrite not_elem_of_cons. split; [|exact Hno].
           intros Heq. subst b. revert Hb. vm_compute. discriminate.
        -- right. exists (b :: a), b'. split; [rewrite Ht; reflexivity|].
           split; [exact Hno | reflexivity].
Qed.

Lemma slice_lookup {A} (s : list A) (a b : Z) (i : nat) :
  0 <= a -> (i < Z.to_nat (b - a))%nat -> slice s a b !! i = s !! (Z.to_nat a + i)%nat.
Proof.
  intros Ha Hi. unfold slice. rewrite lookup_take_lt by exact Hi. apply lookup_drop.
Qed.

Lemma slice_not_elem (s : bytes) (a b : Z) (i : nat) (x : byte) :
  0 <= a -> (x ∉ slice s a b) -> a <= Z.of_nat i < b -> s !! i <> Some x.
Proof.
  intros Ha Hno Hi Hl. apply Hno. apply list_elem_of_lookup.
  exists (i - Z.to_nat a)%nat. rewrite slice_lookup by lia.
  rewrite <- Hl. f_equal. lia.
Qed.

(** The column counted by the loop is the distance to the start of the
    line, for any start of line in the sense of [ExtractContext]. *)
Lemma column_line_start (content : bytes) (o ls le C' : Z) :
  0 <= ls <= o -> o <= le <= len content ->
  (LF ∉ slice content ls le) ->
  (ls = 0 \/ content !! Z.to_nat (ls - 1) = Some LF) ->
  (((LF ∉ take (Z.to_nat o) content) /\ C' = 0 + Z.of_nat (Z.to_nat o))
   \/ (exists a b, take (Z.to_nat o) content = a ++ LF :: b /\ (LF ∉ b) /\ C' = len b)) ->
  C' = o - ls.
Proof.
  intros Hls Hle Hno Hstart [[Hno' ->] | (a & b & Ht & Hnob & ->)].
  - destruct (Z.eq_dec ls 0) as [-> | Hnz]; [lia|].
    destruct Hstart as [-> | Hl]; [lia|]. exfalso. apply Hno'.
    apply list_elem_of_lookup. exists (Z.to_nat (ls - 1)).
    rewrite lookup_take_lt by lia. exact Hl.
  - assert (Hlen : (length a + 1 + length b)%nat = Z.to_nat o).
    { apply (f_equal length) in Ht. rewrite length_take, length_app in Ht. cbn in Ht.
      unfold len in Hle. lia. }
    assert (Ha : content !! length a = Some LF).
    { rewrite <- (lookup_take_lt content (Z.to_nat o)) by lia.
      rewrite Ht. rewrite lookup_app_r by lia. rewrite Nat.sub_diag. reflexivity. }
    destruct (Z_lt_le_dec (Z.of_nat (length a)) ls) as [Hlt | Hge].
    + destruct (Z.eq_dec ls (Z.of_nat (length a) + 1)) as [-> | Hne];
        [unfold len; lia|].
      exfalso. destruct Hstart as [-> | Hl]; [lia|].
      apply Hnob. apply list_elem_of_lookup.
      exists (Z.to_nat (ls - 1) - length a - 1)%nat.
      remember (Z.to_nat (ls - 1) - length a - 1)%nat as i eqn:Hi.
      assert (Hidx : Z.to_nat (ls - 1) = (length a + S i)%nat) by lia.
      rewrite <- Hl, Hidx. rewrite <- (lookup_take_lt content (Z.to_nat o)) by lia.
      rewrite Ht. rewrite lookup_app_r by lia.
      replace (length a + S i - length a)%nat with (S i) by lia.
      reflexivity.
    + exfalso. exact (slice_not_elem content ls le (length a) LF ltac:(lia) Hno ltac:(lia) Ha).
Qed.

Section Point.

Variable NDPR : NodeRef -> Point -> Point -> option NodeRef.

(** X4.  The point [calculatePointFromOffset] computes for a cursor offset
    agrees with the line [ExtractContext] finds for it: the row is the
    number of line feeds before the (clamped) cursor and the column is the
    byte length of [CurrentLinePrefix], both as [uint32]; without
    wrap-around for a content shorter than 4 GiB. *)
Theorem point_agrees_with_current_line (content : bytes) (root : NodeRef)
        (passed : option NodeRef) (off : Z) (languageID filename : string) :
  exists ctx : ContextInfo,
    ExtractContext NDPR content (Some root) passed off languageID filename = Ok ctx
    /\ Column (calculatePointFromOffset content off) = uint32 (len (CurrentLinePrefix ctx))
    /\ Row (calculatePointFromOffset content off)
       = uint32 (countLF (slice content 0 (clampOffset content off)))
    /\ (len content < 2 ^ 32 ->
        Column (calculatePointFromOffset content off) = len (CurrentLinePrefix ctx)
        /\ Row (calculatePointFromOffset content off)
           = countLF (slice content 0 (clampOffset content off))).
Proof.
  destruct (ExtractContext_spec NDPR content root passed off languageID filename)
    as (ls & le & ci & ei & Hls & Hle & Hno & Hstart & _ & Hctx).
  pose proof (clampOffset_range content off) as Ho.
  set (o := clampOffset content off) in *.
  eexists. split; [exact Hctx|]. cbn [CurrentLinePrefix].
  assert (Hp : calculatePointFromOffset content off
               = pointLoop content o 0 (mkPoint 0 0)).
  { unfold calculatePointFromOffset, o, clampOffset.
    destruct (off <? 0) eqn:H0.
    - replace (len content <? 0) with false by (pose proof (len_nonneg content); lia).
      reflexivity.
    - reflexivity. }
  destruct (pointLoop_spec content (Z.to_nat o) 0 o 0 0 (mkPoint 0 0))
    as (R' & C' & Hloop & HR' & HC'); [unfold len in Ho; lia | lia | reflexivity ..|].
  rewrite Hp, Hloop. cbn [Row Column].
  assert (Htake : take (Z.to_nat o) content = slice content 0 o).
  { unfold slice. rewrite Z.sub_0_r. reflexivity. }
  assert (HC : C' = o - ls) by (eapply column_line_start; eauto).
  assert (Hlen : len (slice content ls o) = o - ls) by (apply len_slice; lia).
  rewrite Hlen, <- Htake, HR', HC, Z.add_0_l.
  split; [reflexivity|]. split; [reflexivity|].
  intros Hsmall.
  pose proof (countLF_nonneg (take (Z.to_nat o) content)).
  pose proof (countLF_le (take (Z.to_nat o) content)) as Hcl.
  unfold len in Hcl at 1. rewrite length_take in Hcl. unfold len in Ho.
  split; apply uint32_small; lia.
Qed.

End Point.

(** *** [findAncestorOfType] and the enclosing block *)

Lemma firstOfType_unfold (typeSet : gset string) (n : Node) (anc : list Node) :
  firstOfType typeSet n anc
  = if bool_decide (Kind n ∈ typeSet) then Some (mkRef n anc)
    else match anc with
         | [] => None
         | p :: rest => firstOfType typeSet p rest
         end.
Proof. destruct anc; reflexivity. Qed.

Lemma firstOfType_spec (types : list string) (anc : list Node) :
  forall n : Node,
    match firstOfType (list_to_set types) n anc with
    | Some a =>
        exists skipped, n :: anc = skipped ++ chain a
                        /\ Kind (node a) ∈ types
                        /\ Forall (fun m => Kind m ∉ types) skipped
    | None => Forall (fun m => Kind m ∉ types) (n :: anc)
    end.
Proof.
  induction anc as [|p rest IH]; intros n; rewrite firstOfType_unfold;
    destruct (bool_decide (Kind n ∈ (list_to_set types : gset string))) eqn:Hb.
  - apply bool_decide_eq_true in Hb. apply elem_of_list_to_set in Hb.
    exists []. split; [reflexivity|]. split; [exact Hb | constructor].
  - apply bool_decide_eq_false in Hb. rewrite elem_of_list_to_set in Hb.
    constructor; [exact Hb | constructor].
  - apply bool_decide_eq_true in Hb. apply elem_of_list_to_set in Hb.
    exists []. split; [reflexivity|]. split; [exact Hb | constructor].
  - apply bool_decide_eq_false in Hb. rewrite elem_of_list_to_set in Hb.
    specialize (IH p). destruct (firstOfType (list_to_set types) p rest) as [a|].
    + destruct IH as (skipped & Heq & Hk & Hall).
      exists (n :: skipped). split; [cbn; rewrite Heq; reflexivity|].
      split; [exact Hk|]. constructor; assumption.
    + constructor; assumption.
Qed.

(** X5.  [findAncestorOfType] returns the nearest node on the path from the
    start node to the root, the start node included, whose kind is one of
    [types], leaving nothing of such a kind nearer; it returns nil when the
    path holds none, when the start node is nil and when [types] is
    empty. *)
Theorem findAncestorOfType_nearest (start : NodeRef) (types : list string) :
  match findAncestorOfType (Some start) types with
  | Some a =>
      exists skipped, chain start = skipped ++ chain a
                      /\ Type_ a ∈ types
                      /\ Forall (fun m => Kind m ∉ types) skipped
  | None => Forall (fun m => Kind m ∉ types) (chain start)
  end
  /\ findAncestorOfType None types = None
  /\ findAncestorOfType (Some start) [] = None.
Proof.
  split; [|split; reflexivity].
  unfold findAncestorOfType.
  destruct (bool_decide (length types = 0%nat)) eqn:Hb.
  - apply bool_decide_eq_true in Hb. destruct types; [|discriminate].
    apply Forall_forall. intros m _. apply not_elem_of_nil.
  - apply firstOfType_spec.
Qed.

Lemma calculatePointFromOffset_clamp (content : bytes) (off : Z) :
  calculatePointFromOffset content (clampOffset content off)
  = calculatePointFromOffset content off.
Proof.
  unfold calculatePointFromOffset. pose proof (clampOffset_range content off) as Ho.
  destruct (clampOffset content off <? 0) eqn:H0; [lia|].
  destruct (len content <? clampOffset content off) eqn:H1; [lia|].
  unfold clampOffset.
  destruct (off <? 0) eqn:H2.
  - replace (len content <? 0) with false by (pose proof (len_nonneg content); lia).
    reflexivity.
  - destruct (len content <? off); reflexivity.
Qed.

Section Enclosing.

Variable NDPR : NodeRef -> Point -> Point -> option NodeRef.

(** The two node descriptions of the result are those of the start node
    and of its nearest enclosing block. *)
Lemma ExtractContext_nodes (content : bytes) (root : NodeRef) (passed : option NodeRef)
      (off : Z) (languageID filename : string) (ctx : ContextInfo) :
  ExtractContext NDPR content (Some root) passed off languageID filename = Ok ctx ->
  optNodeInfo content (searchStart NDPR content root passed off) = Ok (CursorNode ctx)
  /\ optNodeInfo content
       (findAncestorOfType (searchStart NDPR content root passed off)
                           (enclosingTypes languageID))
     = Ok (EnclosingNode ctx).
Proof.
  unfold ExtractContext, searchStart, enclosingTypes.
  fold (clampOffset content off). rewrite calculatePointFromOffset_clamp.
  set (point := calculatePointFromOffset content off).
  set (cursorNode := match passed with Some n => Some n | None => NDPR root point point end).
  assert (Hsame : match cursorNode with Some n => Some n | None => NDPR root point point end
                  = cursorNode).
  { unfold cursorNode. destruct passed; [reflexivity|]. destruct (NDPR root point point); reflexivity. }
  rewrite Hsame.
  repeat match goal with
         | |- context [@mbind result _ _ _ _ ?m] =>
             destruct m eqn:?; cbn [mbind result_bind bind]; try discriminate
         end.
  intros [= <-]. cbn [CursorNode EnclosingNode]. split; reflexivity.
Qed.

Lemma optNodeInfo_Some (content : bytes) (r : NodeRef) :
  exists text, getNodeText (Some r) content = Ok text
               /\ optNodeInfo content (Some r)
                  = Ok (Some (mkNodeInfo (Type_ r) text (StartByte r) (EndByte r))).
Proof.
  unfold optNodeInfo, nodeInfo, getNodeText.
  destruct (nodeText_ok (node r) content) as [t Ht]. exists t. rewrite Ht. split; reflexivity.
Qed.

(** X6.  The node descriptions [ExtractContext] returns.  [CursorNode]
    describes the start node (the node passed in or, without one, the named
    node at the cursor), with its kind, span and text.  [EnclosingNode] is
    nil exactly when no node on the path from the start node to the root
    has a function or class kind of the language; otherwise it describes
    the nearest such node.  Without a start node, and for a language with
    no entry in either table, both the search and [EnclosingNode] are
    nil. *)
Theorem ExtractContext_enclosing_block (content : bytes) (root : NodeRef)
        (passed : option NodeRef) (off : Z) (languageID filename : string) :
  exists ctx : ContextInfo,
    ExtractContext NDPR content (Some root) passed off languageID filename = Ok ctx
    /\ match searchStart NDPR content root passed off with
       | None => CursorNode ctx = None /\ EnclosingNode ctx = None
       | Some r =>
           (exists text,
              getNodeText (Some r) content = Ok text
              /\ CursorNode ctx
                 = Some (mkNodeInfo (Type_ r) text (StartByte r) (EndByte r)))
           /\ (EnclosingNode ctx = None
               <-> Forall (fun m => Kind m ∉ enclosingTypes languageID) (chain r))
           /\ (forall info, EnclosingNode ctx = Some info ->
                 exists skipped a text,
                   chain r = skipped ++ chain a
                   /\ Forall (fun m => Kind m ∉ enclosingTypes languageID) skipped
                   /\ (Type_ a ∈ enclosingTypes languageID)
                   /\ getNodeText (Some a) content = Ok text
                   /\ info = mkNodeInfo (Type_ a) text (StartByte a) (EndByte a))
       end
    /\ (functionNodeTypes !! languageID = None -> classNodeTypes !! languageID = None ->
        EnclosingNode ctx = None).
Proof.
  destruct (ExtractContext_spec NDPR content root passed off languageID filename)
    as (ls & le & ci & ei & _ & _ & _ & _ & _ & Hctx).
  eexists. split; [exact Hctx|].
  destruct (ExtractContext_nodes _ _ _ _ _ _ _ Hctx) as [Hc He].
  cbn [CursorNode EnclosingNode] in *.
  split.
  - destruct (searchStart NDPR content root passed off) as [r|].
    + destruct (optNodeInfo_Some content r) as (text & Ht & Hinfo).
      rewrite Hinfo in Hc. injection Hc as <-.
      split; [exists text; split; [exact Ht | reflexivity]|].
      pose proof (firstOfType_spec (enclosingTypes languageID) (ancestors r) (node r)) as Hf.
      unfold findAncestorOfType in He.
      destruct (bool_decide (length (enclosingTypes languageID) = 0%nat)) eqn:Hb.
      * injection He as <-. apply bool_decide_eq_true in Hb.
        destruct (enclosingTypes languageID); [|discriminate].
        split; [|discriminate].
        split; [|reflexivity]. intros _. apply Forall_forall. intros m _. apply not_elem_of_nil.
      * destruct (firstOfType _ (node r) (ancestors r)) as [a|].
        -- destruct Hf as (skipped & Heq & Hk & Hall).
           destruct (optNodeInfo_Some content a) as (ta & Hta & Hia).
           rewrite Hia in He. injection He as <-.
           split.
           ++ split; [discriminate|]. intros Hnone. exfalso.
              unfold chain in Hnone at 1. rewrite Heq in Hnone.
              apply Forall_app in Hnone as [_ Hn]. apply Forall_cons in Hn as [Hn _].
              exact (Hn Hk).
           ++ intros info [= <-]. exists skipped, a, ta.
              split; [exact Heq|]. split; [exact Hall|]. split; [exact Hk|].
              split; [exact Hta | reflexivity].
        -- injection He as <-. split; [|discriminate]. split; [|reflexivity].
           intros _. exact Hf.
    + cbn in Hc, He. injection Hc as <-. injection He as <-. split; reflexivity.
  - intros Hf Hcl. unfold enclosingTypes, tableGet in He. rewrite Hf, Hcl in He.
    cbn [default app] in He.
    destruct (searchStart NDPR content root passed off); unfold findAncestorOfType in He;
      [rewrite bool_decide_eq_true_2 in He by reflexivity|]; cbn in He; congruence.
Qed.

End Enclosing.

(** *** [cleanImportText] for Python and JavaScript *)

Lemma spaceSeqs_nonempty : Forall (fun q : bytes => q <> []) GoStrings.spaceSeqs.
Proof. unfold GoStrings.spaceSeqs. repeat constructor; discriminate. Qed.

Lemma asciiSpace_spaceSeqs (b : byte) : b ∈ asciiSpace -> [b] ∈ GoStrings.spaceSeqs.
Proof.
  unfold asciiSpace, GoStrings.spaceSeqs. intros H.
  repeat (apply elem_of_cons in H as [-> | H]); [repeat constructor ..|inversion H].
Qed.

Lemma HasPrefix_head (b : byte) (s : bytes) : GoStrings.HasPrefix (b :: s) [b] = true.
Proof.
  cbn [GoStrings.HasPrefix]. rewrite AIFacts.HasPrefix_nil, andb_true_r.
  apply PositionFacts.byte_eqb_true. reflexivity.
Qed.

Lemma spaceAt_asciiSpace (b : byte) (s : bytes) :
  b ∈ asciiSpace -> GoStrings.spaceAt GoStrings.spaceSeqs (b :: s) <> 0%nat.
Proof.
  intros Hb. unfold GoStrings.spaceAt.
  destruct (filter _ GoStrings.spaceSeqs) as [|q l] eqn:Hf.
  - exfalso. apply (not_elem_of_nil [b]). rewrite <- Hf.
    apply list_elem_of_filter. split; [|apply asciiSpace_spaceSeqs, Hb].
    rewrite HasPrefix_head. exact I.
  - assert (Hq : q ∈ filter (fun q => Is_true (GoStrings.HasPrefix (b :: s) q))
                       GoStrings.spaceSeqs) by (rewrite Hf; left).
    apply list_elem_of_filter in Hq as [_ Hq].
    pose proof (proj1 (Forall_forall _ _) spaceSeqs_nonempty q Hq) as Hne.
    destruct q; [congruence | cbn; lia].
Qed.

Lemma fieldsAux_words (s : bytes) :
  forall (skip : nat) (cur : bytes),
    (forall b, b ∈ asciiSpace -> b ∉ cur) ->
    Forall isWord (GoStrings.fieldsAux skip cur s).
Proof.
  induction s as [|c s IH]; intros skip cur Hcur; cbn [GoStrings.fieldsAux].
  - destruct cur as [|x cur]; [constructor|].
    constructor; [split; [discriminate | exact Hcur] | constructor].
  - destruct skip as [|k]; [|apply IH, Hcur].
    destruct (GoStrings.spaceAt GoStrings.spaceSeqs (c :: s)) as [|k] eqn:Hsp.
    + apply IH. intros b Hb. rewrite elem_of_app, list_elem_of_singleton.
      intros [Hin | ->]; [exact (Hcur b Hb Hin)|].
      exact (spaceAt_asciiSpace c s Hb Hsp).
    + destruct cur as [|x cur].
      * apply IH. intros b _. apply not_elem_of_nil.
      * constructor; [split; [discriminate | exact Hcur]|].
        apply IH. intros b _. apply not_elem_of_nil.
Qed.

Lemma Fields_words (s : bytes) : Forall isWord (GoStrings.Fields s).
Proof. apply fieldsAux_words. intros b _. apply not_elem_of_nil. Qed.

(** X7.  For Python, JavaScript and TypeScript the cleaned import text is a
    sequence of words (non-empty, free of tabs, line feeds, carriage returns
    and spaces) separated by single spaces: a statement spread over several
    lines comes out on one line, without leading, trailing or repeated
    spaces. *)
Theorem cleanImportText_words (importText : bytes) (languageID : string) :
  languageID = "python"%string \/ languageID = "javascript"%string
  \/ languageID = "typescript"%string ->
  exists words : list bytes,
    cleanImportText importText languageID = GoStrings.Join words [SP]
    /\ Forall isWord words.
Proof.
  intros Hl.
  set (x := GoStrings.ReplaceAllByte (GoStrings.TrimSpace importText) LF [SP]).
  assert (Hc : cleanImportText importText languageID
               = if bool_decide (length (GoStrings.Fields
                                           (GoStrings.Join (GoStrings.Fields x) [SP])) = 0%nat)
                 then [] else GoStrings.Join (GoStrings.Fields x) [SP]).
  { unfold cleanImportText. fold x.
    destruct Hl as [-> | [-> | ->]]; cbn [String.eqb Ascii.eqb Bool.eqb orb]; reflexivity. }
  rewrite Hc. destruct (bool_decide _).
  - exists []. split; [reflexivity | constructor].
  - exists (GoStrings.Fields x). split; [reflexivity | apply Fields_words].
Qed.

Lemma cleanImportText_words_witness :
  exists words : list bytes,
    cleanImportText pythonImport "python" = GoStrings.Join words [SP]
    /\ Forall isWord words.
Proof.
  apply (cleanImportText_words pythonImport "python"). left. reflexivity.
Defined.

Example cleanImportText_python_ex :
  cleanImportText pythonImport "python" = B "from os import ( path, sep )".
Proof. vm_compute. reflexivity. Qed.

End AnalyzerMore.

(** ** The helpers of package ai *)

Module AIMore.
Import AI AIHelpers AIFacts.

Lemma partOf_refl (s : bytes) : partOf s s.
Proof. exists [], []. rewrite app_nil_r. reflexivity. Qed.

Lemma partOf_trans (a b c : bytes) : partOf a b -> partOf b c -> partOf a c.
Proof.
  intros (p1 & q1 & ->) (p2 & q2 & ->).
  exists (p2 ++ p1), (q1 ++ q2). rewrite <- !app_assoc. reflexivity.
Qed.

Lemma partOf_drop (k : nat) (s : bytes) : partOf (drop k s) s.
Proof. exists (take k s), []. rewrite app_nil_r, take_drop. reflexivity. Qed.

Lemma partOf_take (k : nat) (s : bytes) : partOf (take k s) s.
Proof. exists [], (drop k s). cbn. rewrite take_drop. reflexivity. Qed.

Lemma partOf_rev (a s : bytes) : partOf a s -> partOf (rev a) (rev s).
Proof.
  intros (p & q & ->). exists (rev q), (rev p).
  rewrite !rev_app_distr, <- app_assoc. reflexivity.
Qed.

Lemma partOf_len (a s : bytes) : partOf a s -> len a <= len s.
Proof. intros (p & q & ->). unfold len. rewrite !length_app. lia. Qed.

Lemma TrimPrefix_partOf (s p : bytes) : partOf (GoStrings.TrimPrefix s p) s.
Proof.
  unfold GoStrings.TrimPrefix. destruct (GoStrings.HasPrefix s p);
    [apply partOf_drop | apply partOf_refl].
Qed.

Lemma TrimSuffix_partOf (s p : bytes) : partOf (GoStrings.TrimSuffix s p) s.
Proof.
  unfold GoStrings.TrimSuffix. destruct (GoStrings.HasSuffix s p);
    [apply partOf_take | apply partOf_refl].
Qed.

Lemma trimLeftSpaces_partOf (seqs : list bytes) (s : bytes) :
  forall skip : nat, partOf (GoStrings.trimLeftSpaces seqs skip s) s.
Proof.
  induction s as [|c s IH]; intros skip; cbn [GoStrings.trimLeftSpaces];
    [apply partOf_refl|].
  assert (Hs : forall k, partOf (GoStrings.trimLeftSpaces seqs k s) (c :: s)).
  { intros k. eapply partOf_trans; [apply IH|]. apply (partOf_drop 1 (c :: s)). }
  destruct skip as [|k]; [|apply Hs].
  destruct (GoStrings.spaceAt seqs (c :: s)); [apply partOf_refl | apply Hs].
Qed.

Lemma TrimSpace_partOf (s : bytes) : partOf (GoStrings.TrimSpace s) s.
Proof.
  unfold GoStrings.TrimSpace.
  eapply partOf_trans; [|apply (trimLeftSpaces_partOf GoStrings.spaceSeqs s 0)].
  set (l := GoStrings.trimLeftSpaces GoStrings.spaceSeqs 0 s).
  rewrite <- (rev_involutive l) at 2. apply partOf_rev, trimLeftSpaces_partOf.
Qed.

Section Clean.

Variable ToLower : bytes -> bytes.

Lemma cleanEndTokenAndFences_partOf (rawResponse : bytes) (languageID : string) :
  partOf (cleanEndTokenAndFences ToLower rawResponse languageID) rawResponse.
Proof.
  unfold cleanEndTokenAndFences.
  eapply partOf_trans; [apply TrimSpace_partOf|].
  eapply partOf_trans; [apply TrimSuffix_partOf|].
  eapply partOf_trans; [apply TrimPrefix_partOf|].
  eapply partOf_trans; [apply TrimPrefix_partOf|].
  apply TrimSuffix_partOf.
Qed.

Lemma cleanSuggestions_partOf (rawResponse : bytes) (languageID : string) :
  partOf (cleanSuggestions ToLower rawResponse languageID) rawResponse.
Proof.
  unfold cleanSuggestions.
  match goal with
  | |- partOf (if _ then slice ?c 0 ?i else _) _ =>
      assert (Hc : partOf c rawResponse)
  end.
  { eapply partOf_trans; [apply TrimSpace_partOf|].
    eapply partOf_trans; [apply TrimSuffix_partOf|].
    eapply partOf_trans; [apply TrimSuffix_partOf|].
    eapply partOf_trans; [apply TrimPrefix_partOf|].
    eapply partOf_trans; [apply TrimPrefix_partOf|].
    apply TrimPrefix_partOf. }
  destruct (negb _); [|exact Hc].
  eapply partOf_trans; [|exact Hc]. unfold slice. cbn [Z.to_nat drop]. apply partOf_take.
Qed.

(** X8.  Whatever a backend replies, the suggestion a client returns is a
    contiguous part of that reply: cleaning only removes text at both ends
    and never rewrites or inserts a byte; in particular the suggestion is
    never longer than the reply. *)
Theorem suggestion_is_part_of_reply (p : Provider) (rawResponse : bytes)
        (languageID : string) :
  partOf (suggestionOf ToLower p rawResponse languageID) rawResponse
  /\ len (suggestionOf ToLower p rawResponse languageID) <= len rawResponse.
Proof.
  assert (H : partOf (suggestionOf ToLower p rawResponse languageID) rawResponse).
  { destruct p; cbn [suggestionOf];
      first [apply cleanSuggestions_partOf | apply cleanEndTokenAndFences_partOf]. }
  split; [exact H | apply partOf_len, H].
Qed.

End Clean.

(** *** [safeContentSuffix] *)

Lemma HasPrefix_spec (p : bytes) :
  forall s : bytes, GoStrings.HasPrefix s p = true <-> exists t, s = p ++ t.
Proof.
  induction p as [|c p IH]; intros s.
  - rewrite HasPrefix_nil. split; [intros _; exists s; reflexivity | reflexivity].
  - destruct s as [|d s]; cbn [GoStrings.HasPrefix].
    + split; [discriminate | intros [t Ht]; discriminate].
    + rewrite andb_true_iff, PositionFacts.byte_eqb_true, IH. split.
      * intros [-> [t ->]]. exists t. reflexivity.
      * intros [t [= -> ->]]. split; [reflexivity | exists t; reflexivity].
Qed.

(** [LastIndex] finds the last occurrence, or reports that there is none. *)
Lemma LastIndex_spec (sep s : bytes) :
  (LastIndex s sep = -1 /\ forall pre post, s <> pre ++ sep ++ post)
  \/ (0 <= LastIndex s sep
      /\ exists pre post,
           s = pre ++ sep ++ post /\ len pre = LastIndex s sep
           /\ forall pre' post', s = pre' ++ sep ++ post' -> len pre' <= len pre).
Proof.
  induction s as [|c s IH]; cbn [LastIndex].
  - destruct (GoStrings.HasPrefix [] sep) eqn:Hp.
    + right. split; [lia|]. apply HasPrefix_spec in Hp as [t Ht].
      exists [], t. split; [exact Ht|]. split; [reflexivity|].
      intros pre' post' H. destruct pre'; [unfold len; cbn; lia | discriminate].
    + left. split; [reflexivity|]. intros pre post H.
      destruct pre; [|discriminate]. cbn in H.
      assert (GoStrings.HasPrefix [] sep = true) by (apply HasPrefix_spec; eauto).
      congruence.
  - destruct IH as [[Hi Hno] | (Hi & pre & post & Hs & Hlen & Hmax)].
    + rewrite Hi. replace (0 <=? -1) with false by reflexivity.
      destruct (GoStrings.HasPrefix (c :: s) sep) eqn:Hp.
      * right. split; [lia|]. apply HasPrefix_spec in Hp as [t Ht].
        exists [], t. split; [exact Ht|]. split; [reflexivity|].
        intros pre' post' H. destruct pre' as [|d pre']; [unfold len; cbn; lia|].
        injection H as _ H. exfalso. exact (Hno _ _ H).
      * left. split; [reflexivity|]. intros pre post H.
        destruct pre as [|d pre].
        -- assert (GoStrings.HasPrefix (c :: s) sep = true)
             by (apply HasPrefix_spec; exists post; exact H).
           congruence.
        -- injection H as _ H. exact (Hno _ _ H).
    + replace (0 <=? LastIndex s sep) with true by lia.
      right. split; [lia|]. exists (c :: pre), post.
      split; [rewrite Hs at 1; reflexivity|].
      split; [unfold len in *; cbn [length]; lia|].
      intros pre' post' H. destruct pre' as [|d pre']; [unfold len; cbn; lia|].
      injection H as _ H. specialize (Hmax _ _ H). unfold len in *. cbn [length]. lia.
Qed.

(** X9.  [safeContentSuffix] never panics.  Without an enclosing node, or
    when [suffix] does not occur in its content, it returns the empty
    string; otherwise it returns the first 500 bytes, at most, of what
    follows the last occurrence of [suffix]. *)
Theorem safeContentSuffix_spec (enclosingNode : option Analyzer.NodeInfo) (suffix : bytes) :
  exists r : bytes,
    safeContentSuffix enclosingNode suffix = Analyzer.Ok r
    /\ len r <= 500
    /\ match enclosingNode with
       | None => r = []
       | Some ni =>
           ((forall pre post, Analyzer.niContent ni <> pre ++ suffix ++ post) /\ r = [])
           \/ (exists pre post,
                 Analyzer.niContent ni = pre ++ suffix ++ post
                 /\ (forall pre' post', Analyzer.niContent ni = pre' ++ suffix ++ post' ->
                                        len pre' <= len pre)
                 /\ r = take 500 post)
       end.
Proof.
  destruct enclosingNode as [ni|]; cbn [safeContentSuffix].
  2:{ exists []. split; [reflexivity|]. split; [unfold len; cbn; lia | reflexivity]. }
  set (s := Analyzer.niContent ni).
  destruct (LastIndex_spec suffix s) as [[Hi Hno] | (Hi & pre & post & Hs & Hlen & Hmax)].
  - rewrite Hi. cbn [Z.eqb negb]. exists []. split; [reflexivity|].
    split; [unfold len; cbn; lia|]. left. split; [exact Hno | reflexivity].
  - replace (LastIndex s suffix =? -1) with false by lia. cbn [negb].
    rewrite <- Hlen.
    assert (Hl : len s = len pre + len suffix + len post).
    { rewrite Hs at 1. rewrite !len_app. lia. }
    pose proof (len_nonneg pre). pose proof (len_nonneg suffix). pose proof (len_nonneg post).
    assert (Htake : len (take 500 post) <= 500).
    { unfold len. rewrite length_take. lia. }
    exists (take 500 post). split.
    + destruct (len pre + len suffix <? len s) eqn:Hlt.
      * set (e := if len s <? len pre + len suffix + 500 then len s
                  else len pre + len suffix + 500).
        assert (He : len pre + len suffix <= e <= len s)
          by (unfold e; destruct (len s <? _) eqn:?; lia).
        unfold slice_checked.
        replace ((0 <=? len pre + len suffix) && (len pre + len suffix <=? e) && (e <=? len s))
          with true by (symmetry; rewrite !andb_true_iff; lia).
        cbn [Analyzer.orPanic]. f_equal. unfold slice.
        rewrite Hs at 1. rewrite app_assoc.
        rewrite drop_app_length'; [|unfold len in *; rewrite length_app; lia].
        destruct (len s <? len pre + len suffix + 500) eqn:Hc; subst e.
        -- rewrite !take_ge; [reflexivity | unfold len in *; lia | unfold len in *; lia].
        -- f_equal. lia.
      * assert (post = []) as ->; [|reflexivity].
        destruct post; [reflexivity|]. unfold len in *. cbn [length] in *. lia.
    + split; [exact Htake|]. right. exists pre, post.
      split; [exact Hs|]. split; [exact Hmax | reflexivity].
Qed.

End AIMore.

(** ** Package config *)

Module ConfigMore.
Import Config.

Section Load.

Variable Getenv : string -> string.
Variable ParseDuration : string -> option Z.

Lemma isEmpty_false (s : string) : isEmpty s = false -> s <> ""%string.
Proof. unfold isEmpty. apply String.eqb_neq. Qed.

Lemma isEmpty_true (s : string) : isEmpty s = true -> s = ""%string.
Proof. unfold isEmpty. apply String.eqb_eq. Qed.

(** Each paragraph of the fallbacks, on a configuration given by its
    fields. *)

Lemma fallbackTimeout_fields pr mo ti ps d :
  fallbackTimeout ParseDuration (mkConfig pr mo ti ps d)
  = mkConfig pr mo ti ps
      (Z.max (500 * Millisecond)
             (match ParseDuration ti with Some d0 => d0 | None => 10 * Second end)).
Proof.
  unfold fallbackTimeout, setTimeoutDuration. cbn [Provider Model Timeout cfgProviders].
  f_equal. cbv zeta.
  destruct (_ <=? _) eqn:H; lia.
Qed.

Lemma fallbackAPIKeys_fields pr mo ti k1 m1 k2 e2 dp2 v2 m2 k3 m3 v3 k4 m4 ol d :
  fallbackAPIKeys Getenv
    (mkConfig pr mo ti (mkProviders (mkOpenAI k1 m1) (mkAzure k2 e2 dp2 v2 m2)
                                    (mkAnthropic k3 m3 v3) (mkGemini k4 m4) ol) d)
  = mkConfig pr mo ti
      (mkProviders (mkOpenAI (orElse k1 (Getenv "OPENAI_API_KEY")) m1)
                   (mkAzure (orElse k2 (Getenv "AZURE_OPENAI_KEY")) e2 dp2 v2 m2)
                   (mkAnthropic (orElse k3 (Getenv "ANTHROPIC_API_KEY")) m3 v3)
                   (mkGemini (orElse k4 (Getenv "GOOGLE_API_KEY")) m4) ol) d.
Proof. reflexivity. Qed.

Lemma fallbackAzure_fields pr mo ti oa k2 e2 dp2 v2 m2 an gm ol d :
  fallbackAzure Getenv
    (mkConfig pr mo ti (mkProviders oa (mkAzure k2 e2 dp2 v2 m2) an gm ol) d)
  = mkConfig pr mo ti
      (mkProviders oa
         (mkAzure k2
            (if String.eqb pr "azure" then orElse e2 (Getenv "AZURE_OPENAI_ENDPOINT") else e2)
            (if String.eqb pr "azure" then orElse dp2 (Getenv "AZURE_OPENAI_DEPLOYMENT")
             else dp2)
            v2 m2)
         an gm ol) d.
Proof.
  unfold fallbackAzure, orEnv, orElse. cbv zeta.
  cbn [Provider cfgProviders Azure azEndpoint azDeploymentID azAPIKey azAPIVersion azModel].
  destruct (String.eqb pr "azure"); [|reflexivity].
  destruct (isEmpty e2), (isEmpty dp2); reflexivity.
Qed.

Lemma fallbackOllamaHost_fields pr mo ti oa az an gm h5 m5 d :
  fallbackOllamaHost Getenv
    (mkConfig pr mo ti (mkProviders oa az an gm (mkOllama h5 m5)) d)
  = mkConfig pr mo ti
      (mkProviders oa az an gm
         (mkOllama (orElse h5 (orElse (Getenv "OLLAMA_HOST") "http://localhost:11434")) m5))
      d.
Proof.
  unfold fallbackOllamaHost, orElse. cbv zeta. cbn [cfgProviders Ollama olHost olModel].
  destruct (isEmpty h5); reflexivity.
Qed.

Lemma fallbackGlobalModel_fields pr mo ti k1 m1 k2 e2 dp2 v2 m2 k3 m3 v3 k4 m4 h5 m5 d :
  fallbackGlobalModel
    (mkConfig pr mo ti (mkProviders (mkOpenAI k1 m1) (mkAzure k2 e2 dp2 v2 m2)
                                    (mkAnthropic k3 m3 v3) (mkGemini k4 m4)
                                    (mkOllama h5 m5)) d)
  = let own (provider model : string) : string :=
      if String.eqb pr provider && isEmpty model then mo else model in
    mkConfig pr mo ti
      (mkProviders (mkOpenAI k1 (own "openai" m1))
                   (mkAzure k2 e2 dp2 v2 (own "azure" m2))
                   (mkAnthropic k3 (own "anthropic" m3) v3)
                   (mkGemini k4 (own "gemini" m4))
                   (mkOllama h5 (own "ollama" m5))) d.
Proof. reflexivity. Qed.

Lemma fallbackDefaultModels_fields pr mo ti k1 m1 az k3 m3 v3 k4 m4 h5 m5 d :
  fallbackDefaultModels
    (mkConfig pr mo ti (mkProviders (mkOpenAI k1 m1) az
                                    (mkAnthropic k3 m3 v3) (mkGemini k4 m4)
                                    (mkOllama h5 m5)) d)
  = let own (provider model fallback : string) : string :=
      if String.eqb pr provider && isEmpty model then fallback else model in
    mkConfig pr mo ti
      (mkProviders (mkOpenAI k1 (own "openai" m1 "gpt-4o"))
                   az
                   (mkAnthropic k3 (own "anthropic" m3 "claude-3-haiku-20240307") v3)
                   (mkGemini k4 (own "gemini" m4 "gemini-1.5-flash-latest"))
                   (mkOllama h5 (own "ollama" m5 "codellama:latest"))) d.
Proof. reflexivity. Qed.

(** The configuration after all the fallbacks. *)
Lemma applyFallbacks_fields pr mo ti k1 m1 k2 e2 dp2 v2 m2 k3 m3 v3 k4 m4 h5 m5 d :
  applyFallbacks Getenv ParseDuration
    (mkConfig pr mo ti (mkProviders (mkOpenAI k1 m1) (mkAzure k2 e2 dp2 v2 m2)
                                    (mkAnthropic k3 m3 v3) (mkGemini k4 m4)
                                    (mkOllama h5 m5)) d)
  = let own (provider model fallback : string) : string :=
      if String.eqb pr provider
      then orElse model (orElse mo fallback)
      else model in
    mkConfig pr mo ti
      (mkProviders
         (mkOpenAI (orElse k1 (Getenv "OPENAI_API_KEY")) (own "openai" m1 "gpt-4o"))
         (mkAzure (orElse k2 (Getenv "AZURE_OPENAI_KEY"))
            (if String.eqb pr "azure" then orElse e2 (Getenv "AZURE_OPENAI_ENDPOINT") else e2)
            (if String.eqb pr "azure" then orElse dp2 (Getenv "AZURE_OPENAI_DEPLOYMENT")
             else dp2)
            v2 (own "azure" m2 ""))
         (mkAnthropic (orElse k3 (Getenv "ANTHROPIC_API_KEY"))
                      (own "anthropic" m3 "claude-3-haiku-20240307") v3)
         (mkGemini (orElse k4 (Getenv "GOOGLE_API_KEY"))
                   (own "gemini" m4 "gemini-1.5-flash-latest"))
         (mkOllama (orElse h5 (orElse (Getenv "OLLAMA_HOST") "http://localhost:11434"))
                   (own "ollama" m5 "codellama:latest")))
      (Z.max (500 * Millisecond)
             (match ParseDuration ti with Some d0 => d0 | None => 10 * Second end)).
Proof.
  unfold applyFallbacks. cbv zeta.
  rewrite fallbackTimeout_fields, fallbackAPIKeys_fields, fallbackAzure_fields,
    fallbackOllamaHost_fields, fallbackGlobalModel_fields.
  cbv beta zeta. rewrite fallbackDefaultModels_fields. cbv beta zeta.
  assert (Hown : forall provider model fallback,
             (if String.eqb pr provider
                 && isEmpty (if String.eqb pr provider && isEmpty model then mo else model)
              then fallback
              else if String.eqb pr provider && isEmpty model then mo else model)
             = (if String.eqb pr provider then orElse model (orElse mo fallback) else model)).
  { intros provider model fallback. unfold orElse.
    destruct (String.eqb pr provider); cbn [andb]; [|reflexivity].
    destruct (isEmpty model) eqn:H1; [|rewrite H1; reflexivity].
    destruct (isEmpty mo); reflexivity. }
  rewrite !Hown. f_equal. f_equal. f_equal.
  unfold orElse. destruct (String.eqb pr "azure"); [|reflexivity].
  destruct (isEmpty m2); [|reflexivity]. destruct (isEmpty mo) eqn:H; [|reflexivity].
  cbn [andb]. apply isEmpty_true in H. subst mo. reflexivity.
Qed.

Lemma applyFallbacks_kept (cfg : Config) :
  Provider (applyFallbacks Getenv ParseDuration cfg) = Provider cfg
  /\ Model (applyFallbacks Getenv ParseDuration cfg) = Model cfg
  /\ Timeout (applyFallbacks Getenv ParseDuration cfg) = Timeout cfg
  /\ TimeoutDuration (applyFallbacks Getenv ParseDuration cfg)
     = Z.max (500 * Millisecond)
             (match ParseDuration (Timeout cfg) with
              | Some d => d
              | None => 10 * Second
              end).
Proof.
  destruct cfg as [pr mo ti [[k1 m1] [k2 e2 dp2 v2 m2] [k3 m3 v3] [k4 m4] [h5 m5]] d].
  rewrite applyFallbacks_fields. cbv beta zeta. repeat split.
Qed.

(** X10.  [LoadConfig] fails exactly when the configuration file cannot be
    examined or cannot be decoded: it returns an error in these two cases
    and a configuration in every other.  A missing directory or file gives
    the defaults, a file that decodes gives what it decodes to, both with
    the fallbacks applied.  The request timeout of a configuration it returns is never
    below 500 ms: it is the duration the [timeout] setting spells, raised
    to 500 ms when it is shorter (or negative), and 10 s when the setting
    cannot be parsed. *)
Theorem LoadConfig_timeout (file : ConfigFile) :
  (LoadConfig Getenv ParseDuration file = None
   <-> file = StatError \/ exists decode, file = File decode /\ decode defaultConfig = None)
  /\ match LoadConfig Getenv ParseDuration file with
     | None => file = StatError \/ exists decode, file = File decode /\ decode defaultConfig = None
     | Some cfg =>
         500 * Millisecond <= TimeoutDuration cfg
         /\ match ParseDuration (Timeout cfg) with
            | Some d => TimeoutDuration cfg = Z.max (500 * Millisecond) d
            | None => TimeoutDuration cfg = 10 * Second
            end
         /\ (file = NoConfigDir \/ file = NotExist ->
             cfg = applyFallbacks Getenv ParseDuration defaultConfig
             /\ Timeout cfg = "10s"%string)
         /\ (forall decode, file = File decode ->
             exists cfg0, decode defaultConfig = Some cfg0
                          /\ cfg = applyFallbacks Getenv ParseDuration cfg0)
     end.
Proof.
  split.
  { destruct file as [| | |decode]; cbn [LoadConfig].
    - split; [discriminate | intros [H | (dc & H & _)]; discriminate].
    - split; [discriminate | intros [H | (dc & H & _)]; discriminate].
    - split; [intros _; left; reflexivity | reflexivity].
    - destruct (decode defaultConfig) as [cfg0|] eqn:Hd.
      + split; [discriminate|].
        intros [H | (dc & [= <-] & Hn)]; [discriminate | congruence].
      + split; [intros _; right; exists decode; split; [reflexivity | exact Hd] | reflexivity]. }
  assert (H : forall cfg0,
             500 * Millisecond <= TimeoutDuration (applyFallbacks Getenv ParseDuration cfg0)
             /\ match ParseDuration (Timeout (applyFallbacks Getenv ParseDuration cfg0)) with
                | Some d => TimeoutDuration (applyFallbacks Getenv ParseDuration cfg0)
                            = Z.max (500 * Millisecond) d
                | None => TimeoutDuration (applyFallbacks Getenv ParseDuration cfg0)
                          = 10 * Second
                end).
  { intros cfg0. destruct (applyFallbacks_kept cfg0) as (_ & _ & -> & ->).
    destruct (ParseDuration (Timeout cfg0)); [split; [lia | reflexivity]|].
    unfold Second, Millisecond. split; lia. }
  destruct file as [| | |decode]; cbn [LoadConfig].
  - destruct (H defaultConfig) as [H1 H2]. split; [exact H1|]. split; [exact H2|].
    split; [|intros dc Hf; discriminate].
    intros _. split; [reflexivity|]. apply applyFallbacks_kept.
  - destruct (H defaultConfig) as [H1 H2]. split; [exact H1|]. split; [exact H2|].
    split; [|intros dc Hf; discriminate].
    intros _. split; [reflexivity|]. apply applyFallbacks_kept.
  - left. reflexivity.
  - destruct (decode defaultConfig) as [cfg0|] eqn:Hd.
    + destruct (H cfg0) as [H1 H2]. split; [exact H1|]. split; [exact H2|].
      split; [intros [Hf | Hf]; discriminate|].
      intros dc [= <-]. exists cfg0. split; [exact Hd | reflexivity].
    + right. exists decode. split; [reflexivity | exact Hd].
Qed.

(** X11.  The model of the selected provider, after the fallbacks: the
    provider's own setting when it is not empty, else the global [model]
    setting when that is not empty, else the hard-coded default of the
    provider.  For OpenAI, Anthropic, Gemini and Ollama it is therefore
    never empty; Azure has no default.  The provider and the global model
    are left as they were. *)
Theorem applyFallbacks_model (p : AI.Provider) (model timeout : string)
        (providers : Providers) (d : Z) :
  let cfg0 := mkConfig (providerName p) model timeout providers d in
  let cfg := applyFallbacks Getenv ParseDuration cfg0 in
  Provider cfg = providerName p
  /\ Model cfg = model
  /\ selectedModel cfg
     = orElse (selectedModel cfg0) (orElse model (defaultModel (providerName p)))
  /\ (p <> AI.Azure -> selectedModel cfg <> ""%string).
Proof.
  intros cfg0 cfg.
  destruct (applyFallbacks_kept cfg0) as (Hp & Hm & _). fold cfg in Hp, Hm.
  split; [exact Hp|]. split; [exact Hm|].
  assert (Hsel : selectedModel cfg
                 = orElse (selectedModel cfg0) (orElse model (defaultModel (providerName p)))).
  { unfold cfg, cfg0.
    destruct providers as [[k1 m1] [k2 e2 dp2 v2 m2] [k3 m3 v3] [k4 m4] [h5 m5]].
    rewrite applyFallbacks_fields. destruct p; reflexivity. }
  split; [exact Hsel|].
  intros Hne. rewrite Hsel. unfold orElse.
  destruct (isEmpty (selectedModel cfg0)) eqn:H1; [|apply isEmpty_false, H1].
  destruct (isEmpty model) eqn:H2; [|apply isEmpty_false, H2].
  destruct p; try congruence; cbn; discriminate.
Qed.

(** X12.  Credentials and hosts after the fallbacks.  An API key set in the
    file is kept, an empty one is read from the provider's environment
    variable.  Azure's endpoint and deployment are completed from the
    environment only when Azure is the selected provider.  The Ollama host
    is the one of the file, else the one of the environment, else the
    built-in default, and is never empty.  The API versions are not
    touched. *)
Theorem applyFallbacks_credentials (cfg0 : Config) :
  let cfg := applyFallbacks Getenv ParseDuration cfg0 in
  let p0 := cfgProviders cfg0 in
  let p := cfgProviders cfg in
  oaAPIKey (OpenAI p) = orElse (oaAPIKey (OpenAI p0)) (Getenv "OPENAI_API_KEY")
  /\ azAPIKey (Azure p) = orElse (azAPIKey (Azure p0)) (Getenv "AZURE_OPENAI_KEY")
  /\ anAPIKey (Anthropic p) = orElse (anAPIKey (Anthropic p0)) (Getenv "ANTHROPIC_API_KEY")
  /\ gmAPIKey (Gemini p) = orElse (gmAPIKey (Gemini p0)) (Getenv "GOOGLE_API_KEY")
  /\ azEndpoint (Azure p)
     = (if String.eqb (Provider cfg0) "azure"
        then orElse (azEndpoint (Azure p0)) (Getenv "AZURE_OPENAI_ENDPOINT")
        else azEndpoint (Azure p0))
  /\ azDeploymentID (Azure p)
     = (if String.eqb (Provider cfg0) "azure"
        then orElse (azDeploymentID (Azure p0)) (Getenv "AZURE_OPENAI_DEPLOYMENT")
        else azDeploymentID (Azure p0))
  /\ olHost (Ollama p)
     = orElse (olHost (Ollama p0)) (orElse (Getenv "OLLAMA_HOST") "http://localhost:11434")
  /\ olHost (Ollama p) <> ""%string
  /\ azAPIVersion (Azure p) = azAPIVersion (Azure p0)
  /\ anAPIVersion (Anthropic p) = anAPIVersion (Anthropic p0).
Proof.
  intros cfg p0 p. unfold p, p0, cfg. clear cfg p0 p.
  destruct cfg0 as [pr mo ti [[k1 m1] [k2 e2 dp2 v2 m2] [k3 m3 v3] [k4 m4] [h5 m5]] d].
  rewrite applyFallbacks_fields. cbv beta zeta.
  cbn [Provider cfgProviders OpenAI Azure Anthropic Gemini Ollama oaAPIKey azAPIKey anAPIKey
       gmAPIKey azEndpoint azDeploymentID olHost azAPIVersion anAPIVersion].
  repeat (split; [reflexivity|]).
  split; [|split; reflexivity].
  unfold orElse. destruct (isEmpty h5) eqn:H1; [|apply isEmpty_false, H1].
  destruct (isEmpty (Getenv "OLLAMA_HOST")) eqn:H2; [discriminate | apply isEmpty_false, H2].
Qed.

End Load.

End ConfigMore.

(** ** More on the server *)

Module ServerMore.
Import Sitter Server ServerFacts ServerNotions.

(** *** The popup item *)

Lemma Index_head_elem (c : byte) (sep s : bytes) :
  0 <= GoStrings.Index s (c :: sep) -> c ∈ s.
Proof.
  induction s as [|d s IH]; cbn [GoStrings.Index GoStrings.HasPrefix]; [lia|].
  destruct (Byte.eqb c d && GoStrings.HasPrefix s sep) eqn:Hp.
  - intros _. apply andb_true_iff in Hp as [Hc _].
    apply PositionFacts.byte_eqb_true in Hc. subst d. left.
  - destruct (GoStrings.Index s (c :: sep) <? 0) eqn:Hi; [lia|].
    intros _. right. apply IH. lia.
Qed.

Lemma ContainsAny_spec (s chars : bytes) :
  ContainsAny s chars = true <-> exists c, c ∈ s /\ c ∈ chars.
Proof.
  unfold ContainsAny. rewrite existsb_exists. split.
  - intros (c & Hin & Hc). exists c. split; [apply list_elem_of_In, Hin|].
    apply bool_decide_eq_true in Hc. exact Hc.
  - intros (c & Hin & Hc). exists c. split; [apply list_elem_of_In, Hin|].
    apply bool_decide_eq_true. exact Hc.
Qed.

(** X13.  The popup item built from a suggestion carries the suggestion as
    its label and as its insert text, and is marked as a snippet exactly
    when the text holds a dollar sign or a brace; the source's second test,
    for the tab stop [$0], never decides. *)
Theorem completionItem_format (aiSuggestionText : bytes) :
  Label (completionItem aiSuggestionText) = aiSuggestionText
  /\ InsertText (completionItem aiSuggestionText) = aiSuggestionText
  /\ Detail (completionItem aiSuggestionText) = "(Grasshopper AI)"%string
  /\ (ItemInsertTextFormat (completionItem aiSuggestionText) = InsertTextFormatSnippet
      <-> exists c, c ∈ aiSuggestionText /\ c ∈ B "${}")
  /\ (ItemInsertTextFormat (completionItem aiSuggestionText) = InsertTextFormatPlainText
      <-> forall c, c ∈ B "${}" -> c ∉ aiSuggestionText).
Proof.
  split; [reflexivity|]. split; [reflexivity|]. split; [reflexivity|].
  unfold completionItem. cbn [ItemInsertTextFormat].
  pose proof (ContainsAny_spec aiSuggestionText (B "${}")) as Hany.
  destruct (ContainsAny aiSuggestionText (B "${}")) eqn:Ha; cbn [negb andb].
  - destruct (proj1 Hany eq_refl) as (c & Hc1 & Hc2).
    split; split; try discriminate; try reflexivity.
    + intros _. exists c. auto.
    + intros H. exfalso. exact (H c Hc2 Hc1).
  - assert (Hno : forall c, c ∈ B "${}" -> c ∉ aiSuggestionText).
    { intros c Hc Hin. assert (Hf : false = true); [|discriminate Hf].
      apply Hany. exists c. auto. }
    assert (Hc : Contains aiSuggestionText (B "$0") = false).
    { unfold Contains. destruct (0 <=? _) eqn:Hi; [|reflexivity]. exfalso.
      apply Z.leb_le in Hi. apply Index_head_elem in Hi.
      apply (Hno "$"%byte); [left | exact Hi]. }
    rewrite Hc. cbn [negb].
    split; split; try discriminate; try reflexivity.
    + intros (c & Hc1 & Hc2). exfalso. exact (Hno c Hc2 Hc1).
    + intros _. exact Hno.
Qed.

Section WithEnv.
Context (E : Env).

Ltac srv_unfold :=
  unfold handleInitialize, handleInitialized, handleShutdown, handleExit,
    handleDidOpen, handleDidSave, handleDidClose, handleDidChange,
    debounceCallback, expire, runCallback, afterFunc, stopTimer,
    logToClient, sendNotification, sendResponse, ok, failed, isInitialized,
    write, observe, setInitialized, setShutdown, setDocuments, setDebounceTimers,
    setTimers in *.

Ltac srv_cbn :=
  cbn [fst snd initialized shutdown documents parser aiClient debounceTimers timers
       nextTimer output trace negb] in *.

Ltac srv_case :=
  match goal with
  | |- context [match ?x with _ => _ end] => destruct x eqn:?
  end; srv_cbn.

Ltac srv_auto := srv_unfold; srv_cbn; repeat srv_case; try reflexivity; try congruence.

(** *** Responses *)

Lemma replies_none (req : RequestMessage E) : replies req [].
Proof. exists [], []. split; [reflexivity|]. split; [constructor | left; reflexivity]. Qed.

Lemma replies_notes (req : RequestMessage E) (ns : list Frame) :
  Forall isNotification ns -> replies req ns.
Proof.
  intros H. exists ns, []. rewrite app_nil_r. split; [reflexivity|].
  split; [exact H | left; reflexivity].
Qed.

Lemma replies_one (req : RequestMessage E) (ns : list Frame) id r e :
  ID E req = Some id -> Forall isNotification ns -> replies req (ns ++ [Response id r e]).
Proof.
  intros Hid H. exists ns, [Response id r e]. split; [reflexivity|].
  split; [exact H|]. right. exists id, r, e. auto.
Qed.

Lemma completionHandler_replies v (s : Server E) (req : RequestMessage E) :
  exists new, output E (completionHandler v s req).1 = output E s ++ new /\ replies req new.
Proof.
  assert (Hnone : exists new, output E s = output E s ++ new /\ replies req new).
  { exists []. rewrite app_nil_r. split; [reflexivity | apply replies_none]. }
  assert (Hresp : forall id r e, ID E req = Some id ->
             exists new, output E (sendResponse E s id r e) = output E s ++ new
                         /\ replies req new).
  { intros id r e Hid. eexists. split; [reflexivity|].
    apply (replies_one req [] id _ e Hid). constructor. }
  destruct v; unfold completionHandler, handleCompletion, handleInlineCompletion;
    unfold isInitialized; destruct (initialized E s); cbn [negb]; unfold ok, failed;
    cbn [fst]; try exact Hnone;
    destruct (ID E req) as [id|] eqn:Hid; cbn [fst]; try exact Hnone.
  - destruct (unmarshalCompletion E (Params E req)) as [params|]; [|apply Hresp; reflexivity].
    destruct (documents E s !! posURI params) as [d|] eqn:Hd; [|apply Hresp; reflexivity].
    pose proof (freshTree_output E Popup s id (posURI params) (Text d) (Tree d) (LanguageID d))
      as Hf.
    destruct (freshTree E Popup s id (posURI params) (Text d) (Tree d) (LanguageID d))
      as [h | [[s1 text] tree]].
    + destruct Hf as (ns & r & Ho & Hns). eexists. split; [exact Ho|].
      apply replies_one; assumption.
    + destruct Hf as (ns & Ho & Hns).
      destruct (aiClient E s) as [ai|].
      * destruct (serveCompletion_output E Popup s1 id ai (posURI params) (posPosition params)
                                         text tree (LanguageID d)) as [r Hr].
        exists (ns ++ [Response id r None]). rewrite Hr, Ho, <- app_assoc.
        split; [reflexivity | apply replies_one; assumption].
      * exists (ns ++ [Response id (emptyList Popup) None]).
        srv_unfold. srv_cbn. rewrite Ho, <- app_assoc.
        split; [reflexivity | apply replies_one; assumption].
  - destruct (unmarshalInlineCompletion E (Params E req)) as [params|];
      [|apply Hresp; reflexivity].
    destruct (documents E s !! posURI params) as [d|] eqn:Hd; [|apply Hresp; reflexivity].
    destruct (aiClient E s) as [ai|]; [|apply Hresp; reflexivity].
    pose proof (freshTree_output E Inline s id (posURI params) (Text d) (Tree d) (LanguageID d))
      as Hf.
    destruct (freshTree E Inline s id (posURI params) (Text d) (Tree d) (LanguageID d))
      as [h | [[s1 text] tree]].
    + destruct Hf as (ns & r & Ho & Hns). eexists. split; [exact Ho|].
      apply replies_one; assumption.
    + destruct Hf as (ns & Ho & Hns).
      destruct (serveCompletion_output E Inline s1 id ai (posURI params) (posPosition params)
                                       text tree (LanguageID d)) as [r Hr].
      exists (ns ++ [Response id r None]). rewrite Hr, Ho, <- app_assoc.
      split; [reflexivity | apply replies_one; assumption].
Qed.

Lemma handleMessage_replies (s : Server E) (req : RequestMessage E) :
  exists new, output E (handleMessage E s (Some req)).1 = output E s ++ new
              /\ replies req new.
Proof.
  assert (Hnone : exists new, output E s = output E s ++ new /\ replies req new).
  { exists []. rewrite app_nil_r. split; [reflexivity | apply replies_none]. }
  assert (Hresp : forall s0 id r e, ID E req = Some id -> output E s0 = output E s ->
             exists new, output E (sendResponse E s0 id r e) = output E s ++ new
                         /\ replies req new).
  { intros s0 id r e Hid Ho. eexists. srv_unfold. srv_cbn. rewrite Ho.
    split; [reflexivity|]. apply (replies_one req [] id _ e Hid). constructor. }
  apply (handleMessage_elim E (fun h => exists new, output E h.1 = output E s ++ new
                                                    /\ replies req new)); cbn [fst].
  - unfold handleInitialize. destruct (ID E req) as [id|] eqn:Hid; [|exact Hnone].
    destruct (initialized E s); [apply Hresp; auto|].
    destruct (unmarshalInitialize E (Params E req)); apply Hresp; auto.
  - unfold handleInitialized, logToClient, ok. cbn [fst initialized setInitialized].
    exists [Notification "window/logMessage"]. split; [reflexivity|].
    apply replies_notes. repeat constructor.
  - unfold handleShutdown.
    destruct (shutdown E s); destruct (ID E req) as [id|] eqn:Hid; cbn [fst ok];
      try exact Hnone; apply Hresp; auto.
  - exact Hnone.
  - unfold handleDidOpen, isInitialized. destruct (initialized E s); cbn [negb]; [|exact Hnone].
    destruct (unmarshalDidOpen E (Params E req)) as [p|]; [|exact Hnone].
    cbn [fst ok].
    match goal with
    | |- context [parseDocument E ?s0 ?u ?l ?c ?o] =>
        destruct (parseDocument_output E s0 u l c o) as (ns & Ho & Hns)
    end.
    exists ns. split; [exact Ho | apply replies_notes, Hns].
  - unfold handleDidChange, isInitialized. srv_auto; exact Hnone.
  - unfold handleDidSave, isInitialized. destruct (initialized E s); exact Hnone.
  - unfold handleDidClose, isInitialized. destruct (initialized E s); cbn [negb]; [|exact Hnone].
    destruct (unmarshalDidClose E (Params E req)) as [p|]; [|exact Hnone].
    cbn [fst ok]. destruct (debounceTimers E s !! closeURI p) as [tid|]; [|exact Hnone].
    destruct (stopTimer_fields E s tid) as (_ & _ & _ & _ & _ & _ & _ & Ho).
    srv_cbn. cbn [output setDocuments setDebounceTimers]. rewrite Ho. exact Hnone.
  - apply completionHandler_replies.
  - apply completionHandler_replies.
  - exact Hnone.
  - intros id Hid. apply Hresp; auto.
Qed.

(** X14.  What handling one message writes to the client: notifications
    (the log messages), then at most one response; a response is the last
    frame written and carries the id of the message.  A message without
    an id, and a frame that cannot be decoded, never get a response. *)
Theorem message_gets_at_most_one_response (s : Server E)
        (decoded : option (RequestMessage E)) :
  exists ns rs : list Frame,
    output E (handleMessage E s decoded).1 = output E s ++ ns ++ rs
    /\ Forall isNotification ns
    /\ (rs = []
        \/ exists req id r e,
             decoded = Some req /\ ID E req = Some id /\ rs = [Response id r e]).
Proof.
  destruct decoded as [req|].
  - destruct (handleMessage_replies s req) as (new & Ho & ns & rs & -> & Hns & Hrs).
    exists ns, rs. split; [exact Ho|]. split; [exact Hns|].
    destruct Hrs as [-> | (id & r & e & Hid & ->)]; [left; reflexivity|].
    right. exists req, id, r, e. auto.
  - exists [], []. cbn. rewrite app_nil_r. split; [reflexivity|].
    split; [constructor | left; reflexivity].
Qed.

(** *** Before and after [initialized] *)

Lemma handleDidChange_initialized (s : Server E) (req : RequestMessage E) :
  initialized E (handleDidChange E s req).1 = initialized E s.
Proof.
  unfold handleDidChange, isInitialized. destruct (initialized E s) eqn:Hi; cbn [negb];
    [|exact Hi].
  destruct (unmarshalDidChange E (Params E req)) as [p|]; [|exact Hi].
  destruct (documents E s !! changeURI p) as [d|]; [|exact Hi].
  destruct (last (ContentChanges p)) as [t|]; [|exact Hi].
  cbv zeta. cbn [debounceTimers setDocuments].
  destruct (debounceTimers E s !! changeURI p) as [old|]; cbn [afterFunc fst ok initialized
    setDebounceTimers setTimers];
    [destruct (stopTimer_fields E (setDocuments E s
       (<[changeURI p := mkDocumentState t (changeVersion p) (LanguageID d) (Tree d)]>
          (documents E s))) old) as (_ & _ & _ & _ & _ & -> & _)|]; exact Hi.
Qed.

Lemma handleDidClose_initialized (s : Server E) (req : RequestMessage E) :
  initialized E (handleDidClose E s req).1 = initialized E s.
Proof.
  unfold handleDidClose, isInitialized. destruct (initialized E s) eqn:Hi; cbn [negb];
    [|exact Hi].
  destruct (unmarshalDidClose E (Params E req)) as [p|]; [|exact Hi].
  destruct (debounceTimers E s !! closeURI p) as [old|]; cbn [fst ok initialized setDocuments
    setDebounceTimers]; [|exact Hi].
  destruct (stopTimer_fields E s old) as (_ & _ & _ & _ & _ & -> & _). exact Hi.
Qed.

Lemma handleMessage_initialized (s : Server E) (decoded : option (RequestMessage E)) :
  initialized E s = true -> initialized E (handleMessage E s decoded).1 = true.
Proof.
  intros Hi. destruct decoded as [req|]; [|exact Hi].
  apply (handleMessage_elim E (fun h => initialized E h.1 = true)); cbn [fst].
  - unfold handleInitialize. srv_auto.
  - reflexivity.
  - unfold handleShutdown. srv_auto.
  - exact Hi.
  - rewrite (core_initialized E _ _ (handleDidOpen_core E s req)). exact Hi.
  - rewrite handleDidChange_initialized. exact Hi.
  - unfold handleDidSave. srv_auto.
  - rewrite handleDidClose_initialized. exact Hi.
  - destruct (completionHandler_core E Inline s req) as [Hc _].
    rewrite (core_initialized E _ _ Hc). exact Hi.
  - destruct (completionHandler_core E Popup s req) as [Hc _].
    rewrite (core_initialized E _ _ Hc). exact Hi.
  - exact Hi.
  - intros id _. exact Hi.
Qed.

Lemma step_initialized (s s' : Server E) (e : Step E) :
  step E s e = Some s' -> initialized E s = true -> initialized E s' = true.
Proof.
  destruct e as [d|id|id]; cbn [step].
  - intros [= <-]. apply handleMessage_initialized.
  - unfold expire. destruct (timers E s !! id) as [t|]; [|discriminate].
    destruct (tState t); try discriminate. intros [= <-]. auto.
  - unfold runCallback. destruct (timers E s !! id) as [t|]; [|discriminate].
    destruct (tState t); try discriminate. intros [= <-].
    match goal with
    | |- _ -> initialized E (debounceCallback E ?x ?a ?b ?c) = true =>
        destruct (debounceCallback_core_fields E x a b c) as (_ & -> & _)
    end. auto.
Qed.

Lemma quiet_response (s : Server E) id r e : quiet s -> quiet (sendResponse E s id r e).
Proof.
  intros (Hd & Hr & Ht & Htr & Ho). unfold quiet, sendResponse, write.
  cbn [documents debounceTimers timers trace output].
  repeat (split; [assumption|]). apply Forall_app. split; [exact Ho|].
  repeat constructor.
Qed.

Lemma handleMessage_quiet (s : Server E) (decoded : option (RequestMessage E)) :
  initialized E s = false -> quiet s ->
  initialized E (handleMessage E s decoded).1 = true \/ quiet (handleMessage E s decoded).1.
Proof.
  intros Hi Hq. destruct decoded as [req|]; [|right; exact Hq].
  apply (handleMessage_elim E (fun h => initialized E h.1 = true \/ quiet h.1)); cbn [fst].
  - right. unfold handleInitialize. destruct (ID E req); [|exact Hq]. rewrite Hi.
    destruct (unmarshalInitialize E (Params E req)); apply quiet_response, Hq.
  - left. reflexivity.
  - right. unfold handleShutdown.
    destruct (shutdown E s); destruct (ID E req); cbn [fst ok]; try exact Hq;
      try (apply quiet_response; exact Hq).
  - right. exact Hq.
  - right. unfold handleDidOpen, isInitialized. rewrite Hi. exact Hq.
  - right. unfold handleDidChange, isInitialized. rewrite Hi. exact Hq.
  - right. unfold handleDidSave, isInitialized. rewrite Hi. exact Hq.
  - right. unfold handleDidClose, isInitialized. rewrite Hi. exact Hq.
  - right. unfold completionHandler, handleInlineCompletion, isInitialized. rewrite Hi. exact Hq.
  - right. unfold completionHandler, handleCompletion, isInitialized. rewrite Hi. exact Hq.
  - right. exact Hq.
  - intros id _. right. apply quiet_response, Hq.
Qed.

Lemma Reachable_quiet (s : Server E) :
  Reachable E s -> initialized E s = false -> quiet s.
Proof.
  revert s. apply (steps_invariant E (fun s => initialized E s = false -> quiet s)).
  - intros pm ai _. repeat split. constructor.
  - intros s e s' IH Hstep Hi'.
    assert (Hi : initialized E s = false).
    { destruct (initialized E s) eqn:H; [|reflexivity].
      rewrite (step_initialized s s' e Hstep H) in Hi'. discriminate. }
    specialize (IH Hi). destruct e as [d|id|id]; cbn [step] in Hstep.
    + injection Hstep as <-.
      destruct (handleMessage_quiet s d Hi IH) as [H | H]; [congruence | exact H].
    + destruct IH as (_ & _ & Ht & _). unfold expire in Hstep. rewrite Ht in Hstep.
      rewrite lookup_empty in Hstep. discriminate.
    + destruct IH as (_ & _ & Ht & _). unfold runCallback in Hstep. rewrite Ht in Hstep.
      rewrite lookup_empty in Hstep. discriminate.
Qed.

(** X15.  Until the [initialized] notification arrives the server only
    answers: it has stored no document, created no timer, parsed nothing
    and written nothing but responses.  Once set, the flag stays set. *)
Theorem nothing_before_initialized (s : Server E) :
  Reachable E s ->
  (initialized E s = false -> quiet s)
  /\ (forall (e : Step E) (s' : Server E),
        step E s e = Some s' -> initialized E s = true -> initialized E s' = true).
Proof.
  intros Hr. split; [apply Reachable_quiet, Hr|].
  intros e s' Hstep Hi. exact (step_initialized s s' e Hstep Hi).
Qed.

(** *** Documents keep their text *)

Lemma sameTexts_refl docs : sameTexts docs docs.
Proof. intros uri. destruct (docs !! uri); auto. Qed.

Lemma sameTexts_trans d1 d2 d3 : sameTexts d1 d2 -> sameTexts d2 d3 -> sameTexts d1 d3.
Proof.
  intros H1 H2 uri. specialize (H1 uri). specialize (H2 uri).
  destruct (d1 !! uri), (d2 !! uri), (d3 !! uri); try tauto.
  destruct H1 as (? & ? & ?), H2 as (? & ? & ?). repeat split; congruence.
Qed.

Lemma sameTexts_setTree docs uri d t :
  docs !! uri = Some d -> sameTexts docs (<[uri := setTree d t]> docs).
Proof.
  intros Hd x. destruct (decide (uri = x)) as [<-|Hne].
  - rewrite Hd, lookup_insert_eq. repeat split.
  - rewrite lookup_insert_ne by exact Hne. destruct (docs !! x); auto.
Qed.

Lemma sameTexts_is_Some docs docs' uri :
  sameTexts docs docs' -> (is_Some (docs' !! uri) <-> is_Some (docs !! uri)).
Proof.
  intros H. specialize (H uri).
  destruct (docs !! uri), (docs' !! uri); try tauto; split; intros [? ?]; eauto; discriminate.
Qed.

Lemma parseDocument_sameTexts (s : Server E) uri langID content oldTree :
  sameTexts (documents E s) (documents E (parseDocument E s uri langID content oldTree)).
Proof.
  destruct (parser E s) as [m|] eqn:Hm.
  - rewrite (parseDocument_documents E s m) by exact Hm.
    destruct (documents E s !! uri) as [d|] eqn:Hd; [|apply sameTexts_refl].
    apply sameTexts_setTree, Hd.
  - rewrite parseDocument_no_parser by exact Hm. apply sameTexts_refl.
Qed.

Lemma freshTree_sameTexts v (s : Server E) id uri text tree lang :
  match freshTree E v s id uri text tree lang with
  | inl h => sameTexts (documents E s) (documents E h.1)
  | inr (s', _, _) => sameTexts (documents E s) (documents E s')
  end.
Proof.
  unfold freshTree.
  pose proof (parseDocument_sameTexts s uri lang text None) as Hp.
  destruct (stale text tree).
  - destruct (documents E (parseDocument E s uri lang text None) !! uri) as [d|].
    + destruct (Tree d); [exact Hp|]. exact Hp.
    + exact Hp.
  - destruct tree; [apply sameTexts_refl|]. apply sameTexts_refl.
Qed.

Lemma completionHandler_sameTexts v (s : Server E) (req : RequestMessage E) :
  sameTexts (documents E s) (documents E (completionHandler v s req).1).
Proof.
  pose proof (sameTexts_refl (documents E s)) as Hr.
  destruct v; unfold completionHandler, handleCompletion, handleInlineCompletion;
    destruct (negb (isInitialized E s)); try exact Hr;
    destruct (ID E req) as [id|]; try exact Hr.
  - destruct (unmarshalCompletion E (Params E req)) as [params|]; [|exact Hr].
    destruct (documents E s !! posURI params) as [d|]; [|exact Hr].
    pose proof (freshTree_sameTexts Popup s id (posURI params) (Text d) (Tree d) (LanguageID d))
      as Hf.
    destruct (freshTree E Popup s id (posURI params) (Text d) (Tree d) (LanguageID d))
      as [h | [[s1 text] tree]]; [exact Hf|].
    destruct (aiClient E s) as [ai|]; [|exact Hf].
    destruct (serveCompletion_core E Popup s1 id ai (posURI params) (posPosition params)
                                   text tree (LanguageID d)) as [_ ->].
    exact Hf.
  - destruct (unmarshalInlineCompletion E (Params E req)) as [params|]; [|exact Hr].
    destruct (documents E s !! posURI params) as [d|]; [|exact Hr].
    destruct (aiClient E s) as [ai|]; [|exact Hr].
    pose proof (freshTree_sameTexts Inline s id (posURI params) (Text d) (Tree d) (LanguageID d))
      as Hf.
    destruct (freshTree E Inline s id (posURI params) (Text d) (Tree d) (LanguageID d))
      as [h | [[s1 text] tree]]; [exact Hf|].
    destruct (serveCompletion_core E Inline s1 id ai (posURI params) (posPosition params)
                                   text tree (LanguageID d)) as [_ ->].
    exact Hf.
Qed.

(** X16.  A completion request changes nothing the client has sent: the
    documents keep their text, version and language, no document is added
    or removed, and the lifecycle flags, the registry and the timers are
    as before.  Only trees can change, and none does on a server without a
    parser. *)
Theorem completion_keeps_the_documents (v : Envelope) (s : Server E)
        (req : RequestMessage E) :
  sameTexts (documents E s) (documents E (completionHandler v s req).1)
  /\ core (completionHandler v s req).1 = core s
  /\ (parser E s = None -> documents E (completionHandler v s req).1 = documents E s).
Proof.
  split; [apply completionHandler_sameTexts|]. apply completionHandler_core.
Qed.

(** *** The registry *)

Lemma stopIn_other (tm : gmap TimerId Timer) (old id : TimerId) :
  id <> old -> stopIn tm old !! id = tm !! id.
Proof.
  intros Hne. unfold stopIn. destruct (tm !! old) as [t|]; [|reflexivity].
  destruct (tState t); try reflexivity. apply lookup_insert_ne. congruence.
Qed.

Lemma stopIn_not_pending (tm : gmap TimerId Timer) (old : TimerId) (t : Timer) :
  stopIn tm old !! old = Some t -> tState t <> Pending.
Proof.
  intros Hl Hp. destruct (stopIn_pending tm old old t Hl Hp) as [_ Hne]. congruence.
Qed.

Lemma registryOk_grow (s s' : Server E) :
  registryOk s -> core s' = core s ->
  (forall uri, is_Some (documents E s !! uri) -> is_Some (documents E s' !! uri)) ->
  registryOk s'.
Proof.
  intros Hok Hc Hd uri id. destruct (core_timers E _ _ Hc) as (-> & -> & _).
  intros Hr. destruct (Hok uri id Hr) as [Hs Ht]. split; [apply Hd, Hs | exact Ht].
Qed.

Lemma registryOk_sameTexts (s s' : Server E) :
  registryOk s -> core s' = core s -> sameTexts (documents E s) (documents E s') ->
  registryOk s'.
Proof.
  intros Hok Hc Hs. apply (registryOk_grow s s' Hok Hc).
  intros uri H. apply (sameTexts_is_Some _ _ uri Hs). exact H.
Qed.

Lemma handleDidOpen_registryOk (s : Server E) (req : RequestMessage E) :
  registryOk s -> registryOk (handleDidOpen E s req).1.
Proof.
  intros Hok. apply (registryOk_grow s _ Hok (handleDidOpen_core E s req)).
  intros uri Hs. unfold handleDidOpen.
  destruct (negb (isInitialized E s)); [exact Hs|].
  destruct (unmarshalDidOpen E (Params E req)) as [p|]; [|exact Hs].
  cbn [fst ok].
  match goal with
  | |- is_Some (documents E (parseDocument E ?s0 ?u ?l ?c ?o) !! _) =>
      apply (sameTexts_is_Some _ _ uri (parseDocument_sameTexts s0 u l c o))
  end.
  cbn [documents setDocuments]. apply lookup_insert_is_Some'. right. exact Hs.
Qed.

Lemma handleDidChange_registryOk (s : Server E) (req : RequestMessage E) :
  timersOk s -> registryOk s -> registryOk (handleDidChange E s req).1.
Proof.
  intros [Hlt _] Hok.
  destruct (initialized E s) eqn:Hi.
  2:{ unfold handleDidChange, isInitialized. rewrite Hi. exact Hok. }
  destruct (unmarshalDidChange E (Params E req)) as [p|] eqn:Hu.
  2:{ unfold handleDidChange, isInitialized. rewrite Hi, Hu. exact Hok. }
  destruct (documents E s !! changeURI p) as [d|] eqn:Hd.
  2:{ unfold handleDidChange, isInitialized. rewrite Hi, Hu, Hd. exact Hok. }
  destruct (last (ContentChanges p)) as [newText|] eqn:Hl.
  2:{ unfold handleDidChange, isInitialized. rewrite Hi, Hu, Hd, Hl. exact Hok. }
  rewrite (handleDidChange_spec E s req p d newText Hi Hu Hd Hl).
  intros uri id. cbn [debounceTimers documents timers].
  destruct (decide (changeURI p = uri)) as [<-|Hne].
  - rewrite !lookup_insert_eq. intros [= <-]. split; [eauto|].
    rewrite lookup_insert_eq. eexists. split; [reflexivity|]. cbn. auto.
  - rewrite !lookup_insert_ne by exact Hne. intros Hr.
    destruct (Hok uri id Hr) as (Hs & t & Ht & Hut & Hst). split; [exact Hs|].
    exists t. split; [|auto].
    rewrite lookup_insert_ne by (specialize (Hlt id t Ht); lia).
    unfold stopRegistered. destruct (debounceTimers E s !! changeURI p) as [old|] eqn:Ho;
      [|exact Ht].
    rewrite stopIn_other; [exact Ht|]. intros ->.
    destruct (Hok (changeURI p) old Ho) as (_ & t' & Ht' & Hut' & _). congruence.
Qed.

Lemma handleDidClose_state (s : Server E) (req : RequestMessage E)
      (p : DidCloseTextDocumentParams) :
  initialized E s = true -> unmarshalDidClose E (Params E req) = Some p ->
  documents E (handleDidClose E s req).1 = delete (closeURI p) (documents E s)
  /\ debounceTimers E (handleDidClose E s req).1 = delete (closeURI p) (debounceTimers E s)
  /\ timers E (handleDidClose E s req).1 = stopRegistered s (closeURI p)
  /\ output E (handleDidClose E s req).1 = output E s
  /\ trace E (handleDidClose E s req).1 = trace E s.
Proof.
  intros Hi Hu. unfold handleDidClose, isInitialized, stopRegistered. rewrite Hi, Hu.
  cbn [negb fst ok].
  destruct (debounceTimers E s !! closeURI p) as [old|] eqn:Ho.
  - destruct (stopTimer_fields E s old) as (Ht & _ & Hr & Hd & _ & _ & Htr & Hout).
    cbn [documents debounceTimers timers output trace setDocuments setDebounceTimers].
    rewrite Ht, Hr, Hd, Htr, Hout. repeat split.
  - cbn [documents debounceTimers timers output trace setDocuments].
    repeat split. symmetry. apply delete_id, Ho.
Qed.

Lemma handleDidClose_registryOk (s : Server E) (req : RequestMessage E) :
  registryOk s -> registryOk (handleDidClose E s req).1.
Proof.
  intros Hok.
  destruct (initialized E s) eqn:Hi.
  2:{ unfold handleDidClose, isInitialized. rewrite Hi. exact Hok. }
  destruct (unmarshalDidClose E (Params E req)) as [p|] eqn:Hu.
  2:{ unfold handleDidClose, isInitialized. rewrite Hi, Hu. exact Hok. }
  destruct (handleDidClose_state s req p Hi Hu) as (Hd & Hr & Ht & _).
  intros uri id. rewrite Hd, Hr, Ht.
  destruct (decide (closeURI p = uri)) as [<-|Hne].
  - rewrite lookup_delete_eq. discriminate.
  - rewrite !lookup_delete_ne by exact Hne. intros Hreg.
    destruct (Hok uri id Hreg) as (Hs & t & Hti & Hut & Hst). split; [exact Hs|].
    exists t. split; [|auto].
    unfold stopRegistered. destruct (debounceTimers E s !! closeURI p) as [old|] eqn:Ho;
      [|exact Hti].
    rewrite stopIn_other; [exact Hti|]. intros ->.
    destruct (Hok (closeURI p) old Ho) as (_ & t' & Ht' & Hut' & _). congruence.
Qed.

Lemma handleMessage_registryOk (s : Server E) (decoded : option (RequestMessage E)) :
  timersOk s -> registryOk s -> registryOk (handleMessage E s decoded).1.
Proof.
  intros Hto Hok. destruct decoded as [req|]; [|exact Hok].
  apply (handleMessage_elim E (fun h => registryOk h.1)); cbn [fst].
  - unfold handleInitialize. srv_auto; exact Hok.
  - exact Hok.
  - unfold handleShutdown. srv_auto; exact Hok.
  - exact Hok.
  - apply handleDidOpen_registryOk, Hok.
  - apply handleDidChange_registryOk; assumption.
  - unfold handleDidSave. srv_auto; exact Hok.
  - apply handleDidClose_registryOk, Hok.
  - apply (registryOk_sameTexts s _ Hok); [apply completionHandler_core
                                           | apply completionHandler_sameTexts].
  - apply (registryOk_sameTexts s _ Hok); [apply completionHandler_core
                                           | apply completionHandler_sameTexts].
  - exact Hok.
  - intros id _. exact Hok.
Qed.

Lemma afterParse_sameTexts (s : Server E) uri old :
  sameTexts (documents E s) (documents E (afterParse s uri old)).
Proof.
  unfold afterParse. destruct (documents E s !! uri); [|apply sameTexts_refl].
  apply parseDocument_sameTexts.
Qed.

Lemma step_registryOk (s s' : Server E) (e : Step E) :
  timersOk s -> registryOk s -> step E s e = Some s' -> registryOk s'.
Proof.
  intros Hto Hok Hstep. destruct e as [d|id|id]; cbn [step] in Hstep.
  - injection Hstep as <-. apply handleMessage_registryOk; assumption.
  - unfold expire in Hstep. destruct (timers E s !! id) as [t|] eqn:Ht; [|discriminate].
    destruct (tState t) eqn:Hs; try discriminate. injection Hstep as <-.
    intros uri id'. cbn [debounceTimers documents timers setTimers]. intros Hr.
    destruct (Hok uri id' Hr) as (Hd & t' & Ht' & Hu & Hst). split; [exact Hd|].
    destruct (decide (id = id')) as [<-|Hne].
    + rewrite lookup_insert_eq. eexists. split; [reflexivity|].
      assert (t' = t) as -> by congruence. cbn. auto.
    + rewrite lookup_insert_ne by exact Hne. eauto.
  - unfold runCallback in Hstep.
    destruct (timers E s !! id) as [t|] eqn:Ht; [|discriminate].
    destruct (tState t) eqn:Hs; try discriminate. injection Hstep as <-.
    set (s1 := setTimers E s (<[id := setState t Done]> (timers E s)) (nextTimer E s)).
    pose proof (debounceCallback_registry E s1 id (tURI t) (tOldTree t)) as Hreg.
    pose proof (debounceCallback_timers E s1 id (tURI t) (tOldTree t)) as Htm.
    destruct (debounceCallback_core_fields E s1 id (tURI t) (tOldTree t))
      as (_ & _ & _ & _ & Hdocs & _).
    change (debounceTimers E s1) with (debounceTimers E s) in Hreg.
    intros uri id'. rewrite Hreg, Htm, Hdocs. intros Hr.
    assert (Hr0 : debounceTimers E s !! uri = Some id' /\ (id' = id -> False)).
    { destruct (bool_decide (debounceTimers E s !! tURI t = Some id)) eqn:Hb.
      - apply bool_decide_eq_true in Hb.
        destruct (decide (tURI t = uri)) as [<-|Hne];
          [rewrite lookup_delete_eq in Hr; discriminate|].
        rewrite lookup_delete_ne in Hr by exact Hne. split; [exact Hr|].
        intros ->. destruct (Hok uri id Hr) as (_ & t' & Ht' & Hu & _). congruence.
      - apply bool_decide_eq_false in Hb. split; [exact Hr|].
        intros ->. destruct (Hok uri id Hr) as (_ & t' & Ht' & Hu & _).
        apply Hb. congruence. }
    destruct Hr0 as [Hr0 Hne]. destruct (Hok uri id' Hr0) as (Hd & t' & Ht' & Hu & Hst).
    split.
    + apply (sameTexts_is_Some _ _ uri (afterParse_sameTexts s1 (tURI t) (tOldTree t))).
      exact Hd.
    + exists t'. split; [|auto]. unfold s1. cbn [timers setTimers].
      rewrite lookup_insert_ne by (intros ->; exact (Hne eq_refl)). exact Ht'.
Qed.

Lemma Reachable_registryOk (s : Server E) : Reachable E s -> registryOk s.
Proof.
  intros Hr.
  assert (H : timersOk s /\ registryOk s); [|apply H].
  revert s Hr. apply (steps_invariant E (fun s => timersOk s /\ registryOk s)).
  - intros pm ai. split; [apply (Reachable_timersOk E); exists pm, ai, []; reflexivity|].
    intros uri id. cbn. rewrite lookup_empty. discriminate.
  - intros s e s' [Hto Hok] Hstep. split; [exact (step_timersOk E s s' e Hto Hstep)|].
    exact (step_registryOk s s' e Hto Hok Hstep).
Qed.

(** X17.  The timer registry in every reachable state.  An entry stands for
    a reparse still to come: its timer was created for that very URI, is
    pending or has expired without its callback having run, and the
    document is open.  Conversely a pending timer is always the one
    registered for its URI, so no document has two reparses pending. *)
Theorem registry_holds_the_pending_reparse (s : Server E) :
  Reachable E s ->
  registryOk s
  /\ (forall id t, timers E s !! id = Some t -> tState t = Pending ->
                   debounceTimers E s !! tURI t = Some id)
  /\ (forall id1 id2 t1 t2,
        timers E s !! id1 = Some t1 -> timers E s !! id2 = Some t2 ->
        tState t1 = Pending -> tState t2 = Pending -> tURI t1 = tURI t2 -> id1 = id2).
Proof.
  intros Hr. split; [apply Reachable_registryOk, Hr|].
  destruct (Reachable_timersOk E s Hr) as [_ Hp]. split; [exact Hp|].
  intros id1 id2 t1 t2 H1 H2 P1 P2 Hu.
  pose proof (Hp id1 t1 H1 P1) as R1. pose proof (Hp id2 t2 H2 P2) as R2.
  rewrite Hu in R1. congruence.
Qed.

(** *** Closing a document, closing the server *)

Lemma handleMessage_didClose (s : Server E) (req : RequestMessage E) :
  Method E req = "textDocument/didClose"%string ->
  (handleMessage E s (Some req)).1 = (handleDidClose E s req).1.
Proof. intros Hm. unfold handleMessage. rewrite Hm. reflexivity. Qed.

(** X18.  After a [didClose] the document is gone from the store and from
    the registry, and no timer of that document is pending any more: its
    reparse will not start.  The timers of other documents are as before,
    and nothing is parsed or written. *)
Theorem didClose_forgets_the_document (s : Server E) (req : RequestMessage E)
        (p : DidCloseTextDocumentParams) :
  Reachable E s -> initialized E s = true ->
  Method E req = "textDocument/didClose"%string ->
  unmarshalDidClose E (Params E req) = Some p ->
  documents E (handleMessage E s (Some req)).1 = delete (closeURI p) (documents E s)
  /\ debounceTimers E (handleMessage E s (Some req)).1
     = delete (closeURI p) (debounceTimers E s)
  /\ (forall id t, timers E (handleMessage E s (Some req)).1 !! id = Some t ->
                   tURI t = closeURI p -> tState t <> Pending)
  /\ (forall id t, timers E s !! id = Some t -> tURI t <> closeURI p ->
                   timers E (handleMessage E s (Some req)).1 !! id = Some t)
  /\ output E (handleMessage E s (Some req)).1 = output E s
  /\ trace E (handleMessage E s (Some req)).1 = trace E s.
Proof.
  intros Hr Hi Hm Hu. rewrite (handleMessage_didClose s req Hm).
  destruct (handleDidClose_state s req p Hi Hu) as (Hd & Hreg & Ht & Ho & Htr).
  pose proof (Reachable_timersOk E s Hr) as Hto.
  pose proof (Reachable_registryOk s Hr) as Hok.
  split; [exact Hd|]. split; [exact Hreg|]. split; [|split; [|split; assumption]].
  - intros id t. rewrite Ht. intros Hl Hu' Hp.
    destruct (stopRegistered_pending E s (closeURI p) id t Hto Hl Hp) as [_ Hne].
    exact (Hne Hu').
  - intros id t Hl Hne. rewrite Ht. unfold stopRegistered.
    destruct (debounceTimers E s !! closeURI p) as [old|] eqn:Hold; [|exact Hl].
    rewrite stopIn_other; [exact Hl|]. intros ->.
    destruct (Hok (closeURI p) old Hold) as (_ & t' & Ht' & Hu' & _). congruence.
Qed.

Lemma stopIn_keep (tm : gmap TimerId Timer) (old id : TimerId) (t : Timer) :
  tm !! id = Some t -> tState t <> Pending -> stopIn tm old !! id = Some t.
Proof.
  intros Hl Hp. destruct (decide (id = old)) as [->|Hne].
  - unfold stopIn. rewrite Hl. destruct (tState t); congruence.
  - rewrite stopIn_other by exact Hne. exact Hl.
Qed.

Lemma Close_spec (s : Server E) :
  timersOk s ->
  debounceTimers E (Close E s) = ∅
  /\ (forall id t, timers E (Close E s) !! id = Some t -> tState t <> Pending)
  /\ (forall id t, timers E s !! id = Some t -> tState t <> Pending ->
                   timers E (Close E s) !! id = Some t)
  /\ documents E (Close E s) = documents E s
  /\ output E (Close E s) = output E s
  /\ trace E (Close E s) = trace E s.
Proof.
  intros [_ Hreg]. unfold Close.
  set (P := fun (r : Server E) (m : gmap DocumentURI TimerId) =>
              documents E r = documents E s /\ output E r = output E s
              /\ trace E r = trace E s
              /\ (forall id t, timers E r !! id = Some t -> tState t = Pending ->
                               timers E s !! id = Some t
                               /\ forall uri, m !! uri <> Some id)
              /\ (forall id t, timers E s !! id = Some t -> tState t <> Pending ->
                               timers E r !! id = Some t)).
  assert (HP : P (map_fold (fun _ id r => stopTimer E r id) s (debounceTimers E s))
                 (debounceTimers E s)).
  { apply (map_fold_weak_ind P); unfold P.
    - split; [reflexivity|]. split; [reflexivity|]. split; [reflexivity|].
      split; [|auto].
      intros id t Hl _. split; [exact Hl|].
      intros uri. rewrite lookup_empty. discriminate.
    - intros uri old m r Hnone (Hd & Ho & Htr & Ht & Hk).
      destruct (stopTimer_fields E r old) as (Ht' & _ & _ & Hd' & _ & _ & Htr' & Ho').
      split; [congruence|]. split; [congruence|]. split; [congruence|].
      split.
      + intros id t. rewrite Ht'. intros Hl Hp.
        destruct (stopIn_pending _ _ _ _ Hl Hp) as [Hl0 Hne].
        destruct (Ht id t Hl0 Hp) as [Hs Hm]. split; [exact Hs|].
        intros uri'. destruct (decide (uri = uri')) as [<-|Hneq].
        * rewrite lookup_insert_eq. congruence.
        * rewrite lookup_insert_ne by exact Hneq. apply Hm.
      + intros id t Hl Hp. rewrite Ht'. apply stopIn_keep; [apply Hk; assumption | exact Hp]. }
  unfold P in HP. destruct HP as (Hd & Ho & Htr & Ht & Hk).
  cbn [debounceTimers documents output trace timers setDebounceTimers].
  split; [reflexivity|]. split; [|auto].
  intros id t Hl Hp. destruct (Ht id t Hl Hp) as [Hs Hm].
  exact (Hm (tURI t) (Hreg id t Hs Hp)).
Qed.

Lemma Run_Close (input : list (Incoming E)) :
  forall s : Server E,
    timersOk s ->
    exists s1 rest, Run E s input = (Close E s1, rest) /\ timersOk s1.
Proof.
  induction input as [|i input IH]; intros s Hok; cbn [Run].
  - exists s, (Returned []). auto.
  - destruct i as [| |decoded]; [apply IH, Hok | exists s, (Panicked input); auto |].
    pose proof (handleMessage_timersOk E s decoded Hok) as Hok'.
    destruct (handleMessage E s decoded) as [s1 b]. cbn [fst] in Hok'.
    destruct b; [exists s1, (Returned input); auto | apply IH, Hok'].
Qed.

(** X19.  [Close] empties the registry and stops every pending timer, so
    that no reparse is started afterwards; a timer that has already
    expired is left as it is, its callback can still run.  Documents,
    output and trace are not touched.  [Run] ends with [Close], whether on
    an [exit] notification, at the end of the input or in the panic of a
    Content-Length that cannot be allocated. *)
Theorem Close_stops_every_pending_timer (s : Server E) :
  Reachable E s ->
  debounceTimers E (Close E s) = ∅
  /\ (forall id t, timers E (Close E s) !! id = Some t -> tState t <> Pending)
  /\ (forall id t, timers E s !! id = Some t -> tState t <> Pending ->
                   timers E (Close E s) !! id = Some t)
  /\ documents E (Close E s) = documents E s
  /\ output E (Close E s) = output E s
  /\ trace E (Close E s) = trace E s
  /\ (forall input : list (Incoming E),
        debounceTimers E (Run E s input).1 = ∅
        /\ forall id t, timers E (Run E s input).1 !! id = Some t -> tState t <> Pending).
Proof.
  intros Hr. pose proof (Reachable_timersOk E s Hr) as Hok.
  destruct (Close_spec s Hok) as (H1 & H2 & H3 & H4 & H5 & H6).
  repeat (split; [assumption|]).
  intros input. destruct (Run_Close input s Hok) as (s1 & rest & -> & Hok1). cbn [fst].
  destruct (Close_spec s1 Hok1) as (K1 & K2 & _). auto.
Qed.

(** *** The shutdown flag *)

Ltac flag_cases :=
  repeat match goal with
         | |- context [match ?x with _ => _ end] => destruct x eqn:?; cbn
         end; try reflexivity.

Lemma parseDocument_setShutdown (s : Server E) (b : bool) uri langID content oldTree :
  parseDocument E (setShutdown E s b) uri langID content oldTree
  = setShutdown E (parseDocument E s uri langID content oldTree) b.
Proof.
  destruct s as [ini sh docs pr ai reg tm n out tr].
  unfold parseDocument, logToClient, sendNotification, write, observe, setDocuments,
    setShutdown. cbn.
  destruct pr as [m|]; [|reflexivity]. destruct (Parse E m langID oldTree content) as [t e].
  destruct e, ini; cbn; destruct (docs !! uri); reflexivity.
Qed.

Lemma stopTimer_setShutdown (s : Server E) (b : bool) (id : TimerId) :
  stopTimer E (setShutdown E s b) id = setShutdown E (stopTimer E s id) b.
Proof.
  destruct s as [ini sh docs pr ai reg tm n out tr].
  unfold stopTimer, setTimers, setShutdown. cbn.
  destruct (tm !! id) as [t|]; [|reflexivity]. destruct (tState t); reflexivity.
Qed.

Lemma serveCompletion_setShutdown v (s : Server E) (b : bool) id ai uri pos text tree lang :
  serveCompletion E v (setShutdown E s b) id ai uri pos text tree lang
  = (setShutdown E (serveCompletion E v s id ai uri pos text tree lang).1 b, false).
Proof.
  destruct s as [ini sh docs pr ai0 reg tm n out tr].
  unfold serveCompletion, sendResponse, write, observe, ok, setShutdown. cbn.
  flag_cases.
Qed.

Lemma freshTree_setShutdown v (s : Server E) (b : bool) id uri text tree lang :
  freshTree E v (setShutdown E s b) id uri text tree lang
  = match freshTree E v s id uri text tree lang with
    | inl h => inl (setShutdown E h.1 b, false)
    | inr (s', t, tr) => inr (setShutdown E s' b, t, tr)
    end.
Proof.
  unfold freshTree. rewrite parseDocument_setShutdown.
  destruct (stale text tree).
  - change (documents E (setShutdown E ?x b)) with (documents E x).
    destruct (documents E (parseDocument E s uri lang text None) !! uri) as [d|];
      [destruct (Tree d)|]; reflexivity.
  - destruct tree; reflexivity.
Qed.

Ltac flag_init :=
  unfold isInitialized;
  change (initialized E (setShutdown E ?x ?b)) with (initialized E x);
  destruct (initialized E _); [|reflexivity]; cbn [negb].

Lemma handleInitialize_setShutdown (s : Server E) (b : bool) (req : RequestMessage E) :
  (handleInitialize E (setShutdown E s b) req).1
  = setShutdown E (handleInitialize E s req).1 b.
Proof.
  unfold handleInitialize. destruct (ID E req); [|reflexivity].
  change (initialized E (setShutdown E s b)) with (initialized E s).
  destruct (initialized E s); [reflexivity|].
  destruct (unmarshalInitialize E (Params E req)); reflexivity.
Qed.

Lemma handleDidOpen_setShutdown (s : Server E) (b : bool) (req : RequestMessage E) :
  (handleDidOpen E (setShutdown E s b) req).1 = setShutdown E (handleDidOpen E s req).1 b.
Proof.
  unfold handleDidOpen. flag_init.
  destruct (unmarshalDidOpen E (Params E req)) as [p|]; [|reflexivity].
  cbn [fst ok]. rewrite <- parseDocument_setShutdown. reflexivity.
Qed.

Lemma handleDidChange_setShutdown (s : Server E) (b : bool) (req : RequestMessage E) :
  (handleDidChange E (setShutdown E s b) req).1
  = setShutdown E (handleDidChange E s req).1 b.
Proof.
  unfold handleDidChange. flag_init.
  destruct (unmarshalDidChange E (Params E req)) as [p|]; [|reflexivity].
  change (documents E (setShutdown E s b)) with (documents E s).
  destruct (documents E s !! changeURI p) as [d|]; [|reflexivity].
  destruct (last (ContentChanges p)) as [t|]; [|reflexivity].
  cbv zeta.
  set (docs' := <[changeURI p := mkDocumentState t (changeVersion p) (LanguageID d) (Tree d)]>
                  (documents E s)).
  change (setDocuments E (setShutdown E s b) docs')
    with (setShutdown E (setDocuments E s docs') b).
  change (debounceTimers E (setShutdown E ?x b)) with (debounceTimers E x).
  destruct (debounceTimers E (setDocuments E s docs') !! changeURI p) as [old|];
    [rewrite stopTimer_setShutdown|]; reflexivity.
Qed.

Lemma handleDidSave_setShutdown (s : Server E) (b : bool) (req : RequestMessage E) :
  (handleDidSave E (setShutdown E s b) req).1 = setShutdown E (handleDidSave E s req).1 b.
Proof. unfold handleDidSave. flag_init. reflexivity. Qed.

Lemma handleDidClose_setShutdown (s : Server E) (b : bool) (req : RequestMessage E) :
  (handleDidClose E (setShutdown E s b) req).1 = setShutdown E (handleDidClose E s req).1 b.
Proof.
  unfold handleDidClose. flag_init.
  destruct (unmarshalDidClose E (Params E req)) as [p|]; [|reflexivity].
  change (debounceTimers E (setShutdown E s b)) with (debounceTimers E s).
  destruct (debounceTimers E s !! closeURI p) as [old|]; [|reflexivity].
  rewrite stopTimer_setShutdown. reflexivity.
Qed.

Lemma handleInlineCompletion_setShutdown (s : Server E) (b : bool) (req : RequestMessage E) :
  (handleInlineCompletion E (setShutdown E s b) req).1
  = setShutdown E (handleInlineCompletion E s req).1 b.
Proof.
  unfold handleInlineCompletion. flag_init.
  destruct (ID E req) as [id|]; [|reflexivity].
  destruct (unmarshalInlineCompletion E (Params E req)) as [p|]; [|reflexivity].
  change (documents E (setShutdown E s b)) with (documents E s).
  destruct (documents E s !! posURI p) as [d|]; [|reflexivity].
  change (aiClient E (setShutdown E s b)) with (aiClient E s).
  destruct (aiClient E s) as [ai|]; [|reflexivity].
  rewrite freshTree_setShutdown.
  destruct (freshTree E Inline s id (posURI p) (Text d) (Tree d) (LanguageID d))
    as [h | [[s1 text] tree]]; [reflexivity|].
  rewrite serveCompletion_setShutdown. reflexivity.
Qed.

Lemma handleCompletion_setShutdown (s : Server E) (b : bool) (req : RequestMessage E) :
  (handleCompletion E (setShutdown E s b) req).1
  = setShutdown E (handleCompletion E s req).1 b.
Proof.
  unfold handleCompletion. flag_init.
  destruct (ID E req) as [id|]; [|reflexivity].
  destruct (unmarshalCompletion E (Params E req)) as [p|]; [|reflexivity].
  change (documents E (setShutdown E s b)) with (documents E s).
  destruct (documents E s !! posURI p) as [d|]; [|reflexivity].
  rewrite freshTree_setShutdown.
  change (aiClient E (setShutdown E s b)) with (aiClient E s).
  destruct (freshTree E Popup s id (posURI p) (Text d) (Tree d) (LanguageID d))
    as [h | [[s1 text] tree]]; [reflexivity|].
  destruct (aiClient E s) as [ai|]; [|reflexivity].
  rewrite serveCompletion_setShutdown. reflexivity.
Qed.

Lemma handleMessage_setShutdown (s : Server E) (b : bool)
      (decoded : option (RequestMessage E)) :
  isShutdown (Receive decoded) = false ->
  handleMessage E (setShutdown E s b) decoded
  = (setShutdown E (handleMessage E s decoded).1 b, (handleMessage E s decoded).2).
Proof.
  destruct decoded as [req|]; [|reflexivity]. cbn [isShutdown]. intros Hm.
  unfold handleMessage. cbv zeta. rewrite Hm.
  destruct (String.eqb (Method E req) "initialize");
    [rewrite handleInitialize_setShutdown; reflexivity|].
  destruct (String.eqb (Method E req) "initialized"); [reflexivity|].
  destruct (String.eqb (Method E req) "exit"); [reflexivity|].
  destruct (String.eqb (Method E req) "textDocument/didOpen");
    [rewrite handleDidOpen_setShutdown; reflexivity|].
  destruct (String.eqb (Method E req) "textDocument/didChange");
    [rewrite handleDidChange_setShutdown; reflexivity|].
  destruct (String.eqb (Method E req) "textDocument/didSave");
    [rewrite handleDidSave_setShutdown; reflexivity|].
  destruct (String.eqb (Method E req) "textDocument/didClose");
    [rewrite handleDidClose_setShutdown; reflexivity|].
  destruct (String.eqb (Method E req) "textDocument/inlineCompletion");
    [rewrite handleInlineCompletion_setShutdown; reflexivity|].
  destruct (String.eqb (Method E req) "textDocument/completion");
    [rewrite handleCompletion_setShutdown; reflexivity|].
  destruct (String.eqb (Method E req) "$/cancelRequest"); [reflexivity|].
  destruct (String.eqb (Method E req) "$/setTrace"); [reflexivity|].
  destruct (ID E req); reflexivity.
Qed.

Lemma debounceCallback_setShutdown (s : Server E) (b : bool) tid uri old :
  debounceCallback E (setShutdown E s b) tid uri old
  = setShutdown E (debounceCallback E s tid uri old) b.
Proof.
  unfold debounceCallback.
  change (documents E (setShutdown E s b)) with (documents E s).
  destruct (documents E s !! uri) as [d|].
  - rewrite parseDocument_setShutdown.
    change (debounceTimers E (setShutdown E ?x b)) with (debounceTimers E x).
    destruct (bool_decide _); reflexivity.
  - change (debounceTimers E (setShutdown E ?x b)) with (debounceTimers E x).
    destruct (bool_decide _); reflexivity.
Qed.

(** X20.  The [shutdown] flag is consulted by the shutdown handler alone.
    Every other message, every timer expiry and every debounce callback
    does to a server that has been shut down exactly what it does to one
    that has not: documents are still stored, reparses still scheduled and
    run, completions still computed and answered. *)
Theorem shutdown_flag_is_not_consulted (s : Server E) (b : bool) (e : Step E) :
  isShutdown e = false ->
  step E (setShutdown E s b) e = option_map (fun s' => setShutdown E s' b) (step E s e).
Proof.
  intros Hn. destruct e as [decoded|id|id]; cbn [step option_map].
  - rewrite (handleMessage_setShutdown s b decoded Hn). reflexivity.
  - unfold expire. change (timers E (setShutdown E s b)) with (timers E s).
    destruct (timers E s !! id) as [t|]; [|reflexivity].
    destruct (tState t); reflexivity.
  - unfold runCallback. change (timers E (setShutdown E s b)) with (timers E s).
    destruct (timers E s !! id) as [t|]; [|reflexivity].
    destruct (tState t); try reflexivity. cbn [option_map]. f_equal.
    rewrite <- debounceCallback_setShutdown. reflexivity.
Qed.

(** *** One pipeline, two envelopes *)

Lemma serveCompletion_envelopes (s : Server E) id ai uri pos text tree lang :
  exists (s1 : Server E) (rp ri : Result),
    serveCompletion E Popup s id ai uri pos text tree lang
    = (sendResponse E s1 id rp None, false)
    /\ serveCompletion E Inline s id ai uri pos text tree lang
       = (sendResponse E s1 id ri None, false)
    /\ ((rp = emptyList Popup /\ ri = emptyList Inline)
        \/ exists t, t <> [] /\ rp = suggestionList Popup t /\ ri = suggestionList Inline t).
Proof.
  unfold serveCompletion, ok.
  destruct (Position.PositionToOffset text pos) as [off| |];
    try (exists s; do 2 eexists; split; [reflexivity|]; split; [reflexivity|];
         left; split; reflexivity).
  cbv zeta.
  destruct (Analyzer.ExtractContext _ _ _ _ _ _ _) as [ctx| | |];
    try (eexists; do 2 eexists; split; [reflexivity|]; split; [reflexivity|];
         left; split; reflexivity).
  destruct (GetSuggestion ai ctx) as [t| | |];
    try (eexists; do 2 eexists; split; [reflexivity|]; split; [reflexivity|];
         left; split; reflexivity).
  destruct (bool_decide (t = [])) eqn:Ht.
  - eexists; do 2 eexists; split; [reflexivity|]; split; [reflexivity|].
    left; split; reflexivity.
  - apply bool_decide_eq_false in Ht.
    eexists; do 2 eexists; split; [reflexivity|]; split; [reflexivity|].
    right. exists t. auto.
Qed.

Lemma freshTree_envelopes (s : Server E) id uri text tree lang :
  (exists s1 : Server E,
     freshTree E Popup s id uri text tree lang
     = inl (sendResponse E s1 id (emptyList Popup) None, false)
     /\ freshTree E Inline s id uri text tree lang
        = inl (sendResponse E s1 id (emptyList Inline) None, false))
  \/ (exists x, freshTree E Popup s id uri text tree lang = inr x
                /\ freshTree E Inline s id uri text tree lang = inr x).
Proof.
  unfold freshTree, ok. destruct (stale text tree).
  - destruct (documents E (parseDocument E s uri lang text None) !! uri) as [d|].
    + destruct (Tree d); [right; eauto | left; eauto].
    + left; eauto.
  - destruct tree; [right; eauto | left; eauto].
Qed.

(** X21.  The popup and the inline completion are one pipeline with two
    envelopes.  On an initialized server with a backend, for the same
    document and position, both handlers leave the same state behind (the
    same parse, the same context extraction), write the same notifications
    and answer with the same text: both with an empty list, or both with
    one item holding the same non-empty suggestion. *)
Theorem popup_and_inline_agree (s : Server E) (req : RequestMessage E) (id : Z)
        (p : TextDocumentPositionParams) (ai : AIClient) :
  initialized E s = true -> ID E req = Some id -> aiClient E s = Some ai ->
  unmarshalCompletion E (Params E req) = Some p ->
  unmarshalInlineCompletion E (Params E req) = Some p ->
  exists (s1 : Server E) (rp ri : Result),
    (handleCompletion E s req).1 = sendResponse E s1 id rp None
    /\ (handleInlineCompletion E s req).1 = sendResponse E s1 id ri None
    /\ ((rp = emptyList Popup /\ ri = emptyList Inline)
        \/ exists t, t <> [] /\ rp = suggestionList Popup t /\ ri = suggestionList Inline t).
Proof.
  intros Hi Hid Hai Hp Hq.
  unfold handleCompletion, handleInlineCompletion, isInitialized.
  rewrite Hi, Hid, Hp, Hq, Hai. cbn [negb].
  destruct (documents E s !! posURI p) as [d|].
  2:{ exists s. do 2 eexists. split; [reflexivity|]. split; [reflexivity|].
      left. split; reflexivity. }
  destruct (freshTree_envelopes s id (posURI p) (Text d) (Tree d) (LanguageID d))
    as [(s1 & -> & ->) | (x & -> & ->)].
  - exists s1. do 2 eexists. split; [reflexivity|]. split; [reflexivity|].
    left. split; reflexivity.
  - destruct x as [[s1 text] tree].
    destruct (serveCompletion_envelopes s1 id ai (posURI p) (posPosition p) text tree
                (LanguageID d)) as (s2 & rp & ri & -> & -> & Hr).
    exists s2, rp, ri. auto.
Qed.

(** *** Opening a document *)

Lemma handleMessage_didOpen (s : Server E) (req : RequestMessage E) :
  Method E req = "textDocument/didOpen"%string ->
  (handleMessage E s (Some req)).1 = (handleDidOpen E s req).1.
Proof. intros Hm. unfold handleMessage. rewrite Hm. reflexivity. Qed.

(** X22.  A [didOpen] on an initialized server stores the document with
    the text, version and language of the notification, replacing what was
    stored for the URI, and leaves the other documents alone.  With a
    parser, exactly one full parse of that text is made (no old tree is
    passed) and its tree is stored, nil when the language is unknown or
    the parse failed; without a parser nothing is parsed and the tree is
    nil.  The registry and the timers are not touched: a reparse pending
    for the URI is not cancelled. *)
Theorem didOpen_stores_and_parses (s : Server E) (req : RequestMessage E)
        (p : DidOpenTextDocumentParams) :
  initialized E s = true ->
  Method E req = "textDocument/didOpen"%string ->
  unmarshalDidOpen E (Params E req) = Some p ->
  documents E (handleMessage E s (Some req)).1
  = <[openURI p := mkDocumentState (openText p) (openVersion p) (openLanguageID p)
                     (match parser E s with
                      | Some m => parsedTree m (openLanguageID p) None (openText p)
                      | None => None
                      end)]> (documents E s)
  /\ trace E (handleMessage E s (Some req)).1
     = trace E s ++ match parser E s with
                    | Some _ => [EvParse (openURI p) (openLanguageID p) (openText p) None]
                    | None => []
                    end
  /\ core (handleMessage E s (Some req)).1 = core s
  /\ (forall m t, parser E s = Some m ->
                  parsedTree m (openLanguageID p) None (openText p) = Some t ->
                  exists lang, langMap E m !! openLanguageID p = Some (Some lang)
                               /\ ParseCtx E lang None (openText p) = Some t).
Proof.
  intros Hi Hm Hu. rewrite (handleMessage_didOpen s req Hm).
  split; [|split; [|split]].
  - unfold handleDidOpen, isInitialized. rewrite Hi, Hu. cbn [negb fst ok].
    destruct (parser E s) as [m|] eqn:Hpm.
    + rewrite (parseDocument_documents E _ m) by exact Hpm.
      cbn [documents setDocuments]. rewrite lookup_insert_eq.
      rewrite insert_insert_eq. reflexivity.
    + rewrite parseDocument_no_parser by exact Hpm. reflexivity.
  - unfold handleDidOpen, isInitialized. rewrite Hi, Hu. cbn [negb fst ok].
    rewrite parseDocument_trace. reflexivity.
  - apply handleDidOpen_core.
  - intros m t _. unfold parsedTree, Parse.
    destruct (langMap E m !! openLanguageID p) as [[lang|]|]; cbn; try discriminate.
    destruct (ParseCtx E lang None (openText p)) as [t'|] eqn:HP; cbn; [|discriminate].
    intros [= <-]. eauto.
Qed.

End WithEnv.

Lemma sampleServer_reachable : Reachable sampleEnv sampleServer.
Proof. exists (Some sampleManager), (Some sampleClient), []. reflexivity. Qed.

Lemma registry_holds_the_pending_reparse_witness : registryOk staleServer.
Proof.
  exact (proj1 (registry_holds_the_pending_reparse sampleEnv staleServer staleServer_reachable)).
Defined.

Lemma didClose_forgets_the_document_witness :
  documents sampleEnv (handleMessage sampleEnv staleServer (Some closeRequest)).1
  = delete "file:///a.go"%string (documents sampleEnv staleServer).
Proof.
  exact (proj1 (didClose_forgets_the_document sampleEnv staleServer closeRequest
                  (mkDidClose "file:///a.go") staleServer_reachable eq_refl eq_refl eq_refl)).
Defined.

Lemma Close_stops_every_pending_timer_witness :
  debounceTimers sampleEnv (Close sampleEnv staleServer) = ∅.
Proof.
  exact (proj1 (Close_stops_every_pending_timer sampleEnv staleServer staleServer_reachable)).
Defined.

Lemma shutdown_flag_is_not_consulted_witness :
  step sampleEnv (setShutdown sampleEnv staleServer true) (Receive (Some completionRequest))
  = option_map (fun s' => setShutdown sampleEnv s' true)
               (step sampleEnv staleServer (Receive (Some completionRequest))).
Proof.
  exact (shutdown_flag_is_not_consulted sampleEnv staleServer true
           (Receive (Some completionRequest)) eq_refl).
Defined.

Lemma popup_and_inline_agree_witness :
  exists (s1 : Server sampleEnv) (rp ri : Result),
    (handleCompletion sampleEnv staleServer completionRequest).1
    = sendResponse sampleEnv s1 2 rp None
    /\ (handleInlineCompletion sampleEnv staleServer completionRequest).1
       = sendResponse sampleEnv s1 2 ri None
    /\ ((rp = emptyList Popup /\ ri = emptyList Inline)
        \/ exists t, t <> [] /\ rp = suggestionList Popup t /\ ri = suggestionList Inline t).
Proof.
  exact (popup_and_inline_agree sampleEnv staleServer completionRequest 2
           (mkPosParams "file:///a.go" (Position.mkPosition 0 3)) sampleClient
           eq_refl eq_refl eq_refl eq_refl eq_refl).
Defined.

Lemma didOpen_stores_and_parses_witness :
  trace sampleEnv (handleMessage sampleEnv initializedServer (Some openRequest)).1
  = trace sampleEnv initializedServer ++ [EvParse "file:///a.go" "go" (B "x") None].
Proof.
  exact (proj1 (proj2 (didOpen_stores_and_parses sampleEnv initializedServer openRequest
                         (mkDidOpen "file:///a.go" (B "x") "go" 1) eq_refl eq_refl eq_refl))).
Defined.

Lemma nothing_before_initialized_witness :
  (initialized sampleEnv sampleServer = false -> quiet sampleServer)
  /\ (forall (e : Step sampleEnv) (s' : Server sampleEnv),
        step sampleEnv sampleServer e = Some s' ->
        initialized sampleEnv sampleServer = true -> initialized sampleEnv s' = true).
Proof.
  exact (nothing_before_initialized sampleEnv sampleServer sampleServer_reachable).
Defined.

End ServerMore.
